(** * Fiscal aggregation pipeline of [apuracao.py]

    A shallow embedding of [normalize_colname], [find_best_column],
    [parse_valor_brasileiro] and [process_from_postgres], and the properties
    of the pipeline that its specification states.

    Modelling conventions.
    - A Python [str] is a Rocq [string] holding its UTF-8 bytes.  Substring
      search, replacement and lexicographic order on code points agree with
      the same operations on UTF-8 bytes.
    - A Python [float] is an exact rational ([Q]): sums and products are the
      mathematical ones, without rounding, overflow or NaN.
    - A table cell is SQL text or NULL ([option string]); a data frame is
      a list of labelled columns, each of one type, as in pandas.
    - Of pandas the development fixes what the code relies on: a left
      [merge] keeps the rows of the left frame in order, once per matching
      row of the right frame and once when nothing matches, and gives the
      suffix [_nota] to a right label that the left frame has too;
      [groupby] orders the groups by key and leaves out the rows whose key
      is missing; [sum] skips missing values; a label that no column or
      more than one column carries cannot be read.
    - The functions of pandas that the code calls on dates
      ([pd.to_datetime], [to_period("M")] and its [astype(str)] on a proper
      date) are parameters of the development.
    - The text of a missing monthly period is ["NaT"], as with pandas before
      3.
    - The character classes of Python are Unicode-aware; here [\d] is the
      ASCII digits, white space is the ASCII white space, and [\w] and
      [lower] cover ASCII and the letters of Latin-1 (U+00C0 to U+00FF),
      every other byte beyond ASCII counting as a letter without case.  What
      is stated of [normalize_colname] and of [parse_valor_brasileiro] on an
      arbitrary text is therefore stated for the names with [latin_name] and
      for the texts with [ascii_text]. *)

From Stdlib Require Import String Ascii List Bool Arith ZArith QArith Lia.
From Stdlib Require Import DecimalString DecimalNat Finite Permutation Sorted.
Import ListNotations.
Open Scope string_scope.

(** ** Python strings *)

Module PyStr.

Definition byte (n : nat) : ascii := ascii_of_nat n.

Definition code (c : ascii) : nat := nat_of_ascii c.

Definition in_range (lo hi : nat) (c : ascii) : bool :=
  (lo <=? code c)%nat && (code c <=? hi)%nat.

Definition is_digit (c : ascii) : bool := in_range 48 57 c.

Definition is_upper (c : ascii) : bool := in_range 65 90 c.

Definition is_lower (c : ascii) : bool := in_range 97 122 c.

(** [\w] of Python's [re] on [str]: letters, digits and the underscore.
    Bytes of a non-ASCII code point are kept as word characters, which is
    what [\w] does on the letters of Latin-1 and not on the separators,
    signs and white space beyond ASCII. *)
Definition is_word (c : ascii) : bool :=
  is_digit c || is_upper c || is_lower c || Ascii.eqb c "_" || (128 <=? code c)%nat.

(** The white space of ASCII, which [str.strip()] removes; the white space
    beyond ASCII, which it removes too, is not modelled. *)
Definition is_space (c : ascii) : bool :=
  in_range 9 13 c || in_range 28 32 c.

(** [k in s] *)
Fixpoint contains (k s : string) : bool :=
  match s with
  | EmptyString => String.prefix k s
  | String _ r => String.prefix k s || contains k r
  end.

(** [s.replace(c, new)] for a one-character [c]. *)
Fixpoint replace1 (c : ascii) (new : string) (s : string) : string :=
  match s with
  | EmptyString => EmptyString
  | String x r =>
      if Ascii.eqb x c then new ++ replace1 c new r
      else String x (replace1 c new r)
  end.

(** [s.replace(ab, new)] for a two-character [ab]. *)
Fixpoint replace2 (a b : ascii) (new : string) (s : string) : string :=
  match s with
  | EmptyString => EmptyString
  | String x s' =>
      match s' with
      | EmptyString => s
      | String y r =>
          if Ascii.eqb x a && Ascii.eqb y b then new ++ replace2 a b new r
          else String x (replace2 a b new s')
      end
  end.

(** [s.lower()] on ASCII letters and on the capital letters of Latin-1
    (U+00C0 to U+00DE except U+00D7), whose UTF-8 form is the byte 195
    followed by a byte from 128 to 158.  The capital letters beyond Latin-1
    are left as they are. *)
Fixpoint lower (s : string) : string :=
  match s with
  | EmptyString => EmptyString
  | String x s' =>
      if is_upper x then String (byte (code x + 32)) (lower s')
      else
        match s' with
        | String y r =>
            if Ascii.eqb x (byte 195) && in_range 128 158 y
               && negb (Ascii.eqb y (byte 151))
            then String x (String (byte (code y + 32)) (lower r))
            else String x (lower s')
        | EmptyString => s
        end
  end.

Fixpoint lstrip (p : ascii -> bool) (s : string) : string :=
  match s with
  | EmptyString => EmptyString
  | String x r => if p x then lstrip p r else s
  end.

Fixpoint rstrip (p : ascii -> bool) (s : string) : string :=
  match s with
  | EmptyString => EmptyString
  | String x r =>
      let r' := rstrip p r in
      if p x && String.eqb r' EmptyString then EmptyString else String x r'
  end.

Definition strip_by (p : ascii -> bool) (s : string) : string :=
  rstrip p (lstrip p s).

(** [s.strip()] *)
Definition strip (s : string) : string := strip_by is_space s.

(** [re.sub(r"[^...]", "", s)] for a character class given by [keep]. *)
Fixpoint keep_only (keep : ascii -> bool) (s : string) : string :=
  match s with
  | EmptyString => EmptyString
  | String x r =>
      if keep x then String x (keep_only keep r) else keep_only keep r
  end.

(** [re.sub(cls + "+", "_", s)]: every maximal run of characters of the
    class [p] becomes one underscore. *)
Fixpoint sub_runs (p : ascii -> bool) (in_run : bool) (s : string) : string :=
  match s with
  | EmptyString => EmptyString
  | String x r =>
      if p x then
        if in_run then sub_runs p true r
        else String "_" (sub_runs p true r)
      else String x (sub_runs p false r)
  end.

(** Truth value of an optional string, for [a or b] and [if a]. *)
Definition truthy (o : option string) : bool :=
  match o with
  | Some s => negb (String.eqb s EmptyString)
  | None => false
  end.

(** [a or b] *)
Definition py_or (a b : option string) : option string :=
  if truthy a then a else b.

End PyStr.

Import PyStr.

(** ** ColumnResolver *)

(** [normalize_colname]: lower case, the accented letters of Portuguese
    to their base letter, runs of non-word characters to one underscore,
    no underscore at either end. *)
Definition normalize_colname (c : string) : string :=
  let s := lower (strip c) in
  (* a-acute, a-grave, a-tilde, a-circumflex *)
  let s := replace2 (byte 195) (byte 161) "a" s in
  let s := replace2 (byte 195) (byte 160) "a" s in
  let s := replace2 (byte 195) (byte 163) "a" s in
  let s := replace2 (byte 195) (byte 162) "a" s in
  (* e-acute, e-circumflex *)
  let s := replace2 (byte 195) (byte 169) "e" s in
  let s := replace2 (byte 195) (byte 170) "e" s in
  (* i-acute *)
  let s := replace2 (byte 195) (byte 173) "i" s in
  (* o-acute, o-circumflex, o-tilde *)
  let s := replace2 (byte 195) (byte 179) "o" s in
  let s := replace2 (byte 195) (byte 180) "o" s in
  let s := replace2 (byte 195) (byte 181) "o" s in
  (* u-acute *)
  let s := replace2 (byte 195) (byte 186) "u" s in
  (* c-cedilla *)
  let s := replace2 (byte 195) (byte 167) "c" s in
  let s := sub_runs (fun x => negb (is_word x)) false s in
  let s := sub_runs (fun x => Ascii.eqb x "_") false s in
  strip_by (fun x => Ascii.eqb x "_") s.

(** [find_best_column]: the first column whose normalised name contains all
    the keywords, else the first one that contains any of them. *)
Definition find_best_column (cols : list string) (keywords : list string)
  : option string :=
  let lowcols := map normalize_colname cols in
  match find (fun p => forallb (fun k => contains k (snd p)) keywords)
             (combine cols lowcols) with
  | Some p => Some (fst p)
  | None =>
      match find (fun p => existsb (fun k => contains k (snd p)) keywords)
                 (combine cols lowcols) with
      | Some p => Some (fst p)
      | None => None
      end
  end.

(** ** NumericParser *)

Module PyFloat.

(** The longest prefix of decimal digits of [s], and what follows it. *)
Fixpoint span_digits (s : string) : string * string :=
  match s with
  | EmptyString => (EmptyString, EmptyString)
  | String x r =>
      if is_digit x then
        let (d, t) := span_digits r in (String x d, t)
      else (EmptyString, s)
  end.

Fixpoint digits_value (acc : Z) (s : string) : Z :=
  match s with
  | EmptyString => acc
  | String x r => digits_value (10 * acc + Z.of_nat (code x - 48)) r
  end.

(** An optional sign: [true] for a minus. *)
Definition take_sign (s : string) : bool * string :=
  match s with
  | String "-" r => (true, r)
  | String "+" r => (false, r)
  | _ => (false, s)
  end.

(** The exponent part: absent, or [e] or [E], an optional sign and at least
    one digit, up to the end of the string. *)
Definition exponent (s : string) : option Z :=
  match s with
  | EmptyString => Some 0%Z
  | String x r =>
      if Ascii.eqb x "e" || Ascii.eqb x "E" then
        let (neg, r1) := take_sign r in
        let (d, t) := span_digits r1 in
        if String.eqb d EmptyString || negb (String.eqb t EmptyString) then None
        else Some (if neg then (- digits_value 0 d)%Z else digits_value 0 d)
      else None
  end.

(** [m * 10^e] as a rational in lowest terms. *)
Definition scale10 (m e : Z) : Q :=
  if (0 <=? e)%Z then inject_Z (m * 10 ^ e)
  else Qred (Qmake m (Z.to_pos (10 ^ (- e)))).

(** [float(s)] of Python on a string without white space, underscores or
    letters other than the exponent marker: a sign, digits with an optional
    point (digits on at least one side of it) and an optional exponent.
    [None] stands for [ValueError]. *)
Definition py_float (s : string) : option Q :=
  let (neg, s1) := take_sign s in
  let (ip, s2) := span_digits s1 in
  let '(fp, s3) :=
    match s2 with
    | String "." r => span_digits r
    | _ => (EmptyString, s2)
    end in
  if String.eqb ip EmptyString && String.eqb fp EmptyString then None
  else
    match exponent s3 with
    | None => None
    | Some e =>
        let m := digits_value 0 (ip ++ fp) in
        let v := scale10 m (e - Z.of_nat (String.length fp)) in
        Some (if neg then Qopp v else v)
    end.

(** [re.findall(r"[\d]+", s)] *)
Fixpoint digit_runs (fuel : nat) (s : string) : list string :=
  match fuel with
  | O => []
  | S fuel' =>
      match s with
      | EmptyString => []
      | String x r =>
          if is_digit x then
            let (d, t) := span_digits s in d :: digit_runs fuel' t
          else digit_runs fuel' r
      end
  end.

Definition findall_digits (s : string) : list string :=
  digit_runs (S (String.length s)) s.

End PyFloat.

Import PyFloat.

(** A Python value handed to the parser: missing ([None], NaN), a number,
    or text. *)
Inductive pyval : Type :=
| PNone
| PNum (q : Q)
| PStr (s : string).

(** The [return] statement of [parse_valor_brasileiro] that produced the
    result. *)
Inductive branch : Type :=
| BMissing      (* pd.isna(v) *)
| BNumeric      (* isinstance(v, (int, float)) *)
| BEmpty        (* s == "" *)
| BComma        (* a comma and no point *)
| BThousands    (* points and a comma *)
| BDirect       (* float(s_clean) *)
| BNoDigits     (* no digit at all *)
| BDigits.      (* the digit runs, concatenated *)

(** The class [[\d\-,\.eE+]], with the digits of ASCII for [\d]: on a text
    within ASCII this is the class of the code. *)
Definition keep_numeric (x : ascii) : bool :=
  is_digit x || Ascii.eqb x "-" || Ascii.eqb x "," || Ascii.eqb x "."
  || Ascii.eqb x "e" || Ascii.eqb x "E" || Ascii.eqb x "+".

Definition try_float (b : branch) (s : string) (otherwise : branch * Q)
  : branch * Q :=
  match py_float s with
  | Some q => (b, q)
  | None => otherwise
  end.

(** [parse_valor_brasileiro], with the branch that returned. *)
Definition parse_trace (v : pyval) : branch * Q :=
  match v with
  | PNone => (BMissing, 0)
  | PNum q => (BNumeric, q)
  | PStr s0 =>
      let s := strip s0 in
      if String.eqb s EmptyString then (BEmpty, 0)
      else
        let s := replace1 " " "" (replace2 "R" "$" "" s) in
        let s_clean := keep_only keep_numeric s in
        let s2 := replace1 "," "." (replace1 "." "" s_clean) in
        let fallback :=
          match findall_digits s_clean with
          | [] => (BNoDigits, 0)
          | digits => try_float BDigits (String.concat "" digits) (BNoDigits, 0)
          end in
        let direct := try_float BDirect s_clean fallback in
        let thousands :=
          if contains "." s_clean && contains "," s_clean
          then try_float BThousands s2 direct
          else direct in
        if contains "," s_clean && negb (contains "." s_clean)
        then try_float BComma s2 thousands
        else thousands
  end.

Definition parse_valor_brasileiro (v : pyval) : Q := snd (parse_trace v).

(** ** Fatal errors *)

(** A computation that may stop with [SystemExit] or an uncaught
    exception. *)
Inductive outcome (A : Type) : Type :=
| Fatal (msg : string)
| Ok (a : A).

Arguments Fatal {A} msg.
Arguments Ok {A} a.

Definition bind {A B : Type} (m : outcome A) (k : A -> outcome B) : outcome B :=
  match m with
  | Fatal msg => Fatal msg
  | Ok a => k a
  end.

Notation "x <- m ;; k" := (bind m (fun x => k))
  (at level 61, m at next level, right associativity).

Definition require {A : Type} (msg : string) (o : option A) : outcome A :=
  match o with
  | Some a => Ok a
  | None => Fatal msg
  end.

(** ** Tables and data frames *)

(** A cell of a table read from the database: text, or [None] for NULL. *)
Definition cell : Type := option string.

Definition cell_eqb (a b : cell) : bool :=
  match a, b with
  | None, None => true
  | Some x, Some y => String.eqb x y
  | _, _ => false
  end.

(** The result of [SELECT * FROM t], or one batch of it. *)
Record Table : Type := mkTable {
  t_columns : list string;
  t_rows : list (list cell)
}.

(** [str(i)] for a row position. *)
Definition str_nat (i : nat) : string := NilZero.string_of_uint (Nat.to_uint i).

Definition enumerate {A : Type} (l : list A) : list (nat * A) :=
  combine (seq 0 (length l)) l.

(** The row pairs of a left join on equal keys: every left row in order,
    with each matching right row in order, or with no right row. *)
Definition left_join (lkeys rkeys : list cell) : list (nat * option nat) :=
  flat_map
    (fun ik : nat * cell =>
       match filter (fun jk : nat * cell => cell_eqb (snd ik) (snd jk))
                    (enumerate rkeys) with
       | [] => [(fst ik, None)]
       | ms => map (fun jk : nat * cell => (fst ik, Some (fst jk))) ms
       end)
    (enumerate lkeys).

(** [sum()] of a float column; missing values are skipped. *)
Definition sum_skipna (d : list (option Q)) : Q :=
  fold_left (fun s o => match o with Some v => s + v | None => s end) d 0.

(** Insertion of a value into groups kept in ascending label order. *)
Fixpoint group_add (k : string) (v : Q) (g : list (string * Q))
  : list (string * Q) :=
  match g with
  | [] => [(k, 0 + v)]
  | (k', s) :: r =>
      match String.compare k k' with
      | Eq => (k', s + v) :: r
      | Lt => (k, 0 + v) :: g
      | Gt => (k', s) :: group_add k v r
      end
  end.

(** [groupby(key)[val].sum().items()]: the groups in ascending key order;
    the rows with a missing key belong to no group. *)
Fixpoint groupby_sum (keys : list cell) (vals : list (option Q))
  : list (string * Q) :=
  match keys, vals with
  | k :: keys', v :: vals' =>
      let g := groupby_sum keys' vals' in
      match k, v with
      | Some k, Some v => group_add k v g
      | Some k, None => group_add k 0 g
      | None, _ => g
      end
  | _, _ => []
  end.

(** A [defaultdict(float)], in insertion order. *)
Definition bucket : Type := list (string * Q).

(** [d[k] += v] *)
Fixpoint bucket_add (k : string) (v : Q) (d : bucket) : bucket :=
  match d with
  | [] => [(k, 0 + v)]
  | (k', s) :: r =>
      if String.eqb k k' then (k', s + v) :: r
      else (k', s) :: bucket_add k v r
  end.

(** [for k, s in groups: d[k] += float(s)] *)
Definition bucket_update (d : bucket) (groups : list (string * Q)) : bucket :=
  fold_left (fun d ks => bucket_add (fst ks) (snd ks) d) groups d.

Fixpoint insert_sorted (p : string * Q) (l : list (string * Q))
  : list (string * Q) :=
  match l with
  | [] => [p]
  | q :: r =>
      if String.leb (fst p) (fst q) then p :: l
      else q :: insert_sorted p r
  end.

(** [sorted(d.items())]: the keys of a dictionary are distinct, so the pairs
    are ordered by their label. *)
Definition sorted_items (d : bucket) : list (string * Q) :=
  fold_right insert_sorted [] d.

Definition pivot_sum (p : list (string * Q)) : Q :=
  fold_right (fun ks s => snd ks + s) 0 p.

Section Pipeline.

(** What pandas' date functions compute is left open: [to_datetime dayfirst
    column x] is the entry of [pd.to_datetime(column, errors="coerce",
    dayfirst=...)] at an element [x] of the column ([None] for [NaT]), and
    [period_str t] is [str] of the monthly period of a proper date. *)
Variable timestamp : Type.
Variable to_datetime : bool -> list cell -> cell -> option timestamp.
Variable period_str : timestamp -> string.

(** A column of a data frame: text ([object]), [float64] with [None] for
    NaN, or [datetime64] with [None] for [NaT]. *)
Inductive series : Type :=
| SText (d : list cell)
| SFloat (d : list (option Q))
| STime (d : list (option timestamp)).

Record DataFrame : Type := mkDF {
  df_cols : list (string * series);
  df_len : nat
}.

Definition columns (df : DataFrame) : list string := map fst (df_cols df).

Definition has_column (c : string) (df : DataFrame) : bool :=
  existsb (String.eqb c) (columns df).

(** [pd.read_sql]: one text column per column of the table. *)
Definition read_sql (t : Table) : DataFrame :=
  {| df_cols :=
       map (fun ic : nat * string =>
              (snd ic, SText (map (fun r => nth (fst ic) r None) (t_rows t))))
           (enumerate (t_columns t));
     df_len := length (t_rows t) |}.

(** [df.rename(columns=f)] *)
Definition rename_with (f : string -> string) (df : DataFrame) : DataFrame :=
  {| df_cols := map (fun c => (f (fst c), snd c)) (df_cols df);
     df_len := df_len df |}.

(** [df.rename(columns={old: new})] *)
Definition rename (old new : string) (df : DataFrame) : DataFrame :=
  rename_with (fun c => if String.eqb c old then new else c) df.

(** [df[c]]: the column with that label; [None] when no column or more
    than one column has it (the code then fails on the result). *)
Definition getitem (c : string) (df : DataFrame) : option series :=
  match filter (fun p : string * series => String.eqb (fst p) c) (df_cols df) with
  | [p] => Some (snd p)
  | _ => None
  end.

(** [df[c] = s] *)
Definition setitem (c : string) (s : series) (df : DataFrame) : DataFrame :=
  {| df_cols :=
       if has_column c df
       then map (fun p : string * series =>
                   if String.eqb (fst p) c then (fst p, s) else p) (df_cols df)
       else df_cols df ++ [(c, s)];
     df_len := df_len df |}.

Definition get_text (msg : string) (c : string) (df : DataFrame)
  : outcome (list cell) :=
  match getitem c df with
  | Some (SText d) => Ok d
  | _ => Fatal msg
  end.

Definition get_float (msg : string) (c : string) (df : DataFrame)
  : outcome (list (option Q)) :=
  match getitem c df with
  | Some (SFloat d) => Ok d
  | _ => Fatal msg
  end.

Definition cell_value (c : cell) : pyval :=
  match c with
  | None => PNone
  | Some s => PStr s
  end.

(** [s.apply(parse_valor_brasileiro)].  No datetime column reaches the
    parser. *)
Definition apply_parse (s : series) : outcome series :=
  match s with
  | SText d =>
      Ok (SFloat (map (fun c => Some (parse_valor_brasileiro (cell_value c))) d))
  | SFloat d =>
      Ok (SFloat (map (fun o =>
                         Some (parse_valor_brasileiro
                                 (match o with Some q => PNum q | None => PNone end)))
                      d))
  | STime _ => Fatal "parse of a datetime column"
  end.

(** [x.astype(str)] on a text column. *)
Definition astype_str (d : list cell) : list cell :=
  map (fun c => match c with Some s => Some s | None => Some "None" end) d.

Definition series_take (ix : list (option nat)) (s : series) : series :=
  match s with
  | SText d =>
      SText (map (fun o => match o with Some i => nth i d None | None => None end) ix)
  | SFloat d =>
      SFloat (map (fun o => match o with Some i => nth i d None | None => None end) ix)
  | STime d =>
      STime (map (fun o => match o with Some i => nth i d None | None => None end) ix)
  end.

(** The frame of a left [merge] with [suffixes=("", "_nota")], from the row
    pairs of the join.  With [on="chave_acesso"] the key column of the right
    frame is not repeated; a right label that the left frame also has gets
    the suffix. *)
Definition merge_frames (on_column : bool) (left right : DataFrame)
    (pairs : list (nat * option nat)) : DataFrame :=
  let rcols :=
    if on_column
    then filter (fun p : string * series => negb (String.eqb (fst p) "chave_acesso"))
                (df_cols right)
    else df_cols right in
  {| df_cols :=
       map (fun p : string * series =>
              (fst p, series_take (map (fun ij : nat * option nat => Some (fst ij)) pairs)
                                  (snd p)))
           (df_cols left)
       ++
       map (fun p : string * series =>
              ((if has_column (fst p) left then fst p ++ "_nota" else fst p),
               series_take (map snd pairs) (snd p)))
           rcols;
     df_len := length pairs |}.

(** ** Configuration: the module-level settings of [apuracao.py] *)

(** The settings that a caller assigns before a run. *)
Record Config : Type := mkConfig {
  ALIQ_ICMS_DEFAULT : Q;
  ALIQ_ISS_DEFAULT : Q;
  ALIQ_PIS_CUM : Q;
  ALIQ_COFINS_CUM : Q;
  ENQUADRAMENTO : string;
  PRESUNCAO : Q;
  ALIQUOTA_IRPJ : Q;
  ALIQUOTA_CSLL : Q;
  ESTIMATED_MARGIN : Q
}.

(** A constant of the module, which no caller assigns. *)
Definition ESTIMAR_IRPJ_CSLL : bool := true.

Record Accum : Type := mkAccum {
  total_rows_itens : nat;
  faturamento_bruto : Q;
  icms_estimado : Q;
  iss_estimado : Q;
  pis_estimado : Q;
  cofins_estimado : Q;
  irpj_estimado : Q;
  csll_estimado : Q
}.

(** [notas_index]: the frame of the invoices with its row index. *)
Record NotasIndex : Type := mkNotasIndex {
  ni_df : DataFrame;
  ni_index_name : option string;
  ni_index : list cell
}.

Record State : Type := mkState {
  notas_index : NotasIndex;
  accum : Accum;
  faturamento_por_mes : bucket;
  faturamento_por_uf_emit : bucket;
  faturamento_por_cfop : bucket;
  faturamento_por_ncm : bucket
}.

(** ** Set-up on the invoices *)

Definition resolve_chave (cols : list string) : option string :=
  py_or (find_best_column cols ["chave"; "acesso"]) (find_best_column cols ["chave"]).

Definition valor_cols_try : list string :=
  ["valor_total"; "valor"; "valor_nota"; "total"].

(** The loop over [valor_cols_try]. *)
Fixpoint first_found (cols : list string) (trynames : list string) : option string :=
  match trynames with
  | [] => None
  | tryname :: rest =>
      let found := find_best_column cols [tryname] in
      if truthy found then found else first_found cols rest
  end.

Definition resolve_valor_notas (cols : list string) : option string :=
  match first_found cols valor_cols_try with
  | Some c => Some c
  | None => find_best_column cols ["valor"]
  end.

Definition load_notas (notas : Table) : outcome NotasIndex :=
  let notas_df := read_sql notas in
  if (df_len notas_df =? 0)%nat || (length (df_cols notas_df) =? 0)%nat
  then Fatal "Tabela 'notas' esta vazia ou nao encontrada."
  else
    let notas_df := rename_with normalize_colname notas_df in
    chave_col <- require "Nao encontrei coluna de chave de acesso nas notas."
                         (resolve_chave (columns notas_df)) ;;
    let notas_df := rename chave_col "chave_acesso" notas_df in
    valor_col <- require "Nao encontrei coluna de valor nas notas."
                         (resolve_valor_notas (columns notas_df)) ;;
    let notas_df := rename valor_col "valor_total" notas_df in
    valor_total <- require "valor_total" (getitem "valor_total" notas_df) ;;
    parsed <- apply_parse valor_total ;;
    let notas_df := setitem "valor_total" parsed notas_df in
    if negb (has_column "chave_acesso" notas_df)
    then Fatal "Coluna 'chave_acesso' faltando apos normalizacao das notas."
    else
      index <- get_text "set_index" "chave_acesso" notas_df ;;
      Ok {| ni_df := notas_df;
            ni_index_name := Some "chave_acesso";
            ni_index := index |}.

(** ** One batch of items *)

Definition resolve_item_val (cols : list string) : option string :=
  py_or (py_or (find_best_column cols ["valor_total"])
               (find_best_column cols ["valor_item"]))
        (find_best_column cols ["valor"]).

Definition keep_quantity (x : ascii) : bool :=
  is_digit x || Ascii.eqb x "-" || Ascii.eqb x ".".

(** [float(re.sub(r"[^\d\-\.]", "", str(x)) or 0)]; [float] raises
    [ValueError] on what is not a number. *)
Definition quantidade_float (x : cell) : outcome Q :=
  let s := keep_only keep_quantity (match x with Some s => s | None => "None" end) in
  if String.eqb s EmptyString then Ok 0
  else require "ValueError" (py_float s).

Fixpoint map_outcome {A B : Type} (f : A -> outcome B) (l : list A)
  : outcome (list B) :=
  match l with
  | [] => Ok []
  | a :: r => b <- f a ;; bs <- map_outcome f r ;; Ok (b :: bs)
  end.

Fixpoint mul_columns (a b : list (option Q)) : list (option Q) :=
  match a, b with
  | x :: a', y :: b' =>
      match x, y with
      | Some u, Some v => Some (u * v)
      | _, _ => None
      end :: mul_columns a' b'
  | _, _ => []
  end.

(** The amount of each item, as the column [valor_total_item]: a resolved
    column, else unit price times quantity, else [0.0]; then parsed. *)
Definition item_amounts (chunk : DataFrame) : outcome DataFrame :=
  let item_val_col := resolve_item_val (columns chunk) in
  chunk <-
    (if truthy item_val_col then
       match item_val_col with
       | Some c => Ok (rename c "valor_total_item" chunk)
       | None => Ok chunk
       end
     else if has_column "valor_unitario" chunk && has_column "quantidade" chunk then
       unit <- require "valor_unitario" (getitem "valor_unitario" chunk) ;;
       unit <- apply_parse unit ;;
       qty <- get_text "quantidade" "quantidade" chunk ;;
       qty <- map_outcome quantidade_float qty ;;
       match unit with
       | SFloat u =>
           Ok (setitem "valor_total_item" (SFloat (mul_columns u (map Some qty))) chunk)
       | _ => Fatal "valor_unitario"
       end
     else
       Ok (setitem "valor_total_item" (SFloat (repeat (Some 0) (df_len chunk))) chunk)) ;;
  valor_total_item <- require "valor_total_item" (getitem "valor_total_item" chunk) ;;
  parsed <- apply_parse valor_total_item ;;
  Ok (setitem "valor_total_item" parsed chunk).

(** [notas_index.index.name == name] *)
Definition index_named (name : string) (ni : NotasIndex) : bool :=
  match ni_index_name ni with
  | Some n => String.eqb n name
  | None => false
  end.

(** The left join with the invoices.  While the index of [notas_index] is
    still named [chave_acesso], the index is reset to the row positions,
    turned into text, and the items are joined on it; afterwards the join is
    on the column [chave_acesso]. *)
Definition merge_notas (ni : NotasIndex) (chunk : DataFrame)
  : outcome (NotasIndex * DataFrame) :=
  if index_named "chave_acesso" ni then
      let ni := {| ni_df := ni_df ni;
                   ni_index_name := None;
                   ni_index := map (fun i => Some (str_nat i))
                                   (seq 0 (df_len (ni_df ni))) |} in
      key <- get_text "chave_acesso" "chave_acesso" chunk ;;
      let chunk := setitem "chave_acesso" (SText (astype_str key)) chunk in
      key <- get_text "chave_acesso" "chave_acesso" chunk ;;
      Ok (ni, merge_frames false chunk (ni_df ni) (left_join key (ni_index ni)))
  else
      lkey <- get_text "chave_acesso" "chave_acesso" chunk ;;
      rkey <- get_text "chave_acesso" "chave_acesso" (ni_df ni) ;;
      Ok (ni, merge_frames true chunk (ni_df ni) (left_join lkey rkey)).

Definition parse_column (dayfirst : bool) (c : string) (chunk : DataFrame)
  : outcome series :=
  d <- get_text c c chunk ;;
  Ok (STime (map (to_datetime dayfirst d) d)).

(** The column [data_emissao_parsed]. *)
Definition parse_dates (chunk : DataFrame) : outcome DataFrame :=
  parsed <-
    (if has_column "data_emissao" chunk then parse_column true "data_emissao" chunk
     else if has_column "data_emissao_nota" chunk
          then parse_column false "data_emissao_nota" chunk
          else Ok (STime (repeat None (df_len chunk)))) ;;
  Ok (setitem "data_emissao_parsed" parsed chunk).

Definition text_constant (s : string) (chunk : DataFrame) : series :=
  SText (repeat (Some s) (df_len chunk)).

(** One dimension column: a resolved column whose name is not one of
    [names] is renamed to [target]; when there is still no column [target],
    one is added, empty for every row. *)
Definition dimension_column (found : option string) (names : list string)
    (target : string) (chunk : DataFrame) : DataFrame :=
  let chunk :=
    match found with
    | Some c =>
        if truthy found && negb (existsb (String.eqb c) names)
        then rename c target chunk else chunk
    | None => chunk
    end in
  if negb (has_column target chunk)
  then setitem target (text_constant "" chunk) chunk else chunk.

(** The columns [uf_emitente], [cfop] and [ncm]. *)
Definition dimension_columns (chunk : DataFrame) : DataFrame :=
  let uf_emit_col :=
    py_or (find_best_column (columns chunk) ["uf_emitente"])
          (find_best_column (columns chunk) ["uf_emit"]) in
  let chunk :=
    dimension_column uf_emit_col ["uf_emitente"; "uf_emit"] "uf_emitente" chunk in
  let cfop_col := find_best_column (columns chunk) ["cfop"] in
  let chunk := dimension_column cfop_col ["cfop"] "cfop" chunk in
  let ncm_col := find_best_column (columns chunk) ["ncm"] in
  dimension_column ncm_col ["ncm"] "ncm" chunk.

(** [str] of the monthly period of a parsed date.  The text of a missing
    period is ["NaT"] with pandas before 3; from pandas 3 on the entry stays
    missing and [groupby] leaves its row out, so what is stated of the month
    of a row without a date holds for pandas before 3 only. *)
Definition period_label (o : option timestamp) : cell :=
  match o with
  | Some t => Some (period_str t)
  | None => Some "NaT"
  end.

(** The column [mes_ano]. *)
Definition month_column (chunk : DataFrame) : outcome DataFrame :=
  if has_column "data_emissao_parsed" chunk then
    match getitem "data_emissao_parsed" chunk with
    | Some (STime d) => Ok (setitem "mes_ano" (SText (map period_label d)) chunk)
    | _ => Fatal "data_emissao_parsed"
    end
  else Ok (setitem "mes_ano" (text_constant "unknown" chunk) chunk).

(** [chunk.groupby(c)["valor_total_item"].sum().items()] *)
Definition groupby_items (c : string) (chunk : DataFrame)
  : outcome (list (string * Q)) :=
  keys <- get_text c c chunk ;;
  vals <- get_float "valor_total_item" "valor_total_item" chunk ;;
  Ok (groupby_sum keys vals).

Definition accumulate (cfg : Config) (a : Accum) (rows : nat) (chunk_sum : Q)
  : Accum :=
  {| total_rows_itens := total_rows_itens a + rows;
     faturamento_bruto := faturamento_bruto a + chunk_sum;
     icms_estimado := icms_estimado a + chunk_sum * ALIQ_ICMS_DEFAULT cfg;
     iss_estimado := iss_estimado a + chunk_sum * ALIQ_ISS_DEFAULT cfg;
     pis_estimado := pis_estimado a + chunk_sum * ALIQ_PIS_CUM cfg;
     cofins_estimado := cofins_estimado a + chunk_sum * ALIQ_COFINS_CUM cfg;
     irpj_estimado := irpj_estimado a;
     csll_estimado := csll_estimado a |}.

Definition resolve_item_chave (cols : list string) : option string :=
  py_or (find_best_column cols ["chave"; "acesso"]) (find_best_column cols ["chave"]).

(** The frame of a batch once its columns are normalised. *)
Definition normalized (t : Table) : DataFrame :=
  rename_with normalize_colname (read_sql t).

(** The body of the loop over the batches. *)
Definition process_chunk (cfg : Config) (st : State) (t : Table) : outcome State :=
  let chunk := normalized t in
  let item_chave := resolve_item_chave (columns chunk) in
  match item_chave with
  | Some c =>
      if truthy item_chave then
        let chunk := rename c "chave_acesso" chunk in
        chunk <- item_amounts chunk ;;
        merged <- merge_notas (notas_index st) chunk ;;
        let chunk := snd merged in
        chunk <- parse_dates chunk ;;
        let chunk := dimension_columns chunk in
        vals <- get_float "valor_total_item" "valor_total_item" chunk ;;
        let chunk_sum := sum_skipna vals in
        let a := accumulate cfg (accum st) (df_len chunk) chunk_sum in
        chunk <- month_column chunk ;;
        por_mes <- groupby_items "mes_ano" chunk ;;
        por_uf <- groupby_items "uf_emitente" chunk ;;
        por_cfop <- groupby_items "cfop" chunk ;;
        por_ncm <- groupby_items "ncm" chunk ;;
        Ok {| notas_index := fst merged;
              accum := a;
              faturamento_por_mes := bucket_update (faturamento_por_mes st) por_mes;
              faturamento_por_uf_emit := bucket_update (faturamento_por_uf_emit st) por_uf;
              faturamento_por_cfop := bucket_update (faturamento_por_cfop st) por_cfop;
              faturamento_por_ncm := bucket_update (faturamento_por_ncm st) por_ncm |}
      else Ok st
  | None => Ok st
  end.

Fixpoint process_chunks (cfg : Config) (st : State) (reader : list Table)
  : outcome State :=
  match reader with
  | [] => Ok st
  | t :: rest => st' <- process_chunk cfg st t ;; process_chunks cfg st' rest
  end.

(** ** TaxEstimator, and the end of the run *)

Definition estimate_irpj_csll (cfg : Config) (a : Accum) : Accum :=
  let with_profit_taxes (csll irpj : Q) :=
    {| total_rows_itens := total_rows_itens a;
       faturamento_bruto := faturamento_bruto a;
       icms_estimado := icms_estimado a;
       iss_estimado := iss_estimado a;
       pis_estimado := pis_estimado a;
       cofins_estimado := cofins_estimado a;
       irpj_estimado := irpj;
       csll_estimado := csll |} in
  if ESTIMAR_IRPJ_CSLL then
    if String.eqb (ENQUADRAMENTO cfg) "lucro_presumido" then
      let base_presumida := faturamento_bruto a * PRESUNCAO cfg in
      with_profit_taxes (base_presumida * ALIQUOTA_CSLL cfg)
                        (base_presumida * ALIQUOTA_IRPJ cfg)
    else if String.eqb (ENQUADRAMENTO cfg) "lucro_real" then
      let lucro_contabil := faturamento_bruto a * ESTIMATED_MARGIN cfg in
      with_profit_taxes (lucro_contabil * ALIQUOTA_CSLL cfg)
                        (lucro_contabil * ALIQUOTA_IRPJ cfg)
    else with_profit_taxes 0 0
  else with_profit_taxes 0 0.

(** The summary: the accumulator and the time of generation. *)
Record Resumo : Type := mkResumo {
  resumo_accum : Accum;
  generated_at : string
}.

(** What a completed run hands to the output: the summary and the four
    pivot tables. *)
Record Output : Type := mkOutput {
  resumo : Resumo;
  pivot_mes : list (string * Q);
  pivot_uf_emit : list (string * Q);
  pivot_cfop : list (string * Q);
  pivot_ncm : list (string * Q)
}.

Definition initial_state (ni : NotasIndex) : State :=
  {| notas_index := ni;
     accum := mkAccum 0 0 0 0 0 0 0 0;
     faturamento_por_mes := [];
     faturamento_por_uf_emit := [];
     faturamento_por_cfop := [];
     faturamento_por_ncm := [] |}.

(** Everything of [process_from_postgres] before the files are written.
    [now] is the clock reading used for [generated_at]. *)
Definition apuracao (cfg : Config) (now : string) (notas : Table)
    (itens : list Table) : outcome Output :=
  ni <- load_notas notas ;;
  st <- process_chunks cfg (initial_state ni) itens ;;
  let a := estimate_irpj_csll cfg (accum st) in
  Ok {| resumo := {| resumo_accum := a; generated_at := now |};
        pivot_mes := sorted_items (faturamento_por_mes st);
        pivot_uf_emit := sorted_items (faturamento_por_uf_emit st);
        pivot_cfop := sorted_items (faturamento_por_cfop st);
        pivot_ncm := sorted_items (faturamento_por_ncm st) |}.

(** The contents of an output file. *)
Inductive file : Type :=
| ResumoJson (r : Resumo)
| ResumoCsv (r : Resumo)
| PivotCsv (header : string * string) (table : list (string * Q)).

(** The files under the output directory, by path. *)
Definition files : Type := list (string * file).

Definition write (path : string) (f : file) (fs : files) : files :=
  (filter (fun p : string * file => negb (String.eqb (fst p) path)) fs
   ++ [(path, f)])%list.

Definition path_join (dir name : string) : string := dir ++ "/" ++ name.

(** [process_from_postgres]: the six files are written once the whole
    stream has been aggregated. *)
Definition process_from_postgres (cfg : Config) (now : string) (notas : Table)
    (itens : list Table) (outdir : string) (fs : files) : outcome Output * files :=
  match apuracao cfg now notas itens with
  | Fatal msg => (Fatal msg, fs)
  | Ok out =>
      let fs := write (path_join outdir "resumo_apuracao.json") (ResumoJson (resumo out)) fs in
      let fs := write (path_join outdir "resumo_apuracao.csv") (ResumoCsv (resumo out)) fs in
      let fs := write (path_join outdir "faturamento_por_mes.csv")
                      (PivotCsv ("mes_ano", "faturamento") (pivot_mes out)) fs in
      let fs := write (path_join outdir "faturamento_por_uf_emitente.csv")
                      (PivotCsv ("uf_emit", "faturamento") (pivot_uf_emit out)) fs in
      let fs := write (path_join outdir "faturamento_por_cfop.csv")
                      (PivotCsv ("cfop", "faturamento") (pivot_cfop out)) fs in
      let fs := write (path_join outdir "faturamento_por_ncm.csv")
                      (PivotCsv ("ncm", "faturamento") (pivot_ncm out)) fs in
      (Ok out, fs)
  end.

(** ** Notions used by the statements *)

Definition summary (o : Output) : Accum := resumo_accum (resumo o).

(** The key column of the invoices, as the set-up resolves it. *)
Definition notas_chave_col (notas : Table) : option string :=
  resolve_chave (columns (normalized notas)).

(** The amount column of the invoices, resolved once the key column has
    been renamed. *)
Definition notas_valor_col (notas : Table) : option string :=
  match notas_chave_col notas with
  | Some c => resolve_valor_notas (columns (rename c "chave_acesso" (normalized notas)))
  | None => None
  end.

(** The keys of the invoices: the index built by the set-up. *)
Definition parent_keys (notas : Table) : list cell :=
  match load_notas notas with
  | Ok ni => ni_index ni
  | Fatal _ => []
  end.

(** A batch is processed when its key column resolves, skipped otherwise. *)
Definition processed (t : Table) : bool :=
  truthy (resolve_item_chave (columns (normalized t))).

Definition skipped_batches (itens : list Table) : nat :=
  length (filter (fun t => negb (processed t)) itens).

(** The frame of a processed batch with its column [valor_total_item], as
    it stands before the join. *)
Definition with_item_amounts (t : Table) : outcome DataFrame :=
  match resolve_item_chave (columns (normalized t)) with
  | Some c => item_amounts (rename c "chave_acesso" (normalized t))
  | None => Fatal "chave"
  end.

(** The parsed amounts of the items of a batch; none for a skipped batch. *)
Definition parsed_item_amounts (t : Table) : list (option Q) :=
  if processed t then
    match with_item_amounts t with
    | Ok chunk =>
        match getitem "valor_total_item" chunk with
        | Some (SFloat d) => d
        | _ => []
        end
    | Fatal _ => []
    end
  else [].

(** The same settings under another regime. *)
Definition with_regime (r : string) (cfg : Config) : Config :=
  {| ALIQ_ICMS_DEFAULT := ALIQ_ICMS_DEFAULT cfg;
     ALIQ_ISS_DEFAULT := ALIQ_ISS_DEFAULT cfg;
     ALIQ_PIS_CUM := ALIQ_PIS_CUM cfg;
     ALIQ_COFINS_CUM := ALIQ_COFINS_CUM cfg;
     ENQUADRAMENTO := r;
     PRESUNCAO := PRESUNCAO cfg;
     ALIQUOTA_IRPJ := ALIQUOTA_IRPJ cfg;
     ALIQUOTA_CSLL := ALIQUOTA_CSLL cfg;
     ESTIMATED_MARGIN := ESTIMATED_MARGIN cfg |}.

(** The first column, in column order, whose normalised name contains
    [k]. *)
Definition first_containing (k : string) (cols : list string) : option string :=
  find (fun c => contains k (normalize_colname c)) cols.

(** The amount column of a batch in the words of the code's comment: the
    item's [valor_total], or an equivalent. *)
Definition item_val_by_priority (cols : list string) : option string :=
  match first_containing "valor_total" cols with
  | Some c => Some c
  | None =>
      match first_containing "valor_item" cols with
      | Some c => Some c
      | None => first_containing "valor" cols
      end
  end.



(** The number of entries of a column. *)
Definition series_len (s : series) : nat :=
  match s with
  | SText d => length d
  | SFloat d => length d
  | STime d => length d
  end.

(** Every column of a frame has one entry per row. *)
Definition aligned (df : DataFrame) : Prop :=
  Forall (fun p : string * series => series_len (snd p) = df_len df) (df_cols df).

(** The columns of a frame under a label. *)
Definition labelled (c : string) (df : DataFrame) : list (string * series) :=
  filter (fun p : string * series => String.eqb (fst p) c) (df_cols df).

(** A float column without missing values. *)
Definition no_nan (d : list (option Q)) : Prop :=
  Forall (fun o : option Q => o <> None) d.

(** [str(k)] of a key: the text itself, or ["None"] for NULL. *)
Definition key_text (k : cell) : string :=
  match k with
  | Some s => s
  | None => "None"
  end.

(** No key of the invoices is repeated in the frame that the batches are
    joined with. *)
Definition distinct_keys (ni : NotasIndex) : Prop :=
  forall rkey, getitem "chave_acesso" (ni_df ni) = Some (SText rkey) -> NoDup rkey.

(** Row [i] of a batch with the keys [lkey] is paired with row [j] of the
    invoices by position: the text of its key is [str(j)]. *)
Definition paired_by_position (ni : NotasIndex) (lkey : list cell) (i j : nat) : Prop :=
  (j < df_len (ni_df ni))%nat
  /\ exists k, nth_error lkey i = Some k /\ key_text k = str_nat j.

(** Row [i] of a batch is paired with row [j] of the invoices by key: the
    two rows have the same [chave_acesso]. *)
Definition paired_by_key (ni : NotasIndex) (lkey : list cell) (i j : nat) : Prop :=
  exists k rkey,
    nth_error lkey i = Some k
    /\ getitem "chave_acesso" (ni_df ni) = Some (SText rkey)
    /\ nth_error rkey j = Some k.



(** ** Notions used by the further properties *)


(** The normalised name of a column contains every keyword, or at least
    one. *)
Definition contains_all (keywords : list string) (c : string) : bool :=
  forallb (fun k => contains k (normalize_colname c)) keywords.

Definition contains_any (keywords : list string) (c : string) : bool :=
  existsb (fun k => contains k (normalize_colname c)) keywords.

(** Every character of a string is in a class. *)
Fixpoint all_chars (p : ascii -> bool) (s : string) : bool :=
  match s with
  | EmptyString => true
  | String x r => p x && all_chars p r
  end.

(** A character occurs in a string. *)
Fixpoint has_char (c : ascii) (s : string) : bool :=
  match s with
  | EmptyString => false
  | String x r => Ascii.eqb c x || has_char c r
  end.

Definition digit_or_point (x : ascii) : bool := is_digit x || Ascii.eqb x ".".

(** The number written by the digits [ip], a decimal point and the digits
    [fp]. *)
Definition decimal_value (ip fp : string) : Q :=
  scale10 (digits_value 0 (ip ++ fp)) (- Z.of_nat (String.length fp)).

(** The parser on the cleaned text [s_clean]: the part of
    [parse_valor_brasileiro] after the [re.sub] that keeps the numeric
    characters. *)
Definition parse_clean (s_clean : string) : branch * Q :=
  let s2 := replace1 "," "." (replace1 "." "" s_clean) in
  let fallback :=
    match findall_digits s_clean with
    | [] => (BNoDigits, 0)
    | digits => try_float BDigits (String.concat "" digits) (BNoDigits, 0)
    end in
  let direct := try_float BDirect s_clean fallback in
  let thousands :=
    if contains "." s_clean && contains "," s_clean
    then try_float BThousands s2 direct
    else direct in
  if contains "," s_clean && negb (contains "." s_clean)
  then try_float BComma s2 thousands
  else thousands.

(** The number of item rows of the processed batches. *)
Definition processed_rows (itens : list Table) : nat :=
  list_sum (map (fun t => if processed t then length (t_rows t) else 0%nat) itens).

(** The file at a path, if there is one. *)
Definition read_file (path : string) (fs : files) : option file :=
  option_map snd (find (fun p : string * file => String.eqb (fst p) path) fs).

(** The names of the six files of a completed run. *)
Definition output_names : list string :=
  ["resumo_apuracao.json"; "resumo_apuracao.csv"; "faturamento_por_mes.csv";
   "faturamento_por_uf_emitente.csv"; "faturamento_por_cfop.csv";
   "faturamento_por_ncm.csv"].

(** The same settings with another presumption rate, or another estimated
    margin. *)
Definition with_presuncao (p : Q) (cfg : Config) : Config :=
  {| ALIQ_ICMS_DEFAULT := ALIQ_ICMS_DEFAULT cfg;
     ALIQ_ISS_DEFAULT := ALIQ_ISS_DEFAULT cfg;
     ALIQ_PIS_CUM := ALIQ_PIS_CUM cfg;
     ALIQ_COFINS_CUM := ALIQ_COFINS_CUM cfg;
     ENQUADRAMENTO := ENQUADRAMENTO cfg;
     PRESUNCAO := p;
     ALIQUOTA_IRPJ := ALIQUOTA_IRPJ cfg;
     ALIQUOTA_CSLL := ALIQUOTA_CSLL cfg;
     ESTIMATED_MARGIN := ESTIMATED_MARGIN cfg |}.

(** [executar_apuracao_e_agent] of [app_gradio.py], its assignments to the
    settings of the module [apuracao]: the four proportional rates, the two
    rates of the profit taxes, the presumption rate and the regime.  The
    estimated margin is not among them. *)
Definition executar_assign
    (aliq_icms aliq_iss aliq_pis aliq_cofins aliq_irpj aliq_csll presuncao : Q)
    (enquadramento : string) (ap : Config) : Config :=
  {| ALIQ_ICMS_DEFAULT := aliq_icms;
     ALIQ_ISS_DEFAULT := aliq_iss;
     ALIQ_PIS_CUM := aliq_pis;
     ALIQ_COFINS_CUM := aliq_cofins;
     ENQUADRAMENTO := enquadramento;
     PRESUNCAO := presuncao;
     ALIQUOTA_IRPJ := aliq_irpj;
     ALIQUOTA_CSLL := aliq_csll;
     ESTIMATED_MARGIN := ESTIMATED_MARGIN ap |}.

(** [os.path.exists(path) and os.path.getsize(path) > 0]: every file that a
    run writes has content. *)
Definition exists_nonempty (path : string) (fs : files) : bool :=
  match read_file path fs with
  | Some _ => true
  | None => false
  end.

(** The loop of [esperar_arquivo], with [tentativas] looks left after
    [slept] sleeps. *)
Fixpoint esperar_loop (fs_at : nat -> files) (path : string)
    (tentativas : nat) (slept : nat) : bool * nat :=
  match tentativas with
  | O => (false, slept)
  | S n =>
      if exists_nonempty path (fs_at slept) then (true, slept)
      else esperar_loop fs_at path n (S slept)
  end.

(** [esperar_arquivo] of [app_gradio.py]: up to [tentativas] looks at the
    path, with a sleep after each look that does not find the file.
    [fs_at i] are the files at the look that follows [i] sleeps; the result
    comes with the number of sleeps. *)
Definition esperar_arquivo (fs_at : nat -> files) (path : string)
    (tentativas : nat) : bool * nat :=
  esperar_loop fs_at path tentativas 0.

(** The order of the rows of a pivot table: by label, as text. *)
Definition label_le (p q : string * Q) : Prop := String.leb (fst p) (fst q) = true.

Definition label_lt (p q : string * Q) : Prop := String.ltb (fst p) (fst q) = true.

(** *** Normal form of the column names *)

(** A byte of a code point outside ASCII. *)
Definition high (x : ascii) : bool := (128 <=? code x)%nat.

(** The lead byte of the two-byte letters, followed by a byte of the class
    [q]. *)
Definition lead_pair (q : ascii -> bool) (x y : ascii) : bool :=
  Ascii.eqb x (byte 195) && q y.

Definition admits (f : ascii -> ascii -> bool) (prev : option ascii) (x : ascii)
  : bool :=
  match prev with
  | Some p => negb (f p x)
  | None => true
  end.

(** No two neighbours of a string, nor [prev] and its first character, are
    in the relation [f]. *)
Fixpoint free_from (f : ascii -> ascii -> bool) (prev : option ascii) (s : string)
  : bool :=
  match s with
  | EmptyString => true
  | String x r => admits f prev x && free_from f (Some x) r
  end.

(** The second byte of a capital letter of Latin-1. *)
Definition capital_second (y : ascii) : bool :=
  in_range 128 158 y && negb (Ascii.eqb y (byte 151)).

(** The accented letters that [normalize_colname] replaces, by the second
    byte of their UTF-8 form, each with its base letter. *)
Definition accents : list (nat * string) :=
  [(161, "a"); (160, "a"); (163, "a"); (162, "a"); (169, "e"); (170, "e");
   (173, "i"); (179, "o"); (180, "o"); (181, "o"); (186, "u"); (167, "c")]%nat.

(** The entries of the table: the second byte of a letter outside ASCII,
    and a lower-case letter of ASCII. *)
Definition accent_entry (bl : nat * string) : Prop :=
  high (byte (fst bl)) = true
  /\ exists l, snd bl = String l EmptyString /\ is_lower l = true.

Definition replace_accents (s : string) : string :=
  fold_left (fun s bl => replace2 (byte 195) (byte (fst bl)) (snd bl) s) accents s.

Definition underscore (x : ascii) : bool := Ascii.eqb x "_".

Definition nonword (x : ascii) : bool := negb (is_word x).

(** Two neighbours of the class [p]. *)
Definition twice (p : ascii -> bool) (x y : ascii) : bool := p x && p y.

Definition starts_with (p : ascii -> bool) (s : string) : bool :=
  match s with
  | String x _ => p x
  | EmptyString => false
  end.

Fixpoint ends_with (p : ascii -> bool) (s : string) : bool :=
  match s with
  | EmptyString => false
  | String x EmptyString => p x
  | String _ r => ends_with p r
  end.

(** The shape of a normalised name: characters of words that are not
    capital letters of ASCII, no underscore at either end and no two
    underscores in a row. *)
Definition normal_name (s : string) : bool :=
  all_chars (fun x => is_word x && negb (is_upper x)) s
  && free_from (twice underscore) None s
  && negb (starts_with underscore s)
  && negb (ends_with underscore s).

(** What the stages of [normalize_colname] leave behind them. *)
Record canonical (s : string) : Prop := {
  no_upper : all_chars (fun x => negb (is_upper x)) s = true;
  no_capital : free_from (lead_pair capital_second) None s = true;
  no_accent : forall bl, In bl accents ->
    free_from (lead_pair (fun y => Ascii.eqb y (byte (fst bl)))) None s = true;
  all_word : all_chars is_word s = true;
  no_run : free_from (twice underscore) None s = true;
  no_first : starts_with underscore s = false;
  no_last : ends_with underscore s = false
}.

(** A name within ASCII. *)
Definition ascii_name (s : string) : bool := all_chars (fun x => negb (high x)) s.

(** A text within ASCII. *)
Definition ascii_text (s : string) : bool := all_chars (fun x => negb (high x)) s.

(** The second byte of a letter of Latin-1 from U+00C0 to U+00FF: every
    code point of that range but the multiplication and the division
    sign. *)
Definition latin_second (y : ascii) : bool :=
  in_range 128 191 y && negb (Ascii.eqb y (byte 151)) && negb (Ascii.eqb y (byte 183)).

(** A name in ASCII and the letters of Latin-1, in UTF-8: on such names
    [strip], [lower] and the class [\w] of Python are what [strip], [lower]
    and [is_word] compute. *)
Fixpoint latin_name (s : string) : bool :=
  match s with
  | EmptyString => true
  | String x r =>
      if high x then
        Ascii.eqb x (byte 195)
        && match r with
           | String y r' => latin_second y && latin_name r'
           | EmptyString => false
           end
      else latin_name r
  end.

(** ** Sample data *)

(** The default settings of the module. *)
Definition default_config : Config :=
  {| ALIQ_ICMS_DEFAULT := 0.18;
     ALIQ_ISS_DEFAULT := 0.05;
     ALIQ_PIS_CUM := 0.0065;
     ALIQ_COFINS_CUM := 0.03;
     ENQUADRAMENTO := "lucro_presumido";
     PRESUNCAO := 0.08;
     ALIQUOTA_IRPJ := 0.15;
     ALIQUOTA_CSLL := 0.09;
     ESTIMATED_MARGIN := 0.10 |}.

(** A date parser that recognises nothing. *)
Definition no_dates (dayfirst : bool) (column : list cell) (x : cell) : option unit :=
  None.

Definition unit_period (t : unit) : string := "0001-01".

(** One invoice, with its state of issue. *)
Definition notas_one : Table :=
  mkTable ["Chave de Acesso"; "Valor Total"; "UF Emitente"]
          [[Some "A1"; Some "1.500,50"; Some "SP"]].

(** Two invoices under the same key. *)
Definition notas_repeated : Table :=
  mkTable ["chave_acesso"; "valor_total"]
          [[Some "A1"; Some "10,00"]; [Some "A1"; Some "20,00"]].

(** A table of invoices without a key column. *)
Definition notas_keyless : Table :=
  mkTable ["numero"; "valor_total"] [[Some "1"; Some "10,00"]].

Definition batch_a : Table :=
  mkTable ["chave_acesso"; "valor_total"] [[Some "A1"; Some "1.000,00"]].

Definition batch_b : Table :=
  mkTable ["chave_acesso"; "valor_total"] [[Some "A1"; Some "500,50"]].

(** A batch without a key column. *)
Definition batch_keyless : Table :=
  mkTable ["numero_item"; "valor_total"] [[Some "1"; Some "99,00"]].


(** A batch with a CFOP column, NULL in its row. *)
Definition batch_null_cfop : Table :=
  mkTable ["chave_acesso"; "valor_total"; "cfop"] [[Some "A1"; Some "10,00"; None]].

(** A batch of two items, with the CFOP [6102] before the CFOP [5102]. *)
Definition batch_two_cfop : Table :=
  mkTable ["chave_acesso"; "valor_total"; "cfop"]
          [[Some "A1"; Some "10,00"; Some "6102"];
           [Some "A1"; Some "5,00"; Some "5102"]].



(** The label [Descri\195\167\195\163o do Item], with a c-cedilla and an
    a-tilde in UTF-8. *)
Definition descricao_do_item : string :=
  "Descri" ++ String (byte 195) (String (byte 167) (String (byte 195)
    (String (byte 163) "o do Item"))).

(** ** Column resolution *)

Lemma Ok_inj (A : Type) (a b : A) : Ok a = Ok b -> a = b.
Proof.
  intros H.
  exact (f_equal (fun o : outcome A => match o with Ok x => x | Fatal _ => a end) H).
Qed.

Lemma bind_Ok (A B : Type) (m : outcome A) (k : A -> outcome B) (b : B) :
  bind m k = Ok b -> exists a, m = Ok a /\ k a = Ok b.
Proof. destruct m as [msg|a]; [discriminate|]. intros H. now exists a. Qed.

Lemma find_combine_map (A B : Type) (f : A -> B) (P : B -> bool) (l : list A) :
  find (fun p : A * B => P (snd p)) (combine l (map f l))
  = option_map (fun a => (a, f a)) (find (fun a => P (f a)) l).
Proof.
  induction l as [|a l IH]; simpl; [reflexivity|].
  destruct (P (f a)); [reflexivity|exact IH].
Qed.

Lemma find_pointwise (A : Type) (P R : A -> bool) (l : list A) :
  (forall a, P a = R a) -> find P l = find R l.
Proof.
  intros H. induction l as [|a l IH]; simpl; [reflexivity|].
  rewrite H, IH. reflexivity.
Qed.

(** With one keyword both passes look for the same thing. *)
Lemma find_best_column_single (cols : list string) (k : string) :
  find_best_column cols [k] = first_containing k cols.
Proof.
  unfold find_best_column, first_containing.
  rewrite (find_combine_map _ _ normalize_colname
             (fun x => forallb (fun k0 => contains k0 x) [k])).
  rewrite (find_combine_map _ _ normalize_colname
             (fun x => existsb (fun k0 => contains k0 x) [k])).
  cbn [forallb existsb].
  change (fun a : string => contains k (normalize_colname a) || false)
    with (fun a : string => contains k (normalize_colname a) && true).
  assert (F : forall l : list string,
             find (fun a => contains k (normalize_colname a) && true) l
             = find (fun a => contains k (normalize_colname a)) l).
  { intros l. apply find_pointwise. intros a. now rewrite andb_true_r. }
  rewrite F.
  destruct (find (fun a => contains k (normalize_colname a)) cols); reflexivity.
Qed.

Lemma first_containing_some (k : string) (cols : list string) (c : string) :
  first_containing k cols = Some c ->
  In c cols /\ contains k (normalize_colname c) = true.
Proof. intros H. apply find_some in H. exact H. Qed.

Lemma first_containing_none (k : string) (cols : list string) (c : string) :
  first_containing k cols = None -> In c cols ->
  contains k (normalize_colname c) = false.
Proof. intros H Hc. exact (find_none _ _ H c Hc). Qed.

(** A column found for a keyword that the empty name does not contain has a
    name, so it counts as true in [a or b] and in [if a]. *)
Lemma truthy_first_containing (k : string) (cols : list string) :
  contains k EmptyString = false ->
  truthy (first_containing k cols)
  = match first_containing k cols with Some _ => true | None => false end.
Proof.
  intros Hk. destruct (first_containing k cols) as [c|] eqn:E; [|reflexivity].
  apply first_containing_some in E. destruct E as [_ E].
  destruct c; [|reflexivity].
  change (normalize_colname EmptyString) with EmptyString in E. congruence.
Qed.

Lemma py_or_first_containing (k : string) (cols : list string) (b : option string) :
  contains k EmptyString = false ->
  py_or (first_containing k cols) b
  = match first_containing k cols with Some c => Some c | None => b end.
Proof.
  intros Hk. unfold py_or. rewrite (truthy_first_containing k cols Hk).
  destruct (first_containing k cols); reflexivity.
Qed.

Lemma resolve_item_val_priority (cols : list string) :
  resolve_item_val cols = item_val_by_priority cols.
Proof.
  unfold resolve_item_val, item_val_by_priority.
  rewrite !find_best_column_single.
  rewrite (py_or_first_containing "valor_total") by reflexivity.
  destruct (first_containing "valor_total" cols) as [c|] eqn:E1.
  - rewrite <- E1, (py_or_first_containing "valor_total"), E1 by reflexivity.
    reflexivity.
  - rewrite (py_or_first_containing "valor_item") by reflexivity.
    reflexivity.
Qed.

Lemma truthy_resolve_item_val (cols : list string) :
  truthy (resolve_item_val cols)
  = match resolve_item_val cols with Some _ => true | None => false end.
Proof.
  rewrite resolve_item_val_priority. unfold item_val_by_priority.
  destruct (first_containing "valor_total" cols) as [c|] eqn:E1.
  - rewrite <- E1, truthy_first_containing, E1 by reflexivity. reflexivity.
  - destruct (first_containing "valor_item" cols) as [c|] eqn:E2.
    + rewrite <- E2, truthy_first_containing, E2 by reflexivity. reflexivity.
    + now apply truthy_first_containing.
Qed.

(** A column named [valor_unitario] resolves as an amount column: the branch
    that multiplies unit price and quantity is never taken. *)
Lemma valor_unitario_resolves (cols : list string) :
  resolve_item_val cols = None ->
  existsb (String.eqb "valor_unitario") cols = false.
Proof.
  rewrite resolve_item_val_priority. unfold item_val_by_priority.
  destruct (first_containing "valor_total" cols); [discriminate|].
  destruct (first_containing "valor_item" cols); [discriminate|].
  intros H. destruct (existsb (String.eqb "valor_unitario") cols) eqn:E; [|reflexivity].
  apply existsb_exists in E. destruct E as [c [Hc E]].
  apply String.eqb_eq in E. subst c.
  apply (first_containing_none _ _ _ H) in Hc. vm_compute in Hc. discriminate.
Qed.

(** ** Frames: labels and columns *)

Lemma getitem_labelled (c : string) (df : DataFrame) :
  getitem c df = match labelled c df with [p] => Some (snd p) | _ => None end.
Proof. reflexivity. Qed.

Lemma has_column_labelled (c : string) (df : DataFrame) :
  has_column c df = match labelled c df with [] => false | _ => true end.
Proof.
  unfold has_column, columns, labelled.
  induction (df_cols df) as [|p l IH]; simpl; [reflexivity|].
  rewrite (String.eqb_sym c (fst p)).
  destruct (String.eqb (fst p) c); simpl; [reflexivity|exact IH].
Qed.

Lemma getitem_has_column (c : string) (df : DataFrame) (s : series) :
  getitem c df = Some s -> has_column c df = true.
Proof.
  rewrite getitem_labelled, has_column_labelled.
  destruct (labelled c df); [discriminate|reflexivity].
Qed.

Lemma labelled_rename_other (c old new : string) (df : DataFrame) :
  old <> c -> new <> c -> labelled c (rename old new df) = labelled c df.
Proof.
  intros Ho Hn. unfold labelled, rename, rename_with. simpl.
  induction (df_cols df) as [|p l IH]; simpl; [reflexivity|].
  destruct (String.eqb (fst p) old) eqn:E.
  - apply String.eqb_eq in E.
    assert (E1 : String.eqb new c = false) by now apply String.eqb_neq.
    assert (E2 : String.eqb (fst p) c = false) by (apply String.eqb_neq; congruence).
    rewrite E1, E2. exact IH.
  - destruct (String.eqb (fst p) c); [|exact IH].
    f_equal; [now destruct p|exact IH].
Qed.

Lemma getitem_rename_other (c old new : string) (df : DataFrame) :
  old <> c -> new <> c -> getitem c (rename old new df) = getitem c df.
Proof. intros Ho Hn. now rewrite !getitem_labelled, labelled_rename_other. Qed.

Lemma labelled_setitem_other (c c' : string) (s : series) (df : DataFrame) :
  c' <> c -> labelled c (setitem c' s df) = labelled c df.
Proof.
  intros Hc. unfold labelled, setitem. simpl.
  assert (E : String.eqb c' c = false) by now apply String.eqb_neq.
  destruct (has_column c' df).
  - induction (df_cols df) as [|p l IH]; simpl; [reflexivity|].
    destruct (String.eqb (fst p) c') eqn:E1; simpl.
    + apply String.eqb_eq in E1. rewrite E1, E. exact IH.
    + destruct (String.eqb (fst p) c); [f_equal|]; exact IH.
  - rewrite filter_app. simpl. rewrite E. apply app_nil_r.
Qed.

Lemma getitem_setitem_other (c c' : string) (s : series) (df : DataFrame) :
  c' <> c -> getitem c (setitem c' s df) = getitem c df.
Proof. intros Hc. now rewrite !getitem_labelled, labelled_setitem_other. Qed.

Lemma filter_replaced (c : string) (s : series) (l : list (string * series)) :
  filter (fun p : string * series => String.eqb (fst p) c)
         (map (fun p : string * series =>
                 if String.eqb (fst p) c then (fst p, s) else p) l)
  = map (fun p : string * series => (fst p, s))
        (filter (fun p : string * series => String.eqb (fst p) c) l).
Proof.
  induction l as [|p l IH]; simpl; [reflexivity|].
  destruct (String.eqb (fst p) c) eqn:E; simpl; rewrite E; simpl.
  - f_equal. exact IH.
  - exact IH.
Qed.

Lemma labelled_setitem_same (c : string) (s : series) (df : DataFrame) :
  labelled c (setitem c s df)
  = match labelled c df with
    | [] => [(c, s)]
    | l => map (fun p : string * series => (fst p, s)) l
    end.
Proof.
  unfold setitem. rewrite has_column_labelled. unfold labelled. simpl.
  destruct (filter (fun p : string * series => String.eqb (fst p) c) (df_cols df))
    as [|q l] eqn:E.
  - rewrite filter_app, E. simpl. now rewrite String.eqb_refl.
  - rewrite filter_replaced, E. reflexivity.
Qed.

Lemma getitem_setitem_same (c : string) (s s0 : series) (df : DataFrame) :
  getitem c df = Some s0 -> getitem c (setitem c s df) = Some s.
Proof.
  rewrite !getitem_labelled, labelled_setitem_same.
  destruct (labelled c df) as [|p [|q l]]; try discriminate. reflexivity.
Qed.



(** ** Frames: alignment of the columns *)

Lemma aligned_getitem (c : string) (df : DataFrame) (s : series) :
  aligned df -> getitem c df = Some s -> series_len s = df_len df.
Proof.
  unfold aligned. rewrite getitem_labelled. intros Hw H.
  destruct (labelled c df) as [|p [|q l]] eqn:E; try discriminate.
  injection H as <-.
  assert (Hin : In p (labelled c df)) by (rewrite E; now left).
  apply filter_In in Hin. rewrite Forall_forall in Hw. now apply Hw.
Qed.

Lemma aligned_read_sql (t : Table) : aligned (read_sql t).
Proof.
  unfold aligned, read_sql. simpl. apply Forall_forall. intros p Hp.
  apply in_map_iff in Hp. destruct Hp as [ic [<- _]]. simpl. apply length_map.
Qed.

Lemma aligned_rename_with (f : string -> string) (df : DataFrame) :
  aligned df -> aligned (rename_with f df).
Proof.
  unfold aligned, rename_with. simpl. rewrite !Forall_forall. intros H p Hp.
  apply in_map_iff in Hp. destruct Hp as [q [<- Hq]]. simpl. now apply H.
Qed.

Lemma aligned_setitem (c : string) (s : series) (df : DataFrame) :
  aligned df -> series_len s = df_len df -> aligned (setitem c s df).
Proof.
  unfold aligned, setitem. simpl. rewrite !Forall_forall. intros H Hs p Hp.
  destruct (has_column c df).
  - apply in_map_iff in Hp. destruct Hp as [q [<- Hq]].
    destruct (String.eqb (fst q) c); simpl; [exact Hs|now apply H].
  - apply in_app_or in Hp. destruct Hp as [Hp|[<-|[]]]; [now apply H|exact Hs].
Qed.

Lemma aligned_normalized (t : Table) : aligned (normalized t).
Proof. apply aligned_rename_with, aligned_read_sql. Qed.

Lemma apply_parse_float (s s' : series) :
  apply_parse s = Ok s' ->
  exists d, s' = SFloat d /\ no_nan d /\ length d = series_len s.
Proof.
  destruct s as [d|d|d]; simpl; intros H; [| |discriminate];
    injection H as <-; eexists; (split; [reflexivity|]); split;
    try apply length_map;
    apply Forall_forall; intros o Ho; apply in_map_iff in Ho;
    destruct Ho as [x [<- _]]; discriminate.
Qed.

(** ** The left join *)

Lemma cell_eqb_eq (a b : cell) : cell_eqb a b = true <-> a = b.
Proof.
  destruct a as [x|], b as [y|]; simpl; split; intros H;
    try discriminate; try reflexivity.
  - apply String.eqb_eq in H. now subst.
  - injection H as ->. apply String.eqb_refl.
Qed.

Lemma map_fst_enumerate (A : Type) (l : list A) :
  map fst (enumerate l) = seq 0 (length l).
Proof.
  unfold enumerate. generalize 0%nat.
  induction l as [|a l IH]; simpl; intros s; [reflexivity|].
  f_equal. apply IH.
Qed.

(** Among distinct keys at most one equals a given key. *)
Lemma matches_NoDup_from (s : nat) (k : cell) (rkeys : list cell) :
  NoDup rkeys ->
  (length (filter (fun jk : nat * cell => cell_eqb k (snd jk))
                  (combine (seq s (length rkeys)) rkeys)) <= 1)%nat.
Proof.
  revert s.
  induction rkeys as [|x r IH]; simpl; intros s Hnd; [lia|].
  inversion Hnd as [|? ? Hx Hr]; subst.
  destruct (cell_eqb k x) eqn:E; simpl; [|now apply IH].
  apply cell_eqb_eq in E. subst x.
  assert (Hnone : forall s', filter (fun jk : nat * cell => cell_eqb k (snd jk))
                                    (combine (seq s' (length r)) r) = []).
  { clear IH Hnd Hr. induction r as [|y r IHr]; simpl; intros s'; [reflexivity|].
    destruct (cell_eqb k y) eqn:Ey.
    - apply cell_eqb_eq in Ey. subst y. exfalso. apply Hx. now left.
    - apply IHr. intros Hin. apply Hx. now right. }
  rewrite Hnone. simpl. lia.
Qed.

Lemma matches_NoDup (k : cell) (rkeys : list cell) :
  NoDup rkeys ->
  (length (filter (fun jk : nat * cell => cell_eqb k (snd jk)) (enumerate rkeys)) <= 1)%nat.
Proof. apply matches_NoDup_from. Qed.

Lemma map_fst_flat_map (A B C : Type) (g : A * B -> list (A * C))
    (l : list (A * B)) :
  (forall ik, map fst (g ik) = [fst ik]) ->
  map fst (flat_map g l) = map fst l.
Proof.
  intros Hg. induction l as [|ik l IH]; simpl; [reflexivity|].
  now rewrite map_app, Hg, IH.
Qed.

(** When no key of the right side is repeated, the join has exactly the
    rows of the left side, in order. *)
Lemma left_join_rows (lkeys rkeys : list cell) :
  NoDup rkeys -> map fst (left_join lkeys rkeys) = seq 0 (length lkeys).
Proof.
  intros Hnd. rewrite <- map_fst_enumerate. unfold left_join.
  apply map_fst_flat_map. intros ik.
  pose proof (matches_NoDup (snd ik) rkeys Hnd) as Hm.
  destruct (filter (fun jk : nat * cell => cell_eqb (snd ik) (snd jk)) (enumerate rkeys))
    as [|m [|m' ms]]; simpl in *; [reflexivity|reflexivity|lia].
Qed.

Lemma to_uint_not_nil (n : nat) : Nat.to_uint n <> Decimal.Nil.
Proof.
  intros H. assert (E : n = 0%nat).
  { rewrite <- (DecimalNat.Unsigned.of_to n), H. reflexivity. }
  subst n. discriminate H.
Qed.

Lemma str_nat_inj (i j : nat) : str_nat i = str_nat j -> i = j.
Proof.
  unfold str_nat. intros H.
  apply (f_equal NilZero.uint_of_string) in H.
  rewrite !NilZero.usu in H by apply to_uint_not_nil.
  injection H as H. now apply DecimalNat.Unsigned.to_uint_inj.
Qed.

(** The row positions, as text, are distinct. *)
Lemma positions_NoDup (n : nat) :
  NoDup (map (fun i => Some (str_nat i)) (seq 0 n)).
Proof.
  apply Finite.Injective_map_NoDup; [|apply seq_NoDup].
  intros i j H. injection H as H. now apply str_nat_inj.
Qed.

(** Re-indexing a column by all its positions gives the column back. *)
Lemma take_all (A : Type) (d : list (option A)) :
  map (fun o : option nat => match o with Some i => nth i d None | None => None end)
      (map Some (seq 0 (length d))) = d.
Proof.
  rewrite map_map.
  apply (nth_ext _ _ None None).
  - now rewrite length_map, length_seq.
  - intros n Hn. rewrite length_map, length_seq in Hn.
    rewrite (nth_indep _ None (nth 0 d None)) by now rewrite length_map, length_seq.
    rewrite (map_nth (fun i => nth i d None) (seq 0 (length d)) 0%nat n).
    now rewrite seq_nth.
Qed.

(** ** Sums *)

Lemma sum_skipna_acc (d : list (option Q)) (a : Q) :
  fold_left (fun s o => match o with Some v => s + v | None => s end) d a
  == a + sum_skipna d.
Proof.
  unfold sum_skipna. revert a.
  induction d as [|o d IH]; simpl; intros a; [ring|].
  destruct o as [v|].
  - rewrite (IH (a + v)), (IH (0 + v)). ring.
  - apply IH.
Qed.

Lemma sum_skipna_app (d e : list (option Q)) :
  sum_skipna (d ++ e) == sum_skipna d + sum_skipna e.
Proof.
  unfold sum_skipna at 1. rewrite fold_left_app. apply sum_skipna_acc.
Qed.

(** ** The amount column through the steps of a batch *)

Lemma rename_is_rename_with (old new : string) (df : DataFrame) :
  rename old new df = rename_with (fun c => if String.eqb c old then new else c) df.
Proof. reflexivity. Qed.

(** The last three statements of the amount step. *)
Lemma parse_item_column (chunk chunk1 : DataFrame) :
  aligned chunk ->
  (valor_total_item <- require "valor_total_item" (getitem "valor_total_item" chunk) ;;
   parsed <- apply_parse valor_total_item ;;
   Ok (setitem "valor_total_item" parsed chunk)) = Ok chunk1 ->
  aligned chunk1 /\ df_len chunk1 = df_len chunk /\
  (forall c, c <> "valor_total_item" -> getitem c chunk1 = getitem c chunk) /\
  exists d, getitem "valor_total_item" chunk1 = Some (SFloat d)
            /\ no_nan d /\ length d = df_len chunk.
Proof.
  intros Hw H.
  destruct (getitem "valor_total_item" chunk) as [v|] eqn:Ev; [|discriminate].
  simpl in H. destruct (apply_parse v) as [msg|parsed] eqn:Ep; [discriminate|].
  simpl in H. injection H as <-.
  apply apply_parse_float in Ep. destruct Ep as [d [-> [Hd Hl]]].
  rewrite (aligned_getitem _ _ _ Hw Ev) in Hl.
  split; [now apply aligned_setitem|].
  split; [reflexivity|].
  split; [intros c Hc; apply getitem_setitem_other; congruence|].
  exists d. split; [|now split].
  now apply (getitem_setitem_same _ _ v).
Qed.

Lemma item_amounts_column (chunk chunk1 : DataFrame) :
  aligned chunk -> item_amounts chunk = Ok chunk1 ->
  aligned chunk1 /\ df_len chunk1 = df_len chunk /\
  exists d, getitem "valor_total_item" chunk1 = Some (SFloat d)
            /\ no_nan d /\ length d = df_len chunk.
Proof.
  intros Hw H. unfold item_amounts in H.
  match type of H with bind ?m _ = _ => destruct m as [msg|chunkA] eqn:EA end;
    [discriminate|].
  cbn [bind] in H.
  assert (HA : aligned chunkA /\ df_len chunkA = df_len chunk).
  { rewrite truthy_resolve_item_val in EA.
    destruct (resolve_item_val (columns chunk)) as [c|] eqn:Er.
    - injection EA as <-. split; [|reflexivity].
      rewrite rename_is_rename_with. now apply aligned_rename_with.
    - apply valor_unitario_resolves in Er.
      change (existsb (String.eqb "valor_unitario") (columns chunk))
        with (has_column "valor_unitario" chunk) in Er.
      rewrite Er in EA. cbn [andb] in EA. injection EA as <-.
      split; [|reflexivity].
      apply aligned_setitem; [exact Hw|]. simpl. apply repeat_length. }
  destruct HA as [HwA HlA].
  apply (parse_item_column chunkA chunk1 HwA) in H.
  destruct H as [H1 [H2 [_ [d [H3 [H4 H5]]]]]].
  split; [exact H1|]. split; [congruence|].
  exists d. repeat split; congruence.
Qed.

Lemma not_suffixed (r : string) : r ++ "_nota" <> "valor_total_item".
Proof.
  intros H.
  do 17 (destruct r as [|? r]; simpl in H;
         [discriminate H|first [discriminate H|injection H as _ H]]).
Qed.

(** The join keeps the amount column of the batch, re-indexed by the rows
    of the join. *)
Lemma getitem_merge_left (on_column : bool) (left right : DataFrame)
    (pairs : list (nat * option nat)) (s : series) :
  getitem "valor_total_item" left = Some s ->
  getitem "valor_total_item" (merge_frames on_column left right pairs)
  = Some (series_take (map (fun ij : nat * option nat => Some (fst ij)) pairs) s).
Proof.
  intros H. pose proof (getitem_has_column _ _ _ H) as Hh.
  rewrite getitem_labelled in *. unfold labelled in *.
  unfold merge_frames. cbn [df_cols]. rewrite filter_app.
  set (rcols := if on_column then _ else _).
  assert (Hr : filter (fun p : string * series => String.eqb (fst p) "valor_total_item")
                 (map (fun p : string * series =>
                         ((if has_column (fst p) left then fst p ++ "_nota" else fst p),
                          series_take (map snd pairs) (snd p))) rcols) = []).
  { clearbody rcols. induction rcols as [|p l IH]; [reflexivity|].
    cbn [map filter fst]. rewrite IH.
    destruct (has_column (fst p) left) eqn:E.
    - assert (En : String.eqb (fst p ++ "_nota") "valor_total_item" = false)
        by (apply String.eqb_neq, not_suffixed).
      now rewrite En.
    - assert (En : String.eqb (fst p) "valor_total_item" = false).
      { apply String.eqb_neq. intros Hp. rewrite Hp in E. congruence. }
      now rewrite En. }
  rewrite Hr, app_nil_r. clear Hr.
  induction (df_cols left) as [|p l IH]; [discriminate|].
  cbn [map filter fst] in *.
  destruct (String.eqb (fst p) "valor_total_item").
  - destruct (filter (fun p0 : string * series => String.eqb (fst p0) "valor_total_item") l)
      as [|q l'] eqn:El; [|discriminate].
    injection H as <-.
    assert (E0 : forall f : string * series -> string * series,
               (forall q, fst (f q) = fst q) ->
               filter (fun p0 : string * series => String.eqb (fst p0) "valor_total_item")
                      (map f l) = []).
    { intros f Hf. clear IH. induction l as [|q l2 IH2]; [reflexivity|].
      cbn [map filter] in *. rewrite Hf.
      destruct (String.eqb (fst q) "valor_total_item"); [discriminate|].
      now apply IH2. }
    rewrite E0 by reflexivity. reflexivity.
  - now apply IH.
Qed.

Lemma get_text_getitem (msg c : string) (df : DataFrame) (d : list cell) :
  get_text msg c df = Ok d <-> getitem c df = Some (SText d).
Proof.
  unfold get_text. destruct (getitem c df) as [[x|x|x]|]; split; intros H;
    try discriminate; now injection H as ->.
Qed.

Lemma get_float_getitem (msg c : string) (df : DataFrame) (d : list (option Q)) :
  get_float msg c df = Ok d <-> getitem c df = Some (SFloat d).
Proof.
  unfold get_float. destruct (getitem c df) as [[x|x|x]|]; split; intros H;
    try discriminate; now injection H as ->.
Qed.

Lemma parse_dates_amount (chunk chunk' : DataFrame) :
  parse_dates chunk = Ok chunk' ->
  getitem "valor_total_item" chunk' = getitem "valor_total_item" chunk
  /\ df_len chunk' = df_len chunk.
Proof.
  unfold parse_dates. intros H.
  match type of H with bind ?m _ = _ => destruct m as [msg|parsed] end;
    [discriminate|].
  cbn [bind] in H. injection H as <-.
  split; [|reflexivity]. apply getitem_setitem_other. discriminate.
Qed.

Lemma dimension_column_amount (found : option string) (names : list string)
    (target : string) (chunk : DataFrame) :
  (forall c, found = Some c -> c <> "valor_total_item") ->
  target <> "valor_total_item" ->
  getitem "valor_total_item" (dimension_column found names target chunk)
  = getitem "valor_total_item" chunk
  /\ df_len (dimension_column found names target chunk) = df_len chunk.
Proof.
  intros Hf Ht. unfold dimension_column.
  set (chunk1 := match found with Some c => _ | None => chunk end).
  assert (H1 : getitem "valor_total_item" chunk1 = getitem "valor_total_item" chunk
               /\ df_len chunk1 = df_len chunk).
  { subst chunk1. destruct found as [c|]; [|now split].
    destruct (truthy (Some c) && negb (existsb (String.eqb c) names)); [|now split].
    split; [|reflexivity]. apply getitem_rename_other; [now apply Hf|exact Ht]. }
  destruct H1 as [H1 H2].
  destruct (negb (has_column target chunk1)); [|now split].
  split; [|exact H2]. now rewrite getitem_setitem_other.
Qed.

Lemma py_or_some (a b : option string) (c : string) :
  py_or a b = Some c -> a = Some c \/ b = Some c.
Proof. unfold py_or. destruct (truthy a); auto. Qed.

(** A column resolved for a keyword that [valor_total_item] does not
    contain is another column. *)
Lemma resolved_not_amount (cols : list string) (k c : string) :
  contains k (normalize_colname "valor_total_item") = false ->
  find_best_column cols [k] = Some c -> c <> "valor_total_item".
Proof.
  intros Hk H. rewrite find_best_column_single in H.
  apply first_containing_some in H. destruct H as [_ H]. congruence.
Qed.

Lemma dimension_columns_amount (chunk : DataFrame) :
  getitem "valor_total_item" (dimension_columns chunk)
  = getitem "valor_total_item" chunk
  /\ df_len (dimension_columns chunk) = df_len chunk.
Proof.
  unfold dimension_columns. cbv zeta.
  set (c1 := dimension_column _ _ "uf_emitente" chunk).
  set (c2 := dimension_column _ _ "cfop" c1).
  assert (H1 : getitem "valor_total_item" c1 = getitem "valor_total_item" chunk
               /\ df_len c1 = df_len chunk).
  { apply dimension_column_amount; [|discriminate].
    intros c Hc. apply py_or_some in Hc.
    destruct Hc as [Hc|Hc]; revert Hc; now apply resolved_not_amount. }
  assert (H2 : getitem "valor_total_item" c2 = getitem "valor_total_item" c1
               /\ df_len c2 = df_len c1).
  { apply dimension_column_amount; [|discriminate].
    intros c. now apply resolved_not_amount. }
  assert (H3 : getitem "valor_total_item"
                 (dimension_column (find_best_column (columns c2) ["ncm"]) ["ncm"] "ncm" c2)
               = getitem "valor_total_item" c2
               /\ df_len (dimension_column (find_best_column (columns c2) ["ncm"])
                                           ["ncm"] "ncm" c2) = df_len c2).
  { apply dimension_column_amount; [|discriminate].
    intros c. now apply resolved_not_amount. }
  destruct H1, H2, H3. split; congruence.
Qed.

Lemma month_column_amount (chunk chunk' : DataFrame) :
  month_column chunk = Ok chunk' ->
  getitem "valor_total_item" chunk' = getitem "valor_total_item" chunk.
Proof.
  unfold month_column. intros H.
  destruct (has_column "data_emissao_parsed" chunk).
  - destruct (getitem "data_emissao_parsed" chunk) as [[d|d|d]|]; try discriminate.
    injection H as <-. apply getitem_setitem_other. discriminate.
  - injection H as <-. apply getitem_setitem_other. discriminate.
Qed.

(** With distinct keys of the invoices the join neither drops nor repeats
    an item: the amount column is unchanged. *)
Lemma merge_notas_amount (ni ni' : NotasIndex) (chunk merged : DataFrame)
    (d : list (option Q)) :
  aligned chunk ->
  getitem "valor_total_item" chunk = Some (SFloat d) ->
  (forall rkey, getitem "chave_acesso" (ni_df ni) = Some (SText rkey) -> NoDup rkey) ->
  merge_notas ni chunk = Ok (ni', merged) ->
  getitem "valor_total_item" merged = Some (SFloat d)
  /\ ni_df ni' = ni_df ni.
Proof.
  intros Hw Hd Hu H. unfold merge_notas in H.
  pose proof (aligned_getitem _ _ _ Hw Hd) as Hlen. simpl in Hlen.
  destruct (index_named "chave_acesso" ni).
  - destruct (get_text "chave_acesso" "chave_acesso" chunk) as [msg|key] eqn:Ek;
      [discriminate|].
    cbn [bind] in H. apply get_text_getitem in Ek.
    rewrite (proj2 (get_text_getitem _ _ _ (astype_str key))) in H
      by now apply (getitem_setitem_same _ _ (SText key)).
    cbn [bind] in H. injection H as <- <-. split; [|reflexivity].
    rewrite (getitem_merge_left _ _ _ _ (SFloat d))
      by (rewrite getitem_setitem_other by discriminate; exact Hd).
    cbn [ni_index series_take]. do 2 f_equal.
    rewrite <- (map_map fst Some), left_join_rows by apply positions_NoDup.
    pose proof (aligned_getitem _ _ _ Hw Ek) as Hk. simpl in Hk.
    replace (length (astype_str key)) with (length d)
      by (unfold astype_str; rewrite length_map;
          transitivity (df_len chunk); [exact Hlen|symmetry; exact Hk]).
    apply take_all.
  - destruct (get_text "chave_acesso" "chave_acesso" chunk) as [msg|lkey] eqn:Ek;
      [discriminate|].
    cbn [bind] in H.
    destruct (get_text "chave_acesso" "chave_acesso" (ni_df ni)) as [msg|rkey] eqn:Er;
      [discriminate|].
    cbn [bind] in H. injection H as <- <-. split; [|reflexivity].
    apply get_text_getitem in Ek. apply get_text_getitem in Er.
    rewrite (getitem_merge_left _ _ _ _ (SFloat d)) by exact Hd.
    cbn [series_take]. do 2 f_equal.
    rewrite <- (map_map fst Some), left_join_rows by now apply Hu.
    pose proof (aligned_getitem _ _ _ Hw Ek) as Hk. simpl in Hk.
    replace (length lkey) with (length d)
      by (transitivity (df_len chunk); [exact Hlen|symmetry; exact Hk]).
    apply take_all.
Qed.

(** ** The accumulator over the batches *)

Lemma process_chunk_skipped (cfg : Config) (st : State) (t : Table) :
  processed t = false -> process_chunk cfg st t = Ok st.
Proof.
  unfold processed, process_chunk. intros H.
  destruct (resolve_item_chave (columns (normalized t))); [|reflexivity].
  now rewrite H.
Qed.

Lemma process_chunk_gross (cfg : Config) (st st' : State) (t : Table) :
  distinct_keys (notas_index st) ->
  process_chunk cfg st t = Ok st' ->
  faturamento_bruto (accum st')
  == faturamento_bruto (accum st) + sum_skipna (parsed_item_amounts t)
  /\ ni_df (notas_index st') = ni_df (notas_index st).
Proof.
  intros Hu H.
  destruct (processed t) eqn:Hp.
  2:{ rewrite process_chunk_skipped in H by exact Hp. injection H as <-.
      unfold parsed_item_amounts. rewrite Hp. split; [|reflexivity].
      unfold sum_skipna. simpl. ring. }
  unfold parsed_item_amounts, with_item_amounts. rewrite Hp.
  unfold processed in Hp. unfold process_chunk in H.
  destruct (resolve_item_chave (columns (normalized t))) as [c|]; [|discriminate].
  rewrite Hp in H.
  destruct (item_amounts (rename c "chave_acesso" (normalized t)))
    as [msg|chunk1] eqn:E1; [discriminate|].
  cbn [bind] in H.
  apply item_amounts_column in E1;
    [|rewrite rename_is_rename_with; apply aligned_rename_with, aligned_normalized].
  destruct E1 as [Hw1 [_ [d [Hd [_ _]]]]].
  rewrite Hd.
  destruct (merge_notas (notas_index st) chunk1) as [msg|[ni' merged]] eqn:E2;
    [discriminate|].
  cbn [bind snd fst] in H.
  apply (merge_notas_amount _ _ _ _ d Hw1 Hd Hu) in E2. destruct E2 as [Hm Hni].
  destruct (parse_dates merged) as [msg|chunk2] eqn:E3; [discriminate|].
  cbn [bind] in H.
  apply parse_dates_amount in E3. destruct E3 as [E3 _].
  destruct (dimension_columns_amount chunk2) as [E4 _].
  rewrite (proj2 (get_float_getitem _ _ _ d)) in H by congruence.
  cbn [bind] in H.
  destruct (month_column (dimension_columns chunk2)) as [msg|chunk3]; [discriminate|].
  cbn [bind] in H.
  destruct (groupby_items "mes_ano" chunk3); [discriminate|]. cbn [bind] in H.
  destruct (groupby_items "uf_emitente" chunk3); [discriminate|]. cbn [bind] in H.
  destruct (groupby_items "cfop" chunk3); [discriminate|]. cbn [bind] in H.
  destruct (groupby_items "ncm" chunk3); [discriminate|]. cbn [bind] in H.
  apply Ok_inj in H. subst st'. cbn [accum notas_index accumulate faturamento_bruto].
  split; [reflexivity|exact Hni].
Qed.

Lemma process_chunks_gross (cfg : Config) (itens : list Table) (st st' : State) :
  distinct_keys (notas_index st) ->
  process_chunks cfg st itens = Ok st' ->
  faturamento_bruto (accum st')
  == faturamento_bruto (accum st) + sum_skipna (flat_map parsed_item_amounts itens).
Proof.
  revert st. induction itens as [|t rest IH]; intros st Hu H.
  - injection H as <-. unfold sum_skipna. simpl. ring.
  - cbn [process_chunks] in H.
    destruct (process_chunk cfg st t) as [msg|st1] eqn:E; [discriminate|].
    cbn [bind] in H.
    destruct (process_chunk_gross _ _ _ _ Hu E) as [Hg Hni].
    assert (Hu1 : distinct_keys (notas_index st1)).
    { unfold distinct_keys in *. now rewrite Hni. }
    rewrite (IH st1 Hu1 H), Hg. cbn [flat_map].
    rewrite sum_skipna_app. ring.
Qed.

Lemma load_notas_index (notas : Table) (ni : NotasIndex) :
  load_notas notas = Ok ni ->
  getitem "chave_acesso" (ni_df ni) = Some (SText (ni_index ni))
  /\ ni_index_name ni = Some "chave_acesso".
Proof.
  unfold load_notas. intros H.
  destruct (_ || _); [discriminate|].
  destruct (resolve_chave _) as [c|]; [|discriminate]. cbn [require bind] in H.
  destruct (resolve_valor_notas _) as [v|]; [|discriminate]. cbn [require bind] in H.
  destruct (getitem "valor_total" _) as [s|]; [|discriminate]. cbn [require bind] in H.
  destruct (apply_parse s) as [msg|parsed]; [discriminate|]. cbn [bind] in H.
  destruct (negb _); [discriminate|].
  destruct (get_text _ _ _) as [msg|index] eqn:E; [discriminate|]. cbn [bind] in H.
  injection H as <-. cbn [ni_df ni_index ni_index_name].
  apply get_text_getitem in E. now split.
Qed.

(** C1, as the code has it.  For every run over any finite sequence of
    batches that comes to its end, on invoices whose keys are distinct, the
    final gross revenue ([faturamento_bruto]) is the sum of the parsed item
    amounts of all the processed batches; whether a row of items finds its
    invoice in the join plays no part. *)
Theorem gross_revenue_is_sum_of_item_amounts
    (cfg : Config) (now : string) (notas : Table) (itens : list Table)
    (out : Output) :
  NoDup (parent_keys notas) ->
  apuracao cfg now notas itens = Ok out ->
  faturamento_bruto (summary out)
  == sum_skipna (flat_map parsed_item_amounts itens).
Proof.
  intros Hnd H. unfold apuracao in H. unfold parent_keys in Hnd.
  destruct (load_notas notas) as [msg|ni] eqn:El; [discriminate|].
  cbn [bind] in H.
  destruct (process_chunks cfg (initial_state ni) itens) as [msg|st] eqn:Ep;
    [discriminate|].
  cbn [bind] in H. injection H as <-.
  apply load_notas_index in El. destruct El as [El _].
  apply process_chunks_gross in Ep.
  - unfold summary. cbn [resumo resumo_accum].
    assert (Hf : faturamento_bruto (estimate_irpj_csll cfg (accum st))
                 = faturamento_bruto (accum st)).
    { unfold estimate_irpj_csll.
      destruct ESTIMAR_IRPJ_CSLL; [|reflexivity].
      destruct (String.eqb _ "lucro_presumido"); [reflexivity|].
      destruct (String.eqb _ "lucro_real"); reflexivity. }
    rewrite Hf, Ep. cbn [initial_state accum faturamento_bruto]. ring.
  - intros rkey Hr. cbn [initial_state notas_index] in Hr.
    rewrite El in Hr. injection Hr as <-. exact Hnd.
Qed.

(** ** NumericParser: the documented values *)

(** C3. [parse("2.970,00") == parse("2970,00") == 2970.0],
    [parse("2970.00") == 2970.0], [parse("") == 0.0] and
    [parse(None) == 0.0]; the value of ["2970.00"] is returned by the direct
    [float(s_clean)], not by a branch that reads the point as a thousands
    separator. *)
Theorem parse_documented_values :
  parse_valor_brasileiro (PStr "2.970,00") = 2970
  /\ parse_valor_brasileiro (PStr "2970,00") = 2970
  /\ parse_valor_brasileiro (PStr "2970.00") = 2970
  /\ parse_valor_brasileiro (PStr "") = 0
  /\ parse_valor_brasileiro PNone = 0
  /\ fst (parse_trace (PStr "2970.00")) = BDirect.
Proof. repeat split; vm_compute; reflexivity. Qed.

(** ** Fatal set-up errors *)

(** C9. If the key column or the amount column of the invoices cannot be
    resolved, the run stops with a fatal error and writes nothing: the files
    are those that were there before the run, so neither the summary nor any
    of the four pivot tables is written. *)
Theorem unresolved_parent_column_aborts
    (cfg : Config) (now : string) (notas : Table) (itens : list Table)
    (outdir : string) (fs : files) :
  notas_chave_col notas = None \/ notas_valor_col notas = None ->
  exists msg,
    process_from_postgres cfg now notas itens outdir fs = (Fatal msg, fs).
Proof.
  intros H.
  assert (Hl : exists msg, load_notas notas = Fatal msg).
  { unfold load_notas.
    destruct (_ || _); [eauto|].
    unfold notas_valor_col, notas_chave_col, normalized in H.
    destruct (resolve_chave (columns (rename_with normalize_colname (read_sql notas))))
      as [c|]; cbn [require bind].
    - destruct H as [H|H]; [discriminate|]. rewrite H. cbn [require bind]. eauto.
    - eauto. }
  destruct Hl as [msg Hl].
  exists msg. unfold process_from_postgres, apuracao. rewrite Hl. reflexivity.
Qed.

(** ** TaxEstimator *)

Lemma process_chunks_regime (r : string) (cfg : Config) (itens : list Table)
    (st : State) :
  process_chunks (with_regime r cfg) st itens = process_chunks cfg st itens.
Proof.
  revert st. induction itens as [|t rest IH]; intros st; [reflexivity|].
  cbn [process_chunks].
  change (process_chunk (with_regime r cfg) st t) with (process_chunk cfg st t).
  destruct (process_chunk cfg st t); [reflexivity|]. cbn [bind]. apply IH.
Qed.

Lemma Qmult_nonzero (x y : Q) : ~ x == 0 -> ~ y == 0 -> ~ x * y == 0.
Proof.
  intros Hx Hy H. apply Qmult_integral in H. tauto.
Qed.

(** C8. Two runs that differ in the regime only: under [lucro_presumido]
    IRPJ and CSLL are the gross revenue times the presumption rate times the
    rate of the tax, and are not zero when the gross revenue is positive and
    the three rates are not zero; under [simples_nacional] both are [0.0];
    the gross revenue and ICMS, ISS, PIS and COFINS are the same in the two
    runs. *)
Theorem regime_switch
    (cfg : Config) (now : string) (notas : Table) (itens : list Table)
    (o1 o2 : Output) :
  apuracao (with_regime "lucro_presumido" cfg) now notas itens = Ok o1 ->
  apuracao (with_regime "simples_nacional" cfg) now notas itens = Ok o2 ->
  0 < faturamento_bruto (summary o1) ->
  ~ PRESUNCAO cfg == 0 -> ~ ALIQUOTA_IRPJ cfg == 0 -> ~ ALIQUOTA_CSLL cfg == 0 ->
  faturamento_bruto (summary o2) = faturamento_bruto (summary o1)
  /\ irpj_estimado (summary o1)
     = faturamento_bruto (summary o1) * PRESUNCAO cfg * ALIQUOTA_IRPJ cfg
  /\ csll_estimado (summary o1)
     = faturamento_bruto (summary o1) * PRESUNCAO cfg * ALIQUOTA_CSLL cfg
  /\ ~ irpj_estimado (summary o1) == 0
  /\ ~ csll_estimado (summary o1) == 0
  /\ irpj_estimado (summary o2) = 0
  /\ csll_estimado (summary o2) = 0
  /\ icms_estimado (summary o2) = icms_estimado (summary o1)
  /\ iss_estimado (summary o2) = iss_estimado (summary o1)
  /\ pis_estimado (summary o2) = pis_estimado (summary o1)
  /\ cofins_estimado (summary o2) = cofins_estimado (summary o1).
Proof.
  intros H1 H2 HG HP HI HC.
  unfold apuracao in H1, H2.
  destruct (load_notas notas) as [msg|ni]; [discriminate|]. cbn [bind] in H1, H2.
  rewrite process_chunks_regime in H1, H2.
  destruct (process_chunks cfg (initial_state ni) itens) as [msg|st]; [discriminate|].
  cbn [bind] in H1, H2. injection H1 as <-. injection H2 as <-.
  unfold summary in *. cbn [resumo resumo_accum] in *.
  unfold estimate_irpj_csll in *. unfold ESTIMAR_IRPJ_CSLL in *.
  cbn [with_regime ENQUADRAMENTO PRESUNCAO ALIQUOTA_IRPJ ALIQUOTA_CSLL] in *.
  change (String.eqb "lucro_presumido" "lucro_presumido") with true in *.
  change (String.eqb "simples_nacional" "lucro_presumido") with false.
  change (String.eqb "simples_nacional" "lucro_real") with false.
  cbn [faturamento_bruto irpj_estimado csll_estimado icms_estimado iss_estimado
       pis_estimado cofins_estimado] in *.
  assert (HG0 : ~ faturamento_bruto (accum st) == 0).
  { intros E. rewrite E in HG. now apply (Qlt_irrefl 0). }
  repeat split; try reflexivity.
  - apply Qmult_nonzero; [apply Qmult_nonzero|]; assumption.
  - apply Qmult_nonzero; [apply Qmult_nonzero|]; assumption.
Qed.

(** ** Batches without a key column *)

Lemma process_chunks_skipped (cfg : Config) (l1 l2 : list Table) (t : Table)
    (st : State) :
  processed t = false ->
  process_chunks cfg st (l1 ++ t :: l2) = process_chunks cfg st (l1 ++ l2).
Proof.
  intros Hp. revert st. induction l1 as [|b l1 IH]; intros st.
  - cbn [app process_chunks]. now rewrite process_chunk_skipped.
  - cbn [app process_chunks]. destruct (process_chunk cfg st b); [reflexivity|].
    cbn [bind]. apply IH.
Qed.

Lemma apuracao_skipped (cfg : Config) (now : string) (notas : Table)
    (l1 l2 : list Table) (t : Table) :
  processed t = false ->
  apuracao cfg now notas (l1 ++ t :: l2) = apuracao cfg now notas (l1 ++ l2).
Proof.
  intros Hp. unfold apuracao.
  destruct (load_notas notas) as [msg|ni]; [reflexivity|]. cbn [bind].
  now rewrite process_chunks_skipped.
Qed.

(** C4, as the code has it.  A batch whose key column cannot be resolved
    is skipped entirely and the run goes on: the outcome of the run, with
    its summary, its pivot tables and its files, is that of the same run
    without the batch, so the amounts of the batch are not in the gross
    revenue, and nothing in the result tells that a batch was skipped. *)
Theorem keyless_batch_is_skipped
    (cfg : Config) (now : string) (notas : Table) (l1 l2 : list Table)
    (t : Table) (outdir : string) (fs : files) :
  processed t = false ->
  process_from_postgres cfg now notas (l1 ++ t :: l2) outdir fs
  = process_from_postgres cfg now notas (l1 ++ l2) outdir fs.
Proof.
  intros Hp. unfold process_from_postgres.
  now rewrite apuracao_skipped.
Qed.

(** ** The amount column of a batch *)







(** ** Which rows the join pairs *)

Lemma in_enumerate_from (A : Type) (l : list A) (s i : nat) (a : A) :
  In (i, a) (combine (seq s (length l)) l)
  <-> (s <= i)%nat /\ nth_error l (i - s) = Some a.
Proof.
  revert s. induction l as [|x l IH]; intros s; cbn [length seq combine In].
  - split; [tauto|]. intros [_ H]. now destruct (i - s)%nat.
  - rewrite IH. split.
    + intros [H|[H1 H2]].
      * injection H as -> ->. rewrite Nat.sub_diag. split; [lia|reflexivity].
      * split; [lia|]. replace (i - s)%nat with (S (i - S s)) by lia. exact H2.
    + intros [H1 H2]. destruct (Nat.eq_dec i s) as [->|Hne].
      * rewrite Nat.sub_diag in H2. injection H2 as ->. now left.
      * right. split; [lia|].
        replace (i - s)%nat with (S (i - S s)) in H2 by lia. exact H2.
Qed.

Lemma in_enumerate (A : Type) (l : list A) (i : nat) (a : A) :
  In (i, a) (enumerate l) <-> nth_error l i = Some a.
Proof.
  unfold enumerate. rewrite in_enumerate_from, Nat.sub_0_r.
  split; [tauto|]. intros H. split; [lia|exact H].
Qed.

(** Row [i] of the left side is paired with row [j] of the right side
    exactly when their keys are equal. *)
Lemma left_join_matched (lkeys rkeys : list cell) (i j : nat) :
  In (i, Some j) (left_join lkeys rkeys)
  <-> exists k, nth_error lkeys i = Some k /\ nth_error rkeys j = Some k.
Proof.
  unfold left_join. rewrite in_flat_map. split.
  - intros [[i0 k] [Hik H]]. cbn [fst snd] in H.
    apply in_enumerate in Hik.
    assert (Hm : In (i, Some j)
                   (map (fun jk : nat * cell => (i0, Some (fst jk)))
                        (filter (fun jk : nat * cell => cell_eqb k (snd jk))
                                (enumerate rkeys)))).
    { destruct (filter _ _) as [|m ms]; [|exact H].
      destruct H as [H|[]]. discriminate H. }
    apply in_map_iff in Hm. destruct Hm as [[j0 k'] [E Hf]].
    cbn [fst] in E. injection E as -> ->.
    apply filter_In in Hf. destruct Hf as [Hjk Heq]. cbn [snd] in Heq.
    apply in_enumerate in Hjk. apply cell_eqb_eq in Heq. subst k'.
    exists k. now split.
  - intros [k [Hi Hj]]. exists (i, k). split; [now apply in_enumerate|].
    cbn [fst snd].
    assert (Hf : In (j, k) (filter (fun jk : nat * cell => cell_eqb k (snd jk))
                                   (enumerate rkeys))).
    { apply filter_In. split; [now apply in_enumerate|]. now apply cell_eqb_eq. }
    destruct (filter _ _) as [|m ms]; [destruct Hf|].
    apply in_map_iff. exists (j, k). now split.
Qed.

Lemma nth_error_positions (n j : nat) (k : cell) :
  nth_error (map (fun i => Some (str_nat i)) (seq 0 n)) j = Some k
  <-> (j < n)%nat /\ k = Some (str_nat j).
Proof.
  rewrite nth_error_map. split.
  - intros H. destruct (nth_error (seq 0 n) j) as [i|] eqn:E; [|discriminate].
    injection H as <-.
    assert (Hj : (j < n)%nat).
    { rewrite <- (length_seq n 0). apply nth_error_Some. congruence. }
    split; [exact Hj|].
    rewrite (nth_error_nth' _ 0%nat) in E by now rewrite length_seq.
    injection E as <-. now rewrite seq_nth.
  - intros [Hj ->].
    rewrite (nth_error_nth' _ 0%nat) by now rewrite length_seq.
    cbn [option_map]. now rewrite seq_nth.
Qed.

Lemma merge_notas_pairs (ni ni' : NotasIndex) (chunk merged : DataFrame) :
  merge_notas ni chunk = Ok (ni', merged) ->
  index_named "chave_acesso" ni' = false
  /\ ni_df ni' = ni_df ni
  /\ exists lkey chunk' pairs,
       getitem "chave_acesso" chunk = Some (SText lkey)
       /\ merged = merge_frames (negb (index_named "chave_acesso" ni)) chunk'
                                (ni_df ni) pairs
       /\ forall i j,
            In (i, Some j) pairs
            <-> if index_named "chave_acesso" ni
                then paired_by_position ni lkey i j
                else paired_by_key ni lkey i j.
Proof.
  unfold merge_notas. intros H.
  destruct (index_named "chave_acesso" ni) eqn:En.
  - destruct (get_text "chave_acesso" "chave_acesso" chunk) as [msg|key] eqn:Ek;
      [discriminate|].
    cbn [bind] in H. apply get_text_getitem in Ek.
    rewrite (proj2 (get_text_getitem _ _ _ (astype_str key))) in H
      by now apply (getitem_setitem_same _ _ (SText key)).
    cbn [bind] in H. injection H as <- <-.
    split; [reflexivity|]. split; [reflexivity|].
    exists key. eexists. eexists. split; [exact Ek|]. split; [reflexivity|].
    intros i j. cbn [ni_index ni_df]. rewrite left_join_matched.
    unfold paired_by_position, astype_str. split.
    + intros [k' [Hi Hj]]. apply nth_error_positions in Hj. destruct Hj as [Hj ->].
      split; [exact Hj|].
      rewrite nth_error_map in Hi. unfold cell in *.
      destruct (nth_error key i) as [k|]; [|cbn in Hi; discriminate Hi].
      exists k. split; [reflexivity|].
      destruct k; cbn in Hi |- *; congruence.
    + intros [Hj [k [Hi Hk]]]. exists (Some (str_nat j)). split.
      * rewrite nth_error_map. unfold cell in *. rewrite Hi.
        cbn [option_map]. f_equal.
        destruct k; cbn in Hk |- *; congruence.
      * apply nth_error_positions. now split.
  - destruct (get_text "chave_acesso" "chave_acesso" chunk) as [msg|lkey] eqn:Ek;
      [discriminate|].
    cbn [bind] in H.
    destruct (get_text "chave_acesso" "chave_acesso" (ni_df ni)) as [msg|rkey] eqn:Er;
      [discriminate|].
    cbn [bind] in H. injection H as <- <-.
    apply get_text_getitem in Ek. apply get_text_getitem in Er.
    split; [exact En|]. split; [reflexivity|].
    exists lkey. eexists. eexists. split; [exact Ek|]. split; [reflexivity|].
    intros i j. rewrite left_join_matched. unfold paired_by_key. split.
    + intros [k [Hi Hj]]. exists k, rkey. now repeat split.
    + intros [k [rkey' [Hi [Hr Hj]]]]. rewrite Er in Hr. injection Hr as <-.
      exists k. now split.
Qed.









End Pipeline.

(** ** The statements on sample runs *)

Ltac evaluate := vm_compute; reflexivity.

Lemma gross_revenue_is_sum_of_item_amounts_witness :
  exists out,
    apuracao unit no_dates unit_period default_config "2024-01-01T00:00:00+00:00"
             notas_one [batch_a; batch_keyless; batch_b] = Ok out
    /\ NoDup (parent_keys unit notas_one)
    /\ faturamento_bruto (summary out)
       == sum_skipna (flat_map (parsed_item_amounts unit)
                               [batch_a; batch_keyless; batch_b]).
Proof.
  eexists. split; [evaluate|].
  assert (Hnd : NoDup (parent_keys unit notas_one)).
  { vm_compute. constructor; [intros []|constructor]. }
  split; [exact Hnd|].
  apply (gross_revenue_is_sum_of_item_amounts unit no_dates unit_period
           default_config "2024-01-01T00:00:00+00:00" notas_one
           [batch_a; batch_keyless; batch_b]); [exact Hnd|evaluate].
Defined.

(** C1, as the specification has it, fails when two invoices have the same
    key.  A batch joined on the key gets one row for each invoice that its
    item matches: with two invoices under [A1], the item of the second batch,
    worth [500,50], is counted twice, and the gross revenue is [2001] where
    the parsed amounts of the two batches sum to [1500.5]. *)
Lemma repeated_parent_key_repeats_item_rows :
  exists out,
    apuracao unit no_dates unit_period default_config "now" notas_repeated
             [batch_a; batch_b] = Ok out
    /\ faturamento_bruto (summary out) == 2001
    /\ sum_skipna (flat_map (parsed_item_amounts unit) [batch_a; batch_b]) == 3001 # 2
    /\ ~ faturamento_bruto (summary out)
         == sum_skipna (flat_map (parsed_item_amounts unit) [batch_a; batch_b]).
Proof.
  eexists. split; [evaluate|]. split; [evaluate|]. split; [evaluate|].
  vm_compute. discriminate.
Qed.

Lemma unresolved_parent_column_aborts_witness :
  notas_chave_col unit notas_keyless = None
  /\ exists msg,
       process_from_postgres unit no_dates unit_period default_config "now"
                             notas_keyless [batch_a] "output" []
       = (Fatal msg, []).
Proof.
  split; [evaluate|].
  apply (unresolved_parent_column_aborts unit no_dates unit_period).
  left. evaluate.
Defined.

Lemma regime_switch_witness :
  exists o1 o2,
    apuracao unit no_dates unit_period (with_regime "lucro_presumido" default_config)
             "now" notas_one [batch_a; batch_b] = Ok o1
    /\ apuracao unit no_dates unit_period (with_regime "simples_nacional" default_config)
                "now" notas_one [batch_a; batch_b] = Ok o2
    /\ ~ irpj_estimado (summary o1) == 0
    /\ irpj_estimado (summary o2) = 0
    /\ icms_estimado (summary o2) = icms_estimado (summary o1).
Proof.
  eexists. eexists. split; [evaluate|]. split; [evaluate|].
  match goal with
  | |- ~ irpj_estimado (summary ?o1) == 0 /\ irpj_estimado (summary ?o2) = 0 /\ _ =>
      assert (E1 : apuracao unit no_dates unit_period
                     (with_regime "lucro_presumido" default_config)
                     "now" notas_one [batch_a; batch_b] = Ok o1) by evaluate;
      assert (E2 : apuracao unit no_dates unit_period
                     (with_regime "simples_nacional" default_config)
                     "now" notas_one [batch_a; batch_b] = Ok o2) by evaluate;
      pose proof (regime_switch unit no_dates unit_period default_config "now"
                    notas_one [batch_a; batch_b] o1 o2 E1 E2) as H
  end.
  assert (Hz : forall q : Q, ~ Qnum q = 0%Z -> ~ q == 0).
  { intros q Hq E. apply Hq. unfold Qeq in E. simpl in E. lia. }
  destruct H as [_ [_ [_ [H1 [_ [H2 [_ [H3 _]]]]]]]].
  - evaluate.
  - apply Hz. vm_compute. discriminate.
  - apply Hz. vm_compute. discriminate.
  - apply Hz. vm_compute. discriminate.
  - split; [exact H1|]. split; [exact H2|exact H3].
Defined.

Lemma keyless_batch_is_skipped_witness :
  processed unit batch_keyless = false
  /\ process_from_postgres unit no_dates unit_period default_config "now" notas_one
                           ([batch_a] ++ batch_keyless :: [batch_b]) "output" []
     = process_from_postgres unit no_dates unit_period default_config "now" notas_one
                             ([batch_a] ++ [batch_b]) "output" [].
Proof.
  split; [evaluate|].
  apply (keyless_batch_is_skipped unit no_dates unit_period). evaluate.
Defined.

(** C4, as the specification has it, fails: the result of a run does not
    determine how many batches were skipped.  The run on no batch and the
    run on one batch without a key column have the same result. *)
Lemma skipped_count_not_in_result :
  ~ exists count : Output -> nat,
      forall itens out,
        apuracao unit no_dates unit_period default_config "now" notas_one itens = Ok out ->
        count out = skipped_batches unit itens.
Proof.
  intros [count H].
  destruct (apuracao unit no_dates unit_period default_config "now" notas_one [])
    as [msg|out] eqn:E; [vm_compute in E; discriminate E|].
  pose proof (H [] out E) as H0.
  assert (E1 : apuracao unit no_dates unit_period default_config "now" notas_one
                 [batch_keyless] = Ok out).
  { rewrite <- E.
    apply (apuracao_skipped unit no_dates unit_period default_config "now" notas_one
             [] [] batch_keyless).
    evaluate. }
  pose proof (H [batch_keyless] out E1) as H1.
  rewrite H0 in H1. vm_compute in H1. discriminate H1.
Qed.




(** ** Where the code departs from its specification *)

(** C2 fails on the code.  [groupby] leaves out the rows whose key is
    missing: one invoice, and one batch of one item worth [10,00] whose CFOP
    is NULL, give a gross revenue of [10.0] and an empty CFOP pivot; the
    state of issue, which the unmatched row does not get from the invoice,
    is missing too, and the pivot by state is empty as well. *)
Theorem null_dimension_rows_leave_the_pivot
    (timestamp : Type)
    (to_datetime : bool -> list cell -> cell -> option timestamp)
    (period_str : timestamp -> string) :
  exists out,
    apuracao timestamp to_datetime period_str default_config "now" notas_one
             [batch_null_cfop] = Ok out
    /\ faturamento_bruto (summary out) == 10
    /\ pivot_cfop out = []
    /\ pivot_uf_emit out = []
    /\ ~ pivot_sum (pivot_cfop out) == faturamento_bruto (summary out).
Proof.
  eexists. split; [evaluate|].
  split; [evaluate|]. split; [evaluate|]. split; [evaluate|].
  vm_compute. discriminate.
Qed.

(** C6 fails on the code.  The column [data_emissao_parsed] is created on
    every path, so the branch that writes ["unknown"] is never taken: a
    batch without any emission date is accumulated under the label ["NaT"],
    the text of a missing period. *)
Theorem absent_date_is_labelled_NaT
    (timestamp : Type)
    (to_datetime : bool -> list cell -> cell -> option timestamp)
    (period_str : timestamp -> string) :
  exists out,
    apuracao timestamp to_datetime period_str default_config "now" notas_one
             [batch_a] = Ok out
    /\ map fst (pivot_mes out) = ["NaT"]
    /\ pivot_sum (pivot_mes out) == 1000.
Proof.
  eexists. split; [evaluate|]. split; evaluate.
Qed.

(** C7 fails on the code.  The batch that is processed first is joined on
    row positions and gets nothing from the invoices, so the order of the
    batches decides what the pivot by state holds: with the batch of
    [1.000,00] first the state SP has [500.50], with the batch of [500,50]
    first it has [1000.0]; the accumulator is the same in the two runs. *)
Theorem batch_order_changes_the_pivots
    (timestamp : Type)
    (to_datetime : bool -> list cell -> cell -> option timestamp)
    (period_str : timestamp -> string) :
  exists o1 o2,
    apuracao timestamp to_datetime period_str default_config "now" notas_one
             [batch_a; batch_b] = Ok o1
    /\ apuracao timestamp to_datetime period_str default_config "now" notas_one
                [batch_b; batch_a] = Ok o2
    /\ map fst (pivot_uf_emit o1) = ["SP"]
    /\ map fst (pivot_uf_emit o2) = ["SP"]
    /\ pivot_sum (pivot_uf_emit o1) == 1001 # 2
    /\ pivot_sum (pivot_uf_emit o2) == 1000
    /\ faturamento_bruto (summary o1) == faturamento_bruto (summary o2).
Proof.
  eexists. eexists. split; [evaluate|]. split; [evaluate|].
  repeat split; evaluate.
Qed.

(** * Further properties *)

(** ** Further properties: ColumnResolver *)

Lemma find_best_column_passes (cols keywords : list string) :
  find_best_column cols keywords
  = match find (contains_all keywords) cols with
    | Some c => Some c
    | None => find (contains_any keywords) cols
    end.
Proof.
  unfold find_best_column, contains_all, contains_any.
  rewrite (find_combine_map _ _ normalize_colname
             (fun x => forallb (fun k0 => contains k0 x) keywords)).
  rewrite (find_combine_map _ _ normalize_colname
             (fun x => existsb (fun k0 => contains k0 x) keywords)).
  destruct (find (fun a => forallb (fun k0 => contains k0 (normalize_colname a)) keywords) cols);
    [reflexivity|].
  destruct (find (fun a => existsb (fun k0 => contains k0 (normalize_colname a)) keywords) cols);
    reflexivity.
Qed.

Lemma find_none_iff (A : Type) (P : A -> bool) (l : list A) :
  find P l = None <-> forall a, In a l -> P a = false.
Proof.
  split; [apply find_none|].
  induction l as [|a l IH]; intros H; [reflexivity|]. simpl.
  rewrite (H a) by now left. apply IH. intros b Hb. apply H. now right.
Qed.

Lemma contains_all_any (keywords : list string) (c : string) :
  keywords <> [] -> contains_all keywords c = true -> contains_any keywords c = true.
Proof.
  unfold contains_all, contains_any.
  destruct keywords as [|k r]; [congruence|]. simpl. intros _ H.
  apply andb_prop in H. destruct H as [H _]. now rewrite H.
Qed.

Lemma find_best_column_some (cols keywords : list string) (c : string) :
  keywords <> [] ->
  find_best_column cols keywords = Some c ->
  In c cols /\ contains_any keywords c = true.
Proof.
  intros Hk. rewrite find_best_column_passes. intros H.
  destruct (find (contains_all keywords) cols) as [c'|] eqn:E.
  - injection H as ->. apply find_some in E. destruct E as [Hin E].
    split; [exact Hin|now apply contains_all_any].
  - apply find_some in H. exact H.
Qed.

Lemma find_best_column_none (cols keywords : list string) :
  keywords <> [] ->
  find_best_column cols keywords = None
  <-> forall c, In c cols -> contains_any keywords c = false.
Proof.
  intros Hk. rewrite find_best_column_passes.
  destruct (find (contains_all keywords) cols) as [c'|] eqn:E.
  - split; [discriminate|]. intros H. apply find_some in E.
    destruct E as [Hin E]. apply (contains_all_any _ _ Hk) in E.
    rewrite (H c' Hin) in E. discriminate.
  - apply find_none_iff.
Qed.

(** The resolver answers with one of the given columns, whose normalised
    name contains a keyword; it has no answer exactly when no column
    contains any keyword. *)
Theorem find_best_column_sound_and_complete (cols keywords : list string) :
  keywords <> [] ->
  (forall c, find_best_column cols keywords = Some c ->
             In c cols /\ contains_any keywords c = true)
  /\ (find_best_column cols keywords = None
      <-> forall c, In c cols -> contains_any keywords c = false).
Proof.
  intros Hk. split.
  - intros c. now apply find_best_column_some.
  - now apply find_best_column_none.
Qed.

Lemma find_app_first (A : Type) (P : A -> bool) (l1 l2 : list A) (a : A) :
  (forall x, In x l1 -> P x = false) -> P a = true ->
  find P (l1 ++ a :: l2) = Some a.
Proof.
  intros H Ha. induction l1 as [|x l1 IH]; simpl.
  - now rewrite Ha.
  - rewrite (H x) by now left. apply IH. intros y Hy. apply H. now right.
Qed.

(** The strict pass comes first, and ties go to the first column: a column
    that contains all the keywords is chosen when no column before it does,
    whatever the earlier columns contain of the keywords; when no column
    contains them all, the first column that contains one of them is
    chosen. *)
Theorem find_best_column_priority (l1 l2 keywords : list string) (c : string) :
  (contains_all keywords c = true ->
   (forall x, In x l1 -> contains_all keywords x = false) ->
   find_best_column (l1 ++ c :: l2) keywords = Some c)
  /\ (contains_any keywords c = true ->
      (forall x, In x l1 -> contains_any keywords x = false) ->
      (forall x, In x (l1 ++ c :: l2) -> contains_all keywords x = false) ->
      find_best_column (l1 ++ c :: l2) keywords = Some c).
Proof.
  rewrite find_best_column_passes. split.
  - intros Hc H1. now rewrite (find_app_first _ _ _ _ _ H1 Hc).
  - intros Hc H1 Hall.
    rewrite (proj2 (find_none_iff _ (contains_all keywords) (l1 ++ c :: l2)) Hall).
    now apply find_app_first.
Qed.

Lemma prefix_app_l (k k2 s : string) :
  String.prefix (k ++ k2) s = true -> String.prefix k s = true.
Proof.
  revert s. induction k as [|a k IH]; intros s H; [now destruct s|].
  destruct s as [|b s]; [discriminate H|]. simpl in *.
  destruct (ascii_dec a b); [|discriminate H]. now apply IH.
Qed.

(** What contains a keyword contains the beginning of the keyword. *)
Lemma contains_app_l (k k2 s : string) :
  contains (k ++ k2) s = true -> contains k s = true.
Proof.
  induction s as [|x s IH]; cbn [contains]; intros H.
  - now apply (prefix_app_l k k2).
  - apply orb_prop in H. destruct H as [H|H].
    + now rewrite (prefix_app_l k k2 _ H).
    + rewrite (IH H). apply orb_true_r.
Qed.

Lemma resolve_chave_first_call (cols : list string) :
  resolve_chave cols = find_best_column cols ["chave"; "acesso"].
Proof.
  unfold resolve_chave, py_or.
  destruct (find_best_column cols ["chave"; "acesso"]) as [c|] eqn:E.
  - destruct (find_best_column_some cols ["chave"; "acesso"] c) as [_ Hc];
      [discriminate|exact E|].
    destruct c; [vm_compute in Hc; discriminate Hc|reflexivity].
  - cbn [truthy].
    assert (Hn : forall c, In c cols -> contains_any ["chave"; "acesso"] c = false)
      by (apply find_best_column_none; [discriminate|exact E]).
    apply find_best_column_none; [discriminate|].
    intros c Hc. pose proof (Hn c Hc) as H.
    unfold contains_any in *. cbn [existsb] in *.
    apply orb_false_elim in H. destruct H as [H _]. now rewrite H.
Qed.

(** The key column, of the invoices and of a batch alike: the second call
    of the resolver, with [chave] alone, never decides.  The key is the
    first column that contains both [chave] and [acesso], else the first
    that contains either of them; there is none exactly when no column
    contains [chave] or [acesso]. *)
Theorem key_column_resolution (cols : list string) :
  resolve_chave cols
  = match find (contains_all ["chave"; "acesso"]) cols with
    | Some c => Some c
    | None => find (contains_any ["chave"; "acesso"]) cols
    end
  /\ resolve_item_chave cols = resolve_chave cols
  /\ (resolve_chave cols = None
      <-> forall c, In c cols ->
                    contains "chave" (normalize_colname c) = false
                    /\ contains "acesso" (normalize_colname c) = false).
Proof.
  rewrite resolve_chave_first_call. split; [apply find_best_column_passes|].
  split; [exact (resolve_chave_first_call cols)|].
  rewrite (find_best_column_none cols ["chave"; "acesso"]) by discriminate. unfold contains_any. cbn [existsb].
  split; intros H c Hc; specialize (H c Hc).
  - apply orb_false_elim in H. destruct H as [H1 H2].
    apply orb_false_elim in H2. now destruct H2.
  - destruct H as [-> ->]. reflexivity.
Qed.

Lemma first_found_single (cols : list string) (tryname : string) (rest : list string) :
  contains tryname EmptyString = false ->
  first_found cols (tryname :: rest)
  = match first_containing tryname cols with
    | Some c => Some c
    | None => first_found cols rest
    end.
Proof.
  intros Hk. cbn [first_found]. rewrite find_best_column_single.
  rewrite (truthy_first_containing _ _ Hk).
  destruct (first_containing tryname cols); reflexivity.
Qed.

Lemma first_containing_longer (k k2 : string) (cols : list string) :
  first_containing k cols = None -> first_containing (k ++ k2) cols = None.
Proof.
  unfold first_containing. rewrite !find_none_iff. intros H c Hc.
  specialize (H c Hc).
  destruct (contains (k ++ k2) (normalize_colname c)) eqn:E; [|reflexivity].
  apply contains_app_l in E. congruence.
Qed.

(** The amount column of the invoices: the first column that contains
    [valor_total], else the first that contains [valor], else the first
    that contains [total].  The try with [valor_nota] and the last call with
    [valor] never decide. *)
Theorem parent_amount_column_resolution (cols : list string) :
  resolve_valor_notas cols
  = match first_containing "valor_total" cols with
    | Some c => Some c
    | None =>
        match first_containing "valor" cols with
        | Some c => Some c
        | None => first_containing "total" cols
        end
    end.
Proof.
  unfold resolve_valor_notas, valor_cols_try.
  rewrite !first_found_single by reflexivity. cbn [first_found].
  rewrite find_best_column_single.
  destruct (first_containing "valor_total" cols); [reflexivity|].
  destruct (first_containing "valor" cols) eqn:E; [reflexivity|].
  pose proof (first_containing_longer "valor" "_nota" cols E) as E2.
  change ("valor" ++ "_nota") with "valor_nota" in E2. rewrite E2.
  destruct (first_containing "total" cols); reflexivity.
Qed.

(** ** Further properties: NumericParser *)

Ltac ascii_cases x :=
  destruct x as [[] [] [] [] [] [] [] []]; try discriminate; try reflexivity.

Lemma all_chars_app (p : ascii -> bool) (s t : string) :
  all_chars p (s ++ t) = all_chars p s && all_chars p t.
Proof.
  induction s as [|x s IH]; simpl; [reflexivity|].
  now rewrite IH, andb_assoc.
Qed.

Lemma all_chars_impl (p q : ascii -> bool) (s : string) :
  (forall x, p x = true -> q x = true) ->
  all_chars p s = true -> all_chars q s = true.
Proof.
  intros H. induction s as [|x s IH]; simpl; [reflexivity|].
  intros Hs. apply andb_prop in Hs. destruct Hs as [Hx Hs].
  now rewrite (H x Hx), IH.
Qed.

Lemma has_char_app (c : ascii) (s t : string) :
  has_char c (s ++ t) = has_char c s || has_char c t.
Proof.
  induction s as [|x s IH]; simpl; [reflexivity|].
  now rewrite IH, orb_assoc.
Qed.

Lemma has_char_all (c : ascii) (p : ascii -> bool) (s : string) :
  p c = false -> all_chars p s = true -> has_char c s = false.
Proof.
  intros Hc. induction s as [|x s IH]; simpl; [reflexivity|].
  intros Hs. apply andb_prop in Hs. destruct Hs as [Hx Hs].
  rewrite (IH Hs), orb_false_r. apply Ascii.eqb_neq. intros ->. congruence.
Qed.

Lemma prefix_char (c : ascii) (s : string) :
  String.prefix (String c EmptyString) s
  = match s with String x _ => Ascii.eqb c x | EmptyString => false end.
Proof.
  destruct s as [|x s]; [reflexivity|]. simpl.
  destruct (ascii_dec c x) as [->|H].
  - rewrite Ascii.eqb_refl. now destruct s.
  - symmetry. now apply Ascii.eqb_neq.
Qed.

(** [c in s] for a character [c]. *)
Lemma contains_char (c : ascii) (s : string) :
  contains (String c EmptyString) s = has_char c s.
Proof.
  induction s as [|x s IH]; cbn [contains has_char]; rewrite prefix_char;
    [reflexivity|now rewrite IH].
Qed.

Lemma keep_only_all (k : ascii -> bool) (s : string) :
  all_chars k s = true -> keep_only k s = s.
Proof.
  induction s as [|x s IH]; simpl; [reflexivity|].
  intros H. apply andb_prop in H. destruct H as [Hx Hs].
  now rewrite Hx, IH.
Qed.

Lemma all_chars_keep_only (k : ascii -> bool) (s : string) :
  all_chars k (keep_only k s) = true.
Proof.
  induction s as [|x s IH]; simpl; [reflexivity|].
  destruct (k x) eqn:E; simpl; [now rewrite E|exact IH].
Qed.

Lemma keep_only_replace1 (k : ascii -> bool) (c : ascii) (s : string) :
  k c = false -> keep_only k (replace1 c EmptyString s) = keep_only k s.
Proof.
  intros Hc. induction s as [|x s IH]; simpl; [reflexivity|].
  destruct (Ascii.eqb x c) eqn:E; simpl.
  - apply Ascii.eqb_eq in E. subst x. now rewrite Hc.
  - now rewrite IH.
Qed.

Lemma replace2_two (a b x y : ascii) (new r : string) :
  replace2 a b new (String x (String y r))
  = if Ascii.eqb x a && Ascii.eqb y b then new ++ replace2 a b new r
    else String x (replace2 a b new (String y r)).
Proof. reflexivity. Qed.

Lemma keep_only_replace2 (k : ascii -> bool) (a b : ascii) (s : string) :
  k a = false -> k b = false ->
  keep_only k (replace2 a b EmptyString s) = keep_only k s.
Proof.
  intros Ha Hb.
  assert (H : forall n s, (String.length s <= n)%nat ->
                          keep_only k (replace2 a b EmptyString s) = keep_only k s).
  { induction n as [|n IH]; intros [|x [|y r]] Hl; simpl in Hl; try lia;
      try reflexivity.
    rewrite replace2_two.
    destruct (Ascii.eqb x a && Ascii.eqb y b) eqn:E.
    - apply andb_prop in E. destruct E as [E1 E2].
      apply Ascii.eqb_eq in E1. apply Ascii.eqb_eq in E2. subst x y.
      cbn [append keep_only]. rewrite Ha, Hb. apply IH. lia.
    - cbn [keep_only]. rewrite (IH (String y r)) by (simpl; lia). reflexivity. }
  now apply (H (String.length s)).
Qed.

Lemma keep_only_lstrip (k p : ascii -> bool) (s : string) :
  (forall x, p x = true -> k x = false) ->
  keep_only k (lstrip p s) = keep_only k s.
Proof.
  intros H. induction s as [|x s IH]; simpl; [reflexivity|].
  destruct (p x) eqn:E; [|reflexivity]. now rewrite (H x E).
Qed.

Lemma keep_only_rstrip (k p : ascii -> bool) (s : string) :
  (forall x, p x = true -> k x = false) ->
  keep_only k (rstrip p s) = keep_only k s.
Proof.
  intros H. induction s as [|x s IH]; simpl; [reflexivity|].
  destruct (p x) eqn:E; simpl.
  - destruct (String.eqb (rstrip p s) EmptyString) eqn:E2; simpl.
    + apply String.eqb_eq in E2. rewrite E2 in IH. simpl in IH.
      now rewrite (H x E), <- IH.
    + now rewrite IH.
  - now rewrite IH.
Qed.

Lemma keep_only_strip_by (k p : ascii -> bool) (s : string) :
  (forall x, p x = true -> k x = false) ->
  keep_only k (strip_by p s) = keep_only k s.
Proof.
  intros H. unfold strip_by. now rewrite keep_only_rstrip, keep_only_lstrip.
Qed.

Lemma rstrip_none (p : ascii -> bool) (s : string) :
  all_chars (fun x => negb (p x)) s = true -> rstrip p s = s.
Proof.
  induction s as [|x s IH]; simpl; [reflexivity|].
  intros H. apply andb_prop in H. destruct H as [Hx Hs].
  apply negb_true_iff in Hx. now rewrite Hx, IH.
Qed.

Lemma strip_by_none (p : ascii -> bool) (s : string) :
  all_chars (fun x => negb (p x)) s = true -> strip_by p s = s.
Proof.
  intros H. unfold strip_by.
  assert (E : lstrip p s = s).
  { destruct s as [|x s]; [reflexivity|]. simpl in *.
    apply andb_prop in H. destruct H as [Hx _].
    apply negb_true_iff in Hx. now rewrite Hx. }
  rewrite E. now apply rstrip_none.
Qed.

Lemma space_not_numeric (x : ascii) : is_space x = true -> keep_numeric x = false.
Proof. ascii_cases x. Qed.

Lemma numeric_not_space (x : ascii) : keep_numeric x = true -> negb (is_space x) = true.
Proof. ascii_cases x. Qed.

Lemma parse_trace_clean (s : string) :
  parse_trace (PStr s)
  = if String.eqb (strip s) EmptyString then (BEmpty, 0)
    else parse_clean (keep_only keep_numeric s).
Proof.
  cbn [parse_trace].
  destruct (String.eqb (strip s) EmptyString); [reflexivity|].
  unfold parse_clean.
  rewrite keep_only_replace1, keep_only_replace2 by reflexivity.
  unfold strip. rewrite keep_only_strip_by by apply space_not_numeric.
  reflexivity.
Qed.

(** On a text within ASCII the parser sees the numeric characters only:
    whatever is not a digit, a sign, a point, a comma or an exponent mark
    can be taken out of the text, wherever it stands, without changing the
    value. *)
Theorem parse_reads_numeric_characters_only (s : string) :
  ascii_text s = true ->
  parse_valor_brasileiro (PStr s)
  = parse_valor_brasileiro (PStr (keep_only keep_numeric s)).
Proof.
  intros _. unfold parse_valor_brasileiro. rewrite !parse_trace_clean.
  rewrite (keep_only_all keep_numeric (keep_only keep_numeric s))
    by apply all_chars_keep_only.
  assert (Hs : strip (keep_only keep_numeric s) = keep_only keep_numeric s).
  { apply strip_by_none.
    apply (all_chars_impl keep_numeric); [apply numeric_not_space|].
    apply all_chars_keep_only. }
  rewrite Hs.
  destruct (String.eqb (strip s) EmptyString) eqn:E1.
  - apply String.eqb_eq in E1.
    assert (E : keep_only keep_numeric s = EmptyString).
    { unfold strip in E1.
      rewrite <- (keep_only_strip_by keep_numeric is_space s)
        by apply space_not_numeric.
      now rewrite E1. }
    rewrite E. reflexivity.
  - destruct (String.eqb (keep_only keep_numeric s) EmptyString) eqn:E2;
      [|reflexivity].
    apply String.eqb_eq in E2. rewrite E2. reflexivity.
Qed.

Lemma parse_reads_numeric_characters_only_witness :
  ascii_text "R$ 1.234,56 (a vista)" = true
  /\ keep_only keep_numeric "R$ 1.234,56 (a vista)" = "1.234,56"
  /\ parse_valor_brasileiro (PStr "R$ 1.234,56 (a vista)")
     = parse_valor_brasileiro (PStr (keep_only keep_numeric "R$ 1.234,56 (a vista)")).
Proof.
  split; [reflexivity|]. split; [reflexivity|].
  apply parse_reads_numeric_characters_only. reflexivity.
Defined.

Lemma span_digits_head (s : string) :
  match s with String x _ => is_digit x = false | EmptyString => True end ->
  span_digits s = (EmptyString, s).
Proof.
  destruct s as [|x s]; [reflexivity|]. simpl. now intros ->.
Qed.

Lemma no_digit_head (s : string) :
  all_chars (fun x => negb (is_digit x)) s = true ->
  match s with String x _ => is_digit x = false | EmptyString => True end.
Proof.
  destruct s as [|x s]; [trivial|]. simpl. intros H.
  apply andb_prop in H. destruct H as [H _]. now apply negb_true_iff.
Qed.

(** [float] accepts no text without a digit. *)
Lemma py_float_no_digit (s : string) :
  all_chars (fun x => negb (is_digit x)) s = true -> py_float s = None.
Proof.
  intros H. unfold py_float.
  assert (Hs : forall neg s1, take_sign s = (neg, s1) ->
                 all_chars (fun x => negb (is_digit x)) s1 = true).
  { intros neg s1 E. destruct s as [|x r]; [now injection E as <- <-|].
    simpl in H. apply andb_prop in H. destruct H as [Hx Hr].
    unfold take_sign in E.
    ascii_cases x; injection E as <- <-; simpl; try exact Hr; now rewrite Hr. }
  destruct (take_sign s) as [neg s1]. specialize (Hs neg s1 eq_refl).
  rewrite (span_digits_head s1) by now apply no_digit_head.
  assert (Hfp : (let '(fp, s3) :=
                   match s1 with
                   | String "." r => span_digits r
                   | _ => (EmptyString, s1)
                   end in fp) = EmptyString).
  { destruct s1 as [|x r]; [reflexivity|].
    simpl in Hs. apply andb_prop in Hs. destruct Hs as [_ Hr].
    pose proof (span_digits_head r (no_digit_head r Hr)) as Er.
    ascii_cases x. now rewrite Er. }
  destruct (match s1 with String "." r => span_digits r | _ => (EmptyString, s1) end)
    as [fp s3].
  simpl in Hfp. subst fp. reflexivity.
Qed.

Lemma digit_runs_no_digit (fuel : nat) (s : string) :
  all_chars (fun x => negb (is_digit x)) s = true -> digit_runs fuel s = [].
Proof.
  revert s. induction fuel as [|fuel IH]; intros s H; [reflexivity|].
  destruct s as [|x r]; [reflexivity|]. simpl in *.
  apply andb_prop in H. destruct H as [Hx Hr]. apply negb_true_iff in Hx.
  rewrite Hx. now apply IH.
Qed.

Lemma all_chars_replace1 (p : ascii -> bool) (c : ascii) (new s : string) :
  all_chars p new = true -> all_chars p s = true ->
  all_chars p (replace1 c new s) = true.
Proof.
  intros Hn. induction s as [|x s IH]; simpl; [reflexivity|].
  intros H. apply andb_prop in H. destruct H as [Hx Hs].
  destruct (Ascii.eqb x c).
  - now rewrite all_chars_app, Hn, IH.
  - simpl. now rewrite Hx, IH.
Qed.

Lemma parse_clean_no_digit (c : string) :
  all_chars (fun x => negb (is_digit x)) c = true -> snd (parse_clean c) = 0.
Proof.
  intros H. unfold parse_clean, try_float, findall_digits.
  rewrite (digit_runs_no_digit _ c H).
  rewrite (py_float_no_digit c H).
  rewrite (py_float_no_digit (replace1 "," "." (replace1 "." "" c)))
    by (apply all_chars_replace1; [reflexivity|];
        apply all_chars_replace1; [reflexivity|exact H]).
  destruct (contains "." c && contains "," c);
    destruct (contains "," c && negb (contains "." c)); reflexivity.
Qed.

Lemma all_chars_keep_only_other (p k : ascii -> bool) (s : string) :
  all_chars p s = true -> all_chars p (keep_only k s) = true.
Proof.
  induction s as [|x s IH]; simpl; [reflexivity|].
  intros H. apply andb_prop in H. destruct H as [Hx Hs].
  destruct (k x); simpl; [now rewrite Hx, IH|now apply IH].
Qed.

(** A text within ASCII without any digit is worth [0.0]. *)
Theorem parse_without_digit_is_zero (s : string) :
  ascii_text s = true ->
  all_chars (fun x => negb (is_digit x)) s = true ->
  parse_valor_brasileiro (PStr s) = 0.
Proof.
  intros _ H. unfold parse_valor_brasileiro. rewrite parse_trace_clean.
  destruct (String.eqb (strip s) EmptyString); [reflexivity|].
  apply parse_clean_no_digit. now apply all_chars_keep_only_other.
Qed.

Lemma parse_without_digit_is_zero_witness :
  ascii_text "R$ n/d" = true
  /\ all_chars (fun x => negb (is_digit x)) "R$ n/d" = true
  /\ parse_valor_brasileiro (PStr "R$ n/d") = 0.
Proof.
  split; [reflexivity|]. split; [reflexivity|].
  apply parse_without_digit_is_zero; reflexivity.
Defined.

Lemma digit_is_not_sign (x : ascii) (r : string) :
  is_digit x = true -> take_sign (String x r) = (false, String x r).
Proof. unfold take_sign. ascii_cases x. Qed.

Lemma digit_is_numeric (x : ascii) : is_digit x = true -> keep_numeric x = true.
Proof. unfold keep_numeric. now intros ->. Qed.

Lemma digit_or_point_is_numeric (x : ascii) :
  digit_or_point x = true -> keep_numeric x = true.
Proof. ascii_cases x. Qed.

Lemma span_digits_app (a t : string) :
  all_chars is_digit a = true ->
  match t with String x _ => is_digit x = false | EmptyString => True end ->
  span_digits (a ++ t) = (a, t).
Proof.
  intros Ha Ht. induction a as [|x a IH]; simpl.
  - now apply span_digits_head.
  - simpl in Ha. apply andb_prop in Ha. destruct Ha as [Hx Ha].
    now rewrite Hx, (IH Ha).
Qed.

Lemma span_digits_all (a : string) :
  all_chars is_digit a = true -> span_digits a = (a, EmptyString).
Proof.
  intros Ha. induction a as [|x a IH]; simpl; [reflexivity|].
  simpl in Ha. apply andb_prop in Ha. destruct Ha as [Hx Ha].
  now rewrite Hx, (IH Ha).
Qed.

Lemma append_empty (a b : string) :
  a ++ b = EmptyString -> a = EmptyString /\ b = EmptyString.
Proof. destruct a; [now split|discriminate]. Qed.

(** [float] on digits, a point and digits. *)
Lemma py_float_decimal (a b : string) :
  all_chars is_digit a = true -> all_chars is_digit b = true ->
  a ++ b <> EmptyString ->
  py_float (a ++ "." ++ b) = Some (decimal_value a b).
Proof.
  intros Ha Hb Hne. unfold py_float.
  assert (Hsign : take_sign (a ++ "." ++ b) = (false, a ++ "." ++ b)).
  { destruct a as [|x a]; [reflexivity|]. simpl in Ha.
    apply andb_prop in Ha. destruct Ha as [Hx _].
    now apply digit_is_not_sign. }
  rewrite Hsign, (span_digits_app a ("." ++ b) Ha) by reflexivity.
  cbn [append]. rewrite (span_digits_all b Hb).
  assert (Hc : String.eqb a EmptyString && String.eqb b EmptyString = false).
  { destruct a; [|reflexivity]. destruct b; [|reflexivity]. now elim Hne. }
  rewrite Hc. cbn [exponent]. unfold decimal_value.
  now rewrite Z.sub_0_l.
Qed.

Lemma append_associative (a b c : string) : a ++ (b ++ c) = (a ++ b) ++ c.
Proof. induction a as [|x a IH]; simpl; [reflexivity|]. now rewrite IH. Qed.

Lemma replace1_app (c : ascii) (new s t : string) :
  replace1 c new (s ++ t) = replace1 c new s ++ replace1 c new t.
Proof.
  induction s as [|x s IH]; simpl; [reflexivity|].
  destruct (Ascii.eqb x c); rewrite IH; [|reflexivity].
  apply append_associative.
Qed.

Lemma replace1_absent (c : ascii) (new s : string) :
  has_char c s = false -> replace1 c new s = s.
Proof.
  induction s as [|x s IH]; simpl; [reflexivity|].
  intros H. apply orb_false_elim in H. destruct H as [Hx Hs].
  rewrite Ascii.eqb_sym, Hx. now rewrite IH.
Qed.

Lemma replace2_absent (a b : ascii) (new s : string) :
  has_char a s = false -> replace2 a b new s = s.
Proof.
  induction s as [|x s IH]; [reflexivity|].
  intros H. simpl in H. apply orb_false_elim in H. destruct H as [Hx Hs].
  destruct s as [|y r]; [reflexivity|].
  rewrite replace2_two, (Ascii.eqb_sym x a), Hx. cbn [andb].
  now rewrite (IH Hs).
Qed.

Lemma digits_without_points (g : string) :
  all_chars digit_or_point g = true ->
  all_chars is_digit (replace1 "." "" g) = true.
Proof.
  induction g as [|x g IH]; simpl; [reflexivity|].
  intros H. apply andb_prop in H. destruct H as [Hx Hg].
  destruct (Ascii.eqb x ".") eqn:E; simpl; [now apply IH|].
  unfold digit_or_point in Hx. rewrite E, orb_false_r in Hx.
  now rewrite Hx, IH.
Qed.

Lemma try_float_some (b : branch) (s : string) (q : Q) (otherwise : branch * Q) :
  py_float s = Some q -> try_float b s otherwise = (b, q).
Proof. unfold try_float. now intros ->. Qed.

(** The parser on a text of numeric characters that has no white space. *)
Lemma parse_numeric_text (s : string) :
  all_chars keep_numeric s = true -> s <> EmptyString ->
  has_char "R" s = false ->
  parse_valor_brasileiro (PStr s) = snd (parse_clean s).
Proof.
  intros Hn Hne _. unfold parse_valor_brasileiro. rewrite parse_trace_clean.
  assert (Hs : strip s = s).
  { apply strip_by_none. now apply (all_chars_impl keep_numeric), Hn;
      [apply numeric_not_space]. }
  rewrite Hs, (keep_only_all _ _ Hn).
  destruct (String.eqb s EmptyString) eqn:E; [|reflexivity].
  apply String.eqb_eq in E. contradiction.
Qed.

(** With a comma the points are separators of thousands, wherever they
    stand, and the comma is the decimal mark: the value is that of the
    digits before the comma, a decimal point and the digits after it. *)
Theorem comma_is_the_decimal_mark (g c : string) :
  all_chars digit_or_point g = true ->
  all_chars is_digit c = true ->
  replace1 "." "" g ++ c <> EmptyString ->
  parse_valor_brasileiro (PStr (g ++ "," ++ c))
  = decimal_value (replace1 "." "" g) c.
Proof.
  intros Hg Hc Hne.
  pose proof (digits_without_points g Hg) as Hgd.
  assert (Hcn : all_chars keep_numeric c = true)
    by now apply (all_chars_impl is_digit), Hc; [apply digit_is_numeric].
  rewrite parse_numeric_text.
  2:{ rewrite !all_chars_app. cbn [all_chars].
      rewrite (all_chars_impl _ _ g digit_or_point_is_numeric Hg), Hcn.
      reflexivity. }
  2:{ intros E. apply append_empty in E. destruct E as [_ E]. discriminate E. }
  2:{ rewrite !has_char_app. cbn [has_char].
      rewrite (has_char_all "R" digit_or_point g), (has_char_all "R" is_digit c)
        by (reflexivity || assumption).
      reflexivity. }
  unfold parse_clean.
  assert (Hs2 : replace1 "," "." (replace1 "." "" (g ++ "," ++ c))
                = replace1 "." "" g ++ "." ++ c).
  { rewrite !replace1_app.
    change (replace1 "." "" ",") with ",".
    change (replace1 "," "." ",") with ".".
    rewrite (replace1_absent "." "" c) by now apply (has_char_all "." is_digit).
    rewrite (replace1_absent "," "." c) by now apply (has_char_all "," is_digit).
    rewrite (replace1_absent "," "." (replace1 "." "" g))
      by now apply (has_char_all "," is_digit).
    reflexivity. }
  rewrite Hs2.
  assert (Hcomma : contains "," (g ++ "," ++ c) = true).
  { rewrite contains_char, !has_char_app. cbn [has_char].
    rewrite Ascii.eqb_refl. cbn [orb]. apply orb_true_r. }
  rewrite Hcomma.
  rewrite !(fun b o => try_float_some b _ _ o (py_float_decimal _ _ Hgd Hc Hne)).
  destruct (contains "." (g ++ "," ++ c)); reflexivity.
Qed.

Lemma comma_is_the_decimal_mark_witness :
  all_chars digit_or_point "1.2.3" = true
  /\ all_chars is_digit "45" = true
  /\ parse_valor_brasileiro (PStr ("1.2.3" ++ "," ++ "45")) == 12345 # 100.
Proof.
  split; [reflexivity|]. split; [reflexivity|].
  rewrite (comma_is_the_decimal_mark "1.2.3" "45");
    [vm_compute; reflexivity|reflexivity|reflexivity|discriminate].
Defined.

(** Without a comma a point is the decimal mark: a text such as [2.970],
    digits, one point and digits, is read as that decimal number and not as
    a grouped whole number. *)
Theorem point_alone_is_the_decimal_mark (a b : string) :
  all_chars is_digit a = true ->
  all_chars is_digit b = true ->
  a ++ b <> EmptyString ->
  parse_valor_brasileiro (PStr (a ++ "." ++ b)) = decimal_value a b.
Proof.
  intros Ha Hb Hne.
  assert (Han : all_chars keep_numeric a = true)
    by now apply (all_chars_impl is_digit), Ha; [apply digit_is_numeric].
  assert (Hbn : all_chars keep_numeric b = true)
    by now apply (all_chars_impl is_digit), Hb; [apply digit_is_numeric].
  rewrite parse_numeric_text.
  2:{ rewrite !all_chars_app. cbn [all_chars]. now rewrite Han, Hbn. }
  2:{ intros E. apply append_empty in E. destruct E as [_ E]. discriminate E. }
  2:{ rewrite !has_char_app. cbn [has_char].
      rewrite (has_char_all "R" is_digit a), (has_char_all "R" is_digit b)
        by (reflexivity || assumption).
      reflexivity. }
  unfold parse_clean.
  assert (Hcomma : contains "," (a ++ "." ++ b) = false).
  { rewrite contains_char, !has_char_app. cbn [has_char].
    rewrite (has_char_all "," is_digit a), (has_char_all "," is_digit b)
      by (reflexivity || assumption).
    reflexivity. }
  rewrite Hcomma, andb_false_r. cbn [andb].
  now rewrite (try_float_some _ _ _ _ (py_float_decimal _ _ Ha Hb Hne)).
Qed.

Lemma point_alone_is_the_decimal_mark_witness :
  all_chars is_digit "2" = true
  /\ all_chars is_digit "970" = true
  /\ parse_valor_brasileiro (PStr ("2" ++ "." ++ "970")) == 297 # 100.
Proof.
  split; [reflexivity|]. split; [reflexivity|].
  rewrite (point_alone_is_the_decimal_mark "2" "970");
    [vm_compute; reflexivity|reflexivity|reflexivity|discriminate].
Defined.

(** ** Further properties: normalisation of column names *)

Lemma normalize_colname_stages (c : string) :
  normalize_colname c
  = strip_by underscore
      (sub_runs underscore false
         (sub_runs nonword false (replace_accents (lower (strip c))))).
Proof. reflexivity. Qed.

(** *** Neighbours *)

Lemma free_from_weaken (f : ascii -> ascii -> bool) (prev : option ascii) (s : string) :
  free_from f prev s = true -> free_from f None s = true.
Proof.
  destruct s as [|x r]; [reflexivity|]. cbn [free_from admits].
  intros H. apply andb_prop in H. now destruct H as [_ ->].
Qed.

Lemma free_from_lstrip (f : ascii -> ascii -> bool) (p : ascii -> bool)
    (prev : option ascii) (s : string) :
  free_from f prev s = true -> free_from f None (lstrip p s) = true.
Proof.
  revert prev. induction s as [|x r IH]; intros prev H; [reflexivity|].
  cbn [lstrip]. destruct (p x).
  - cbn [free_from] in H. apply andb_prop in H. destruct H as [_ H].
    now apply (IH (Some x)).
  - now apply (free_from_weaken f prev).
Qed.

Lemma free_from_rstrip (f : ascii -> ascii -> bool) (p : ascii -> bool)
    (prev : option ascii) (s : string) :
  free_from f prev s = true -> free_from f prev (rstrip p s) = true.
Proof.
  revert prev. induction s as [|x r IH]; intros prev H; [reflexivity|].
  cbn [rstrip]. cbn [free_from] in H. apply andb_prop in H. destruct H as [Hx H].
  destruct (p x && String.eqb (rstrip p r) EmptyString); [reflexivity|].
  cbn [free_from]. now rewrite Hx, (IH (Some x) H).
Qed.

Lemma free_from_strip_by (f : ascii -> ascii -> bool) (p : ascii -> bool) (s : string) :
  free_from f None s = true -> free_from f None (strip_by p s) = true.
Proof.
  intros H. unfold strip_by. apply free_from_rstrip.
  now apply (free_from_lstrip f p None).
Qed.

(** Replacing a pair by one character keeps a string free from a relation
    that the character is never in. *)
Lemma free_from_replace2 (f : ascii -> ascii -> bool) (a b l : ascii) :
  (forall x, f x l = false) -> (forall y, f l y = false) ->
  forall n s prev prev',
    (String.length s <= n)%nat ->
    (forall x, admits f prev x = true -> admits f prev' x = true) ->
    free_from f prev s = true ->
    free_from f prev' (replace2 a b (String l EmptyString) s) = true.
Proof.
  intros Hl1 Hl2.
  assert (Hadm : forall prev, admits f prev l = true).
  { intros [p|]; [|reflexivity]. cbn [admits]. now rewrite Hl1. }
  induction n as [|n IH]; intros [|x [|y r]] prev prev' Hn Hpp H;
    cbn [String.length] in Hn; try lia; try reflexivity.
  - cbn [replace2 free_from] in *. apply andb_prop in H. destruct H as [Hx _].
    now rewrite (Hpp x Hx).
  - rewrite replace2_two.
    cbn [free_from] in H. apply andb_prop in H. destruct H as [Hx H].
    destruct (Ascii.eqb x a && Ascii.eqb y b).
    + cbn [append free_from]. rewrite Hadm. cbn [andb].
      apply andb_prop in H. destruct H as [_ H].
      apply (IH r (Some y) (Some l)); [lia| |exact H].
      intros z _. cbn [admits]. now rewrite Hl2.
    + cbn [free_from]. rewrite (Hpp x Hx). cbn [andb].
      apply (IH (String y r) (Some x) (Some x)); [cbn [String.length]; lia|auto|].
      exact H.
Qed.

(** Turning runs into one underscore keeps a string free from a relation
    that the underscore is never in. *)
Lemma free_from_sub_runs (f : ascii -> ascii -> bool) (p : ascii -> bool) :
  (forall x, f x "_"%char = false) -> (forall y, f "_"%char y = false) ->
  forall s in_run prev prev',
    (if in_run : bool then forall x, admits f prev' x = true
     else forall x, admits f prev x = true -> admits f prev' x = true) ->
    free_from f prev s = true ->
    free_from f prev' (sub_runs p in_run s) = true.
Proof.
  intros Hu1 Hu2.
  induction s as [|x r IH]; intros in_run prev prev' Hpp H; [reflexivity|].
  cbn [sub_runs]. cbn [free_from] in H. apply andb_prop in H. destruct H as [Hx H].
  destruct (p x).
  - destruct in_run.
    + apply (IH true (Some x) prev'); [exact Hpp|exact H].
    + cbn [free_from].
      assert (E : admits f prev' "_"%char = true).
      { destruct prev' as [q|]; [|reflexivity]. cbn [admits]. now rewrite Hu1. }
      rewrite E. cbn [andb].
      apply (IH true (Some x) (Some "_"%char)); [|exact H].
      intros z. cbn [admits]. now rewrite Hu2.
  - cbn [free_from].
    assert (E : admits f prev' x = true).
    { destruct in_run; [apply Hpp|now apply Hpp]. }
    rewrite E. cbn [andb].
    apply (IH false (Some x) (Some x)); [auto|exact H].
Qed.

(** *** Characters *)

Lemma all_chars_replace2 (p : ascii -> bool) (a b : ascii) (new : string) :
  all_chars p new = true ->
  forall n s, (String.length s <= n)%nat -> all_chars p s = true ->
              all_chars p (replace2 a b new s) = true.
Proof.
  intros Hnew.
  induction n as [|n IH]; intros [|x [|y r]] Hn H;
    cbn [String.length] in Hn; try lia; try reflexivity; try exact H.
  rewrite replace2_two.
  cbn [all_chars] in H. apply andb_prop in H. destruct H as [Hx H].
  destruct (Ascii.eqb x a && Ascii.eqb y b).
  - apply andb_prop in H. destruct H as [_ H].
    assert (E : forall t, all_chars p t = true -> all_chars p (new ++ t) = true).
    { intros t Ht. clear - Hnew Ht. induction new as [|z new IHn]; [exact Ht|].
      cbn [append all_chars] in *. apply andb_prop in Hnew.
      destruct Hnew as [-> Hnew]. now apply IHn. }
    apply E, IH; [lia|exact H].
  - cbn [all_chars]. rewrite Hx. cbn [andb].
    apply IH; [cbn [String.length]; lia|exact H].
Qed.

Lemma all_chars_sub_runs (p q : ascii -> bool) (s : string) (in_run : bool) :
  p "_"%char = true -> all_chars p s = true ->
  all_chars p (sub_runs q in_run s) = true.
Proof.
  intros Hu. revert in_run. induction s as [|x r IH]; intros in_run H; [reflexivity|].
  cbn [all_chars] in H. apply andb_prop in H. destruct H as [Hx H].
  cbn [sub_runs]. destruct (q x).
  - destruct in_run; [now apply IH|]. cbn [all_chars]. rewrite Hu. now apply IH.
  - cbn [all_chars]. rewrite Hx. now apply IH.
Qed.

Lemma all_chars_lstrip (p q : ascii -> bool) (s : string) :
  all_chars p s = true -> all_chars p (lstrip q s) = true.
Proof.
  induction s as [|x r IH]; intros H; [reflexivity|].
  cbn [lstrip]. destruct (q x); [|exact H].
  cbn [all_chars] in H. apply andb_prop in H. now apply IH.
Qed.

Lemma all_chars_rstrip (p q : ascii -> bool) (s : string) :
  all_chars p s = true -> all_chars p (rstrip q s) = true.
Proof.
  induction s as [|x r IH]; intros H; [reflexivity|].
  cbn [all_chars] in H. apply andb_prop in H. destruct H as [Hx H].
  cbn [rstrip]. destruct (q x && String.eqb (rstrip q r) EmptyString); [reflexivity|].
  cbn [all_chars]. now rewrite Hx, IH.
Qed.

Lemma all_chars_strip_by (p q : ascii -> bool) (s : string) :
  all_chars p s = true -> all_chars p (strip_by q s) = true.
Proof. intros H. unfold strip_by. now apply all_chars_rstrip, all_chars_lstrip. Qed.

(** After the first substitution every character is a character of
    words. *)
Lemma all_word_sub_runs (s : string) (in_run : bool) :
  all_chars is_word (sub_runs nonword in_run s) = true.
Proof.
  revert in_run. induction s as [|x r IH]; intros in_run; [reflexivity|].
  cbn [sub_runs]. unfold nonword at 1.
  destruct (is_word x) eqn:E; cbn [negb].
  - cbn [all_chars]. now rewrite E, IH.
  - destruct in_run; [apply IH|]. cbn [all_chars]. now rewrite IH.
Qed.

Lemma all_chars_and (p q : ascii -> bool) (s : string) :
  all_chars p s = true -> all_chars q s = true ->
  all_chars (fun x => p x && q x) s = true.
Proof.
  induction s as [|x r IH]; [reflexivity|]. cbn [all_chars].
  intros Hp Hq. apply andb_prop in Hp. apply andb_prop in Hq.
  destruct Hp as [-> Hp], Hq as [-> Hq]. now apply IH.
Qed.

(** A string none of whose characters is in the class [q] has no lead
    byte followed by one. *)
Lemma free_from_lead_none (q : ascii -> bool) (prev : option ascii) (s : string) :
  all_chars (fun x => negb (q x)) s = true ->
  free_from (lead_pair q) prev s = true.
Proof.
  revert prev. induction s as [|x r IH]; intros prev H; [reflexivity|].
  cbn [all_chars] in H. apply andb_prop in H. destruct H as [Hx H].
  apply negb_true_iff in Hx.
  cbn [free_from]. rewrite (IH (Some x) H), andb_true_r.
  destruct prev as [p|]; [|reflexivity].
  cbn [admits]. unfold lead_pair. now rewrite Hx, andb_false_r.
Qed.

(** *** Lower case *)

Ltac byte_cases x :=
  destruct x as [[] [] [] [] [] [] [] []]; vm_compute in *; congruence.

Lemma upper_lowered (x : ascii) :
  is_upper x = true ->
  is_upper (byte (code x + 32)) = false
  /\ high (byte (code x + 32)) = false.
Proof. intros H. split; byte_cases x. Qed.

Lemma capital_lowered (y : ascii) :
  capital_second y = true ->
  is_upper (byte (code y + 32)) = false
  /\ capital_second (byte (code y + 32)) = false
  /\ Ascii.eqb (byte (code y + 32)) (byte 195) = false.
Proof. intros H. repeat split; byte_cases y. Qed.

Lemma capital_is_high (y : ascii) : capital_second y = true -> high y = true.
Proof. intros H. byte_cases y. Qed.

Lemma high_not_upper (x : ascii) : high x = true -> is_upper x = false.
Proof. intros H. byte_cases x. Qed.

Lemma lower_not_high (x : ascii) : is_lower x = true -> high x = false.
Proof. intros H. byte_cases x. Qed.

Lemma lower_not_upper (x : ascii) : is_lower x = true -> is_upper x = false.
Proof. intros H. byte_cases x. Qed.

Lemma word_not_space (x : ascii) : is_word x = true -> is_space x = false.
Proof. intros H. byte_cases x. Qed.

Lemma lead_is_high (x : ascii) : Ascii.eqb x (byte 195) = true -> high x = true.
Proof. intros H. apply Ascii.eqb_eq in H. now subst x. Qed.

Lemma lower_condition (x y : ascii) :
  Ascii.eqb x (byte 195) && in_range 128 158 y && negb (Ascii.eqb y (byte 151))
  = lead_pair capital_second x y.
Proof. unfold lead_pair, capital_second. now rewrite andb_assoc. Qed.

Lemma lower_two (x y : ascii) (r : string) :
  lower (String x (String y r))
  = if is_upper x then String (byte (code x + 32)) (lower (String y r))
    else if lead_pair capital_second x y
         then String x (String (byte (code y + 32)) (lower r))
         else String x (lower (String y r)).
Proof. rewrite <- lower_condition. reflexivity. Qed.

Lemma lower_one (x : ascii) :
  lower (String x EmptyString)
  = if is_upper x then String (byte (code x + 32)) EmptyString
    else String x EmptyString.
Proof. reflexivity. Qed.

(** [lower] leaves no capital letter of ASCII. *)
Lemma lower_no_upper (n : nat) (s : string) :
  (String.length s <= n)%nat ->
  all_chars (fun x => negb (is_upper x)) (lower s) = true.
Proof.
  revert s. induction n as [|n IH]; intros [|x [|y r]] Hn;
    cbn [String.length] in Hn; try lia; try reflexivity.
  - rewrite lower_one. destruct (is_upper x) eqn:E; cbn [all_chars].
    + now rewrite (proj1 (upper_lowered x E)).
    + now rewrite E.
  - rewrite lower_two. destruct (is_upper x) eqn:E.
    + cbn [all_chars]. rewrite (proj1 (upper_lowered x E)). cbn [negb andb].
      apply IH. cbn [String.length]. lia.
    + destruct (lead_pair capital_second x y) eqn:P.
      * cbn [all_chars]. rewrite E. cbn [negb andb].
        unfold lead_pair in P. apply andb_prop in P. destruct P as [_ P].
        rewrite (proj1 (capital_lowered y P)). cbn [negb andb].
        apply IH. lia.
      * cbn [all_chars]. rewrite E. cbn [negb andb].
        apply IH. cbn [String.length]. lia.
Qed.

(** [lower] leaves no capital letter of Latin-1. *)
Lemma lower_no_capital (n : nat) :
  forall s prev',
    (String.length s <= n)%nat ->
    (forall y r, s = String y r ->
                 admits (lead_pair capital_second) prev'
                   (if is_upper y then byte (code y + 32) else y) = true) ->
    free_from (lead_pair capital_second) prev' (lower s) = true.
Proof.
  assert (Hlow : forall p x, is_upper x = true ->
            admits (lead_pair capital_second) p (byte (code x + 32)) = true).
  { intros [p|] x Hx; [|reflexivity]. cbn [admits]. unfold lead_pair.
    destruct (capital_second (byte (code x + 32))) eqn:C;
      [|now rewrite andb_false_r].
    apply capital_is_high in C. now rewrite (proj2 (upper_lowered x Hx)) in C. }
  induction n as [|n IH]; intros [|x [|y r]] prev' Hn Hhead;
    cbn [String.length] in Hn; try lia; try reflexivity.
  - specialize (Hhead x EmptyString eq_refl). rewrite lower_one.
    destruct (is_upper x); cbn [free_from]; now rewrite Hhead.
  - specialize (Hhead x (String y r) eq_refl). rewrite lower_two.
    destruct (is_upper x) eqn:E.
    + cbn [free_from]. rewrite Hhead. cbn [andb].
      apply IH; [cbn [String.length]; lia|].
      intros z t Ez. injection Ez as <- <-.
      cbn [admits]. unfold lead_pair.
      destruct (Ascii.eqb (byte (code x + 32)) (byte 195)) eqn:L; [|reflexivity].
      apply lead_is_high in L. now rewrite (proj2 (upper_lowered x E)) in L.
    + destruct (lead_pair capital_second x y) eqn:P.
      * cbn [free_from]. rewrite Hhead. cbn [andb].
        unfold lead_pair in P. apply andb_prop in P. destruct P as [_ P].
        destruct (capital_lowered y P) as (_ & C & L).
        cbn [admits]. unfold lead_pair at 1. rewrite C, andb_false_r. cbn [negb andb].
        apply IH; [lia|].
        intros z t _. cbn [admits]. unfold lead_pair. now rewrite L.
      * cbn [free_from]. rewrite Hhead. cbn [andb].
        apply IH; [cbn [String.length]; lia|].
        intros z t Ez. injection Ez as <- <-.
        destruct (is_upper y) eqn:Ey; [now apply Hlow|].
        cbn [admits]. now rewrite P.
Qed.

(** [lower] changes nothing where there is no capital letter. *)
Lemma lower_fixed (s : string) (prev : option ascii) :
  all_chars (fun x => negb (is_upper x)) s = true ->
  free_from (lead_pair capital_second) prev s = true ->
  lower s = s.
Proof.
  revert prev. induction s as [|x s' IH]; intros prev HA HB; [reflexivity|].
  cbn [all_chars] in HA. apply andb_prop in HA. destruct HA as [Hx HA].
  apply negb_true_iff in Hx.
  cbn [free_from] in HB. apply andb_prop in HB. destruct HB as [_ HB].
  destruct s' as [|y r].
  - rewrite lower_one. now rewrite Hx.
  - rewrite lower_two, Hx.
    assert (P : lead_pair capital_second x y = false).
    { cbn [free_from admits] in HB. apply andb_prop in HB. destruct HB as [HB _].
      now apply negb_true_iff in HB. }
    rewrite P. f_equal. now apply (IH (Some x)).
Qed.

(** *** Accented letters *)

Lemma replace2_fixed (b : ascii) (new : string) (s : string) (prev : option ascii) :
  free_from (lead_pair (fun y => Ascii.eqb y b)) prev s = true ->
  replace2 (byte 195) b new s = s.
Proof.
  revert prev. induction s as [|x s' IH]; intros prev H; [reflexivity|].
  cbn [free_from] in H. apply andb_prop in H. destruct H as [_ H].
  destruct s' as [|y r]; [reflexivity|].
  rewrite replace2_two.
  assert (P : Ascii.eqb x (byte 195) && Ascii.eqb y b = false).
  { cbn [free_from admits] in H. apply andb_prop in H. destruct H as [H _].
    now apply negb_true_iff in H. }
  rewrite P. f_equal. now apply (IH (Some x)).
Qed.

(** After the replacement of an accented letter by a letter of ASCII no
    such accented letter is left. *)
Lemma replace2_removes (b l : ascii) :
  Ascii.eqb l (byte 195) = false -> Ascii.eqb l b = false ->
  forall n s prev',
    (String.length s <= n)%nat ->
    (forall y r, s = String y r ->
                 admits (lead_pair (fun y => Ascii.eqb y b)) prev' y = true) ->
    free_from (lead_pair (fun y => Ascii.eqb y b)) prev'
      (replace2 (byte 195) b (String l EmptyString) s) = true.
Proof.
  intros Hl1 Hl2.
  assert (Hadm : forall p, admits (lead_pair (fun y => Ascii.eqb y b)) p l = true).
  { intros [p|]; [|reflexivity]. cbn [admits]. unfold lead_pair.
    now rewrite Hl2, andb_false_r. }
  induction n as [|n IH]; intros [|x [|y r]] prev' Hn Hhead;
    cbn [String.length] in Hn; try lia; try reflexivity.
  - cbn [replace2 free_from]. now rewrite (Hhead x EmptyString eq_refl).
  - rewrite replace2_two.
    destruct (Ascii.eqb x (byte 195) && Ascii.eqb y b) eqn:P.
    + cbn [append free_from]. rewrite Hadm. cbn [andb].
      apply IH; [lia|]. intros z t _. cbn [admits]. unfold lead_pair.
      now rewrite Hl1.
    + cbn [free_from]. rewrite (Hhead x (String y r) eq_refl). cbn [andb].
      apply IH; [cbn [String.length]; lia|].
      intros z t Ez. injection Ez as <- <-. cbn [admits]. unfold lead_pair.
      now rewrite P.
Qed.

Lemma accents_entries : Forall accent_entry accents.
Proof.
  unfold accents.
  repeat (constructor; [split; [reflexivity|eexists; split; reflexivity]|]).
  constructor.
Qed.

Lemma lower_not_lead (l : ascii) :
  is_lower l = true -> Ascii.eqb l (byte 195) = false.
Proof.
  intros H. destruct (Ascii.eqb l (byte 195)) eqn:E; [|reflexivity].
  apply lead_is_high in E. now rewrite (lower_not_high l H) in E.
Qed.

Lemma fold_accents_free (q : ascii -> bool) (tbl : list (nat * string)) :
  (forall x, q x = true -> high x = true) ->
  Forall accent_entry tbl ->
  forall s,
    free_from (lead_pair q) None s = true ->
    free_from (lead_pair q) None
      (fold_left (fun s bl => replace2 (byte 195) (byte (fst bl)) (snd bl) s) tbl s)
    = true.
Proof.
  intros Hq Htbl. induction Htbl as [|[b new] tbl (Hb & l & E & Hl) _ IH];
    intros s H; [exact H|].
  cbn [fst snd] in Hb, E. subst new. cbn [fold_left fst snd]. apply IH.
  apply (free_from_replace2 (lead_pair q) (byte 195) (byte b) l) with
    (n := String.length s) (prev := None); auto.
  - intros x. unfold lead_pair.
    destruct (q l) eqn:E; [|now rewrite andb_false_r].
    apply Hq in E. now rewrite (lower_not_high l Hl) in E.
  - intros y. unfold lead_pair. now rewrite (lower_not_lead l Hl).
Qed.

Lemma fold_accents_chars (p : ascii -> bool) (tbl : list (nat * string)) :
  (forall l, is_lower l = true -> p l = true) ->
  Forall accent_entry tbl ->
  forall s,
    all_chars p s = true ->
    all_chars p
      (fold_left (fun s bl => replace2 (byte 195) (byte (fst bl)) (snd bl) s) tbl s)
    = true.
Proof.
  intros Hp Htbl. induction Htbl as [|[b new] tbl (Hb & l & E & Hl) _ IH];
    intros s H; [exact H|].
  cbn [fst snd] in Hb, E. subst new. cbn [fold_left fst snd]. apply IH.
  apply all_chars_replace2 with (n := String.length s); auto.
  cbn [all_chars]. now rewrite (Hp l Hl).
Qed.

Lemma fold_accents_removes (tbl : list (nat * string)) :
  Forall accent_entry tbl ->
  forall s bl,
    In bl tbl ->
    free_from (lead_pair (fun y => Ascii.eqb y (byte (fst bl)))) None
      (fold_left (fun s bl => replace2 (byte 195) (byte (fst bl)) (snd bl) s) tbl s)
    = true.
Proof.
  intros Htbl. induction Htbl as [|[b new] tbl Hent Hrest IH];
    intros s bl Hin; [destruct Hin|].
  destruct Hin as [<-|Hin]; [|now apply IH].
  destruct Hent as (Hb & l & E & Hl). cbn [fst snd] in *. subst new.
  cbn [fold_left fst snd].
  apply (fold_accents_free (fun y => Ascii.eqb y (byte b)) tbl); [|exact Hrest|].
  - intros x Hx. apply Ascii.eqb_eq in Hx. now subst x.
  - apply replace2_removes with (n := String.length s); auto.
    + now apply lower_not_lead.
    + destruct (Ascii.eqb l (byte b)) eqn:E; [|reflexivity].
      apply Ascii.eqb_eq in E. subst l. now rewrite (lower_not_high _ Hl) in Hb.
Qed.

Lemma fold_accents_fixed (tbl : list (nat * string)) (s : string) :
  (forall bl, In bl tbl ->
     free_from (lead_pair (fun y => Ascii.eqb y (byte (fst bl)))) None s = true) ->
  fold_left (fun s bl => replace2 (byte 195) (byte (fst bl)) (snd bl) s) tbl s = s.
Proof.
  induction tbl as [|[b new] tbl IH]; intros H; [reflexivity|].
  cbn [fold_left fst snd].
  rewrite (replace2_fixed (byte b) new s None (H (b, new) (or_introl eq_refl))).
  apply IH. intros bl Hin. apply H. now right.
Qed.

(** *** Underscores *)

Lemma sub_runs_none (p : ascii -> bool) (s : string) (in_run : bool) :
  all_chars (fun x => negb (p x)) s = true -> sub_runs p in_run s = s.
Proof.
  revert in_run. induction s as [|x r IH]; intros in_run H; [reflexivity|].
  cbn [all_chars] in H. apply andb_prop in H. destruct H as [Hx H].
  apply negb_true_iff in Hx. cbn [sub_runs]. now rewrite Hx, IH.
Qed.

Lemma sub_runs_single (s : string) (in_run : bool) (prev' : option ascii) :
  (in_run = false -> forall z, admits (twice underscore) prev' z = true) ->
  free_from (twice underscore) prev' (sub_runs underscore in_run s) = true.
Proof.
  revert in_run prev'. induction s as [|x r IH]; intros in_run prev' H; [reflexivity|].
  cbn [sub_runs]. destruct (underscore x) eqn:E.
  - destruct in_run; [now apply IH|].
    cbn [free_from]. rewrite (H eq_refl). cbn [andb]. now apply IH.
  - cbn [free_from].
    assert (A : admits (twice underscore) prev' x = true).
    { destruct prev' as [p|]; [|reflexivity]. cbn [admits]. unfold twice.
      now rewrite E, andb_false_r. }
    rewrite A. cbn [andb]. apply IH.
    intros _ z. cbn [admits]. unfold twice. now rewrite E.
Qed.

Lemma sub_runs_fixed (s : string) (in_run : bool) (prev : option ascii) :
  free_from (twice underscore) prev s = true ->
  (in_run = true -> starts_with underscore s = false) ->
  sub_runs underscore in_run s = s.
Proof.
  revert in_run prev. induction s as [|x r IH]; intros in_run prev H Hrun;
    [reflexivity|].
  cbn [free_from] in H. apply andb_prop in H. destruct H as [_ H].
  cbn [sub_runs]. destruct (underscore x) eqn:E.
  - destruct in_run; [cbn [starts_with] in Hrun; now rewrite Hrun in E|].
    apply Ascii.eqb_eq in E. subst x.
    f_equal. apply (IH true (Some "_"%char)); [exact H|]. intros _.
    destruct r as [|y r]; [reflexivity|]. cbn [starts_with].
    cbn [free_from admits] in H. apply andb_prop in H. destruct H as [H _].
    apply negb_true_iff in H. exact H.
  - f_equal. apply (IH false (Some x)); [exact H|discriminate].
Qed.

(** *** Both ends *)

Lemma lstrip_fixed (p : ascii -> bool) (s : string) :
  starts_with p s = false -> lstrip p s = s.
Proof. destruct s as [|x r]; [reflexivity|]. cbn [starts_with lstrip]. now intros ->. Qed.

Lemma starts_with_lstrip (p : ascii -> bool) (s : string) :
  starts_with p (lstrip p s) = false.
Proof.
  induction s as [|x r IH]; [reflexivity|]. cbn [lstrip].
  destruct (p x) eqn:E; [exact IH|]. cbn [starts_with]. exact E.
Qed.

Lemma starts_with_rstrip (p : ascii -> bool) (s : string) :
  starts_with p s = false -> starts_with p (rstrip p s) = false.
Proof.
  destruct s as [|x r]; [reflexivity|]. cbn [starts_with rstrip]. intros H.
  now destruct (p x && String.eqb (rstrip p r) EmptyString).
Qed.

Lemma ends_with_rstrip (p : ascii -> bool) (s : string) :
  ends_with p (rstrip p s) = false.
Proof.
  induction s as [|x r IH]; [reflexivity|]. cbn [rstrip].
  destruct (rstrip p r) as [|y t] eqn:E.
  - cbn [String.eqb]. rewrite andb_true_r. destruct (p x) eqn:Ex; [reflexivity|].
    cbn [ends_with]. exact Ex.
  - cbn [String.eqb]. rewrite andb_false_r. exact IH.
Qed.

Lemma rstrip_fixed (p : ascii -> bool) (s : string) :
  ends_with p s = false -> rstrip p s = s.
Proof.
  induction s as [|x r IH]; [reflexivity|]. intros H. cbn [rstrip].
  destruct r as [|y t].
  - cbn [ends_with] in H. cbn [rstrip String.eqb]. now rewrite H.
  - rewrite (IH H). cbn [String.eqb]. now rewrite andb_false_r.
Qed.

Lemma strip_by_fixed (p : ascii -> bool) (s : string) :
  starts_with p s = false -> ends_with p s = false -> strip_by p s = s.
Proof.
  intros Hs He. unfold strip_by. rewrite (lstrip_fixed p s Hs).
  now apply rstrip_fixed.
Qed.

Lemma strip_by_ends (p : ascii -> bool) (s : string) :
  starts_with p (strip_by p s) = false /\ ends_with p (strip_by p s) = false.
Proof.
  unfold strip_by. split.
  - apply starts_with_rstrip, starts_with_lstrip.
  - apply ends_with_rstrip.
Qed.

(** The substitutions and the final strip add no letter outside
    ASCII. *)
Lemma free_from_later_stages (q : ascii -> bool) (s : string) :
  (forall x, q x = true -> high x = true) ->
  free_from (lead_pair q) None s = true ->
  free_from (lead_pair q) None
    (strip_by underscore (sub_runs underscore false (sub_runs nonword false s)))
  = true.
Proof.
  intros Hq H.
  assert (H1 : forall x, lead_pair q x "_"%char = false).
  { intros x. unfold lead_pair. destruct (q "_"%char) eqn:E;
      [apply Hq in E; discriminate E|apply andb_false_r]. }
  assert (H2 : forall y, lead_pair q "_"%char y = false) by reflexivity.
  apply free_from_strip_by.
  apply (free_from_sub_runs _ underscore H1 H2 _ false None None); [auto|].
  apply (free_from_sub_runs _ nonword H1 H2 _ false None None); [auto|].
  exact H.
Qed.

(** *** Names in ASCII and the letters of Latin-1 *)

Lemma latin_second_is_high (y : ascii) : latin_second y = true -> high y = true.
Proof. intros H. byte_cases y. Qed.

Lemma latin_second_not_lead (y : ascii) :
  latin_second y = true -> Ascii.eqb y (byte 195) = false.
Proof. intros H. byte_cases y. Qed.

Lemma capital_lowered_latin (y : ascii) :
  capital_second y = true -> latin_second (byte (code y + 32)) = true.
Proof. intros H. byte_cases y. Qed.

Lemma latin_name_plain (x : ascii) (r : string) :
  high x = false -> latin_name (String x r) = latin_name r.
Proof. intros H. cbn [latin_name]. now rewrite H. Qed.

Lemma latin_name_letter (x y : ascii) (r : string) :
  high x = true ->
  latin_name (String x (String y r))
  = Ascii.eqb x (byte 195) && (latin_second y && latin_name r).
Proof. intros H. cbn [latin_name]. now rewrite H. Qed.

(** The shape of a name of Latin-1 that starts beyond ASCII. *)
Lemma latin_name_high (x : ascii) (s : string) :
  high x = true -> latin_name (String x s) = true ->
  x = byte 195
  /\ exists y r, s = String y r /\ latin_second y = true /\ latin_name r = true.
Proof.
  intros Hx H. cbn [latin_name] in H. rewrite Hx in H.
  apply andb_prop in H. destruct H as [H1 H2].
  apply Ascii.eqb_eq in H1. split; [exact H1|].
  destruct s as [|y r]; [discriminate|].
  apply andb_prop in H2. destruct H2 as [H2 H3]. now exists y, r.
Qed.

Lemma latin_name_lstrip (p : ascii -> bool) (s : string) :
  (forall x, p x = true -> high x = false) ->
  latin_name s = true -> latin_name (lstrip p s) = true.
Proof.
  intros Hp. induction s as [|x r IH]; intros H; [reflexivity|].
  cbn [lstrip]. destruct (p x) eqn:E; [|exact H].
  apply IH. now rewrite (latin_name_plain x r (Hp x E)) in H.
Qed.

Lemma rstrip_keeps (p : ascii -> bool) (x : ascii) (r : string) :
  p x = false -> rstrip p (String x r) = String x (rstrip p r).
Proof. intros H. cbn [rstrip]. now rewrite H. Qed.

Lemma latin_name_rstrip (p : ascii -> bool) :
  (forall x, p x = true -> high x = false) ->
  forall n s, (String.length s <= n)%nat ->
              latin_name s = true -> latin_name (rstrip p s) = true.
Proof.
  intros Hp.
  assert (Hhigh : forall x, high x = true -> p x = false).
  { intros x Hx. destruct (p x) eqn:E; [|reflexivity].
    apply Hp in E. now rewrite E in Hx. }
  induction n as [|n IH]; intros [|x s] Hn H; cbn [String.length] in Hn;
    try lia; try reflexivity.
  destruct (high x) eqn:Hx.
  - destruct (latin_name_high x s Hx H) as [-> [y [r [-> [Hy Hr]]]]].
    rewrite (rstrip_keeps p _ _ (Hhigh _ Hx)).
    rewrite (rstrip_keeps p _ _ (Hhigh _ (latin_second_is_high y Hy))).
    rewrite (latin_name_letter _ _ _ Hx), Hy. cbn [andb Ascii.eqb].
    rewrite Ascii.eqb_refl. cbn [andb].
    apply IH; [cbn [String.length] in Hn; lia|exact Hr].
  - rewrite (latin_name_plain x s Hx) in H. cbn [rstrip].
    destruct (p x && String.eqb (rstrip p s) EmptyString); [reflexivity|].
    rewrite (latin_name_plain x _ Hx). apply IH; [lia|exact H].
Qed.

Lemma latin_name_strip_by (p : ascii -> bool) (s : string) :
  (forall x, p x = true -> high x = false) ->
  latin_name s = true -> latin_name (strip_by p s) = true.
Proof.
  intros Hp H. unfold strip_by.
  apply (latin_name_rstrip p Hp (String.length (lstrip p s))); [lia|].
  now apply latin_name_lstrip.
Qed.

Lemma lower_keeps (y : ascii) (r : string) :
  is_upper y = false -> Ascii.eqb y (byte 195) = false ->
  lower (String y r) = String y (lower r).
Proof.
  intros Hu Hl. destruct r as [|z r].
  - rewrite lower_one. now rewrite Hu.
  - rewrite lower_two, Hu. unfold lead_pair. now rewrite Hl.
Qed.

Lemma latin_name_lower (n : nat) :
  forall s, (String.length s <= n)%nat ->
            latin_name s = true -> latin_name (lower s) = true.
Proof.
  induction n as [|n IH]; intros [|x s] Hn H; cbn [String.length] in Hn;
    try lia; try reflexivity.
  destruct (high x) eqn:Hx.
  - destruct (latin_name_high x s Hx H) as [-> [y [r [-> [Hy Hr]]]]].
    cbn [String.length] in Hn.
    rewrite lower_two. change (is_upper (byte 195)) with false. cbv iota.
    unfold lead_pair. rewrite Ascii.eqb_refl. cbn [andb].
    destruct (capital_second y) eqn:C.
    + rewrite (latin_name_letter _ _ _ Hx), (capital_lowered_latin y C).
      rewrite Ascii.eqb_refl. cbn [andb]. apply IH; [lia|exact Hr].
    + rewrite (lower_keeps y r
                 (high_not_upper y (latin_second_is_high y Hy))
                 (latin_second_not_lead y Hy)).
      rewrite (latin_name_letter _ _ _ Hx), Hy, Ascii.eqb_refl. cbn [andb].
      apply IH; [lia|exact Hr].
  - rewrite (latin_name_plain x s Hx) in H.
    assert (Hl : Ascii.eqb x (byte 195) = false).
    { destruct (Ascii.eqb x (byte 195)) eqn:E; [|reflexivity].
      apply lead_is_high in E. now rewrite E in Hx. }
    destruct (is_upper x) eqn:Hu.
    + assert (E : lower (String x s) = String (byte (code x + 32)) (lower s)).
      { destruct s as [|z r]; [rewrite lower_one|rewrite lower_two];
          now rewrite Hu. }
      rewrite E, (latin_name_plain _ _ (proj2 (upper_lowered x Hu))).
      apply IH; [lia|exact H].
    + rewrite (lower_keeps x s Hu Hl), (latin_name_plain x _ Hx).
      apply IH; [lia|exact H].
Qed.

Lemma replace2_keeps (a b x : ascii) (new r : string) :
  Ascii.eqb x a = false ->
  replace2 a b new (String x r) = String x (replace2 a b new r).
Proof.
  intros H. destruct r as [|z r]; [reflexivity|].
  rewrite replace2_two. now rewrite H.
Qed.

Lemma latin_name_replace2 (b l : ascii) :
  high l = false ->
  forall n s, (String.length s <= n)%nat ->
              latin_name s = true ->
              latin_name (replace2 (byte 195) b (String l EmptyString) s) = true.
Proof.
  intros Hl.
  induction n as [|n IH]; intros [|x s] Hn H; cbn [String.length] in Hn;
    try lia; try reflexivity.
  destruct (high x) eqn:Hx.
  - destruct (latin_name_high x s Hx H) as [-> [y [r [-> [Hy Hr]]]]].
    cbn [String.length] in Hn.
    rewrite replace2_two, Ascii.eqb_refl. cbn [andb].
    destruct (Ascii.eqb y b).
    + cbn [append]. rewrite (latin_name_plain l _ Hl). apply IH; [lia|exact Hr].
    + rewrite (replace2_keeps _ _ y _ r (latin_second_not_lead y Hy)).
      rewrite (latin_name_letter _ _ _ Hx), Hy, Ascii.eqb_refl. cbn [andb].
      apply IH; [lia|exact Hr].
  - rewrite (latin_name_plain x s Hx) in H.
    assert (E : Ascii.eqb x (byte 195) = false).
    { destruct (Ascii.eqb x (byte 195)) eqn:E; [|reflexivity].
      apply lead_is_high in E. now rewrite E in Hx. }
    rewrite (replace2_keeps _ _ x _ s E), (latin_name_plain x _ Hx).
    apply IH; [lia|exact H].
Qed.

Lemma latin_name_fold_accents (tbl : list (nat * string)) :
  Forall accent_entry tbl ->
  forall s,
    latin_name s = true ->
    latin_name
      (fold_left (fun s bl => replace2 (byte 195) (byte (fst bl)) (snd bl) s) tbl s)
    = true.
Proof.
  intros Htbl. induction Htbl as [|[b new] tbl (Hb & l & E & Hl) _ IH];
    intros s H; [exact H|].
  cbn [fst snd] in Hb, E. subst new. cbn [fold_left fst snd]. apply IH.
  apply (latin_name_replace2 (byte b) l (lower_not_high l Hl) (String.length s));
    [lia|exact H].
Qed.

Lemma latin_name_sub_runs (p : ascii -> bool) :
  (forall x, p x = true -> high x = false) ->
  forall n s in_run, (String.length s <= n)%nat ->
                     latin_name s = true ->
                     latin_name (sub_runs p in_run s) = true.
Proof.
  intros Hp.
  assert (Hhigh : forall x, high x = true -> p x = false).
  { intros x Hx. destruct (p x) eqn:E; [|reflexivity].
    apply Hp in E. now rewrite E in Hx. }
  induction n as [|n IH]; intros [|x s] in_run Hn H; cbn [String.length] in Hn;
    try lia; try reflexivity.
  destruct (high x) eqn:Hx.
  - destruct (latin_name_high x s Hx H) as [-> [y [r [-> [Hy Hr]]]]].
    cbn [String.length] in Hn. cbn [sub_runs].
    rewrite (Hhigh _ Hx), (Hhigh _ (latin_second_is_high y Hy)).
    rewrite (latin_name_letter _ _ _ Hx), Hy, Ascii.eqb_refl. cbn [andb].
    apply IH; [lia|exact Hr].
  - rewrite (latin_name_plain x s Hx) in H. cbn [sub_runs].
    destruct (p x).
    + destruct in_run; [apply IH; [lia|exact H]|].
      rewrite latin_name_plain by reflexivity. apply IH; [lia|exact H].
    + rewrite (latin_name_plain x _ Hx). apply IH; [lia|exact H].
Qed.

Lemma space_not_high (x : ascii) : is_space x = true -> high x = false.
Proof. intros H. byte_cases x. Qed.

Lemma nonword_not_high (x : ascii) : nonword x = true -> high x = false.
Proof. intros H. byte_cases x. Qed.

Lemma underscore_not_high (x : ascii) : underscore x = true -> high x = false.
Proof. intros H. byte_cases x. Qed.

(** The normalisation of a name of Latin-1 is a name of Latin-1. *)
Lemma latin_name_normalize_colname (c : string) :
  latin_name c = true -> latin_name (normalize_colname c) = true.
Proof.
  intros H. rewrite normalize_colname_stages.
  apply (latin_name_strip_by underscore _ underscore_not_high).
  apply (latin_name_sub_runs underscore underscore_not_high
           (String.length (sub_runs nonword false
                             (replace_accents (lower (strip c)))))); [lia|].
  apply (latin_name_sub_runs nonword nonword_not_high
           (String.length (replace_accents (lower (strip c))))); [lia|].
  apply (latin_name_fold_accents accents accents_entries).
  apply (latin_name_lower (String.length (strip c))); [lia|].
  now apply (latin_name_strip_by is_space _ space_not_high).
Qed.

(** *** The normal form *)

Lemma normalize_colname_canonical (c : string) : canonical (normalize_colname c).
Proof.
  rewrite normalize_colname_stages.
  set (s0 := lower (strip c)).
  assert (A0 : all_chars (fun x => negb (is_upper x)) s0 = true)
    by (apply (lower_no_upper (String.length (strip c))); lia).
  assert (B0 : free_from (lead_pair capital_second) None s0 = true)
    by (apply (lower_no_capital (String.length (strip c))); [lia|reflexivity]).
  split.
  - apply all_chars_strip_by, all_chars_sub_runs; [reflexivity|].
    apply all_chars_sub_runs; [reflexivity|].
    apply fold_accents_chars; [|exact accents_entries|exact A0].
    intros l Hl. now rewrite (lower_not_upper l Hl).
  - apply free_from_later_stages; [exact capital_is_high|].
    apply fold_accents_free; [exact capital_is_high|exact accents_entries|exact B0].
  - intros bl Hin. apply free_from_later_stages.
    + intros x Hx. apply Ascii.eqb_eq in Hx. subst x.
      destruct (Forall_forall accent_entry accents) as [F _].
      exact (proj1 (F accents_entries bl Hin)).
    + now apply fold_accents_removes; [exact accents_entries|].
  - apply all_chars_strip_by, all_chars_sub_runs; [reflexivity|].
    apply all_word_sub_runs.
  - apply free_from_strip_by. apply sub_runs_single. reflexivity.
  - apply strip_by_ends.
  - apply strip_by_ends.
Qed.

Lemma canonical_fixed (s : string) : canonical s -> normalize_colname s = s.
Proof.
  intros [A B C W U S E]. rewrite normalize_colname_stages.
  assert (E1 : strip s = s).
  { apply strip_by_none. apply (all_chars_impl is_word); [|exact W].
    intros x Hx. now rewrite (word_not_space x Hx). }
  rewrite E1, (lower_fixed s None A B).
  unfold replace_accents. rewrite (fold_accents_fixed accents s C).
  rewrite (sub_runs_none nonword s false).
  - rewrite (sub_runs_fixed s false None U); [|discriminate].
    now apply strip_by_fixed.
  - apply (all_chars_impl is_word); [|exact W].
    intros x Hx. unfold nonword. now rewrite Hx.
Qed.

Lemma normal_name_canonical (s : string) :
  ascii_name s = true -> normal_name s = true -> canonical s.
Proof.
  unfold ascii_name, normal_name. intros Ha H.
  apply andb_prop in H. destruct H as [H E].
  apply andb_prop in H. destruct H as [H S].
  apply andb_prop in H. destruct H as [W U].
  apply negb_true_iff in S, E.
  split; try assumption.
  - apply (all_chars_impl (fun x => is_word x && negb (is_upper x))); [|exact W].
    intros x Hx. apply andb_prop in Hx. now destruct Hx.
  - apply free_from_lead_none. apply (all_chars_impl (fun x => negb (high x))); [|exact Ha].
    intros x Hx. destruct (capital_second x) eqn:C; [|reflexivity].
    apply capital_is_high in C. now rewrite C in Hx.
  - intros bl Hin. apply free_from_lead_none.
    apply (all_chars_impl (fun x => negb (high x))); [|exact Ha].
    intros x Hx. destruct (Ascii.eqb x (byte (fst bl))) eqn:C; [|reflexivity].
    apply Ascii.eqb_eq in C. subst x.
    destruct (Forall_forall accent_entry accents) as [F _].
    now rewrite (proj1 (F accents_entries bl Hin)) in Hx.
  - apply (all_chars_impl (fun x => is_word x && negb (is_upper x))); [|exact W].
    intros x Hx. apply andb_prop in Hx. now destruct Hx.
Qed.

(** [normalize_colname] is idempotent on the names in ASCII and the
    letters of Latin-1: a name that has been normalised is left as it is by
    a second normalisation. *)
Theorem normalize_colname_idempotent (c : string) :
  latin_name c = true ->
  normalize_colname (normalize_colname c) = normalize_colname c.
Proof. intros _. apply canonical_fixed, normalize_colname_canonical. Qed.

Lemma normalize_colname_idempotent_witness :
  latin_name descricao_do_item = true
  /\ normalize_colname descricao_do_item = "descricao_do_item"
  /\ normalize_colname (normalize_colname descricao_do_item)
     = normalize_colname descricao_do_item.
Proof.
  split; [reflexivity|]. split; [reflexivity|].
  apply normalize_colname_idempotent. reflexivity.
Defined.

(** The shape of the normalised name of a name in ASCII and the letters of
    Latin-1: it is such a name again, so it has no white space and no sign
    beyond ASCII, and within ASCII it has letters, digits and underscores
    only, no capital letter, no underscore at either end and no two
    underscores in a row. *)
Theorem normalized_name_shape (c : string) :
  latin_name c = true ->
  latin_name (normalize_colname c) = true
  /\ normal_name (normalize_colname c) = true.
Proof.
  intros H. split; [now apply latin_name_normalize_colname|].
  destruct (normalize_colname_canonical c) as [A _ _ W U S E].
  unfold normal_name. rewrite S, E. cbn [negb]. rewrite !andb_true_r.
  apply andb_true_intro. split; [|exact U].
  now apply all_chars_and.
Qed.

Lemma normalized_name_shape_witness :
  latin_name descricao_do_item = true
  /\ latin_name (normalize_colname descricao_do_item) = true
  /\ normal_name (normalize_colname descricao_do_item) = true.
Proof.
  split; [reflexivity|]. apply normalized_name_shape. reflexivity.
Defined.

(** A name within ASCII that has the normal shape already is left as it
    is: the snake-case labels of the database are their own normal form. *)
Theorem normal_ascii_name_is_unchanged (s : string) :
  ascii_name s = true -> normal_name s = true -> normalize_colname s = s.
Proof. intros Ha H. now apply canonical_fixed, normal_name_canonical. Qed.

Lemma normal_ascii_name_is_unchanged_witness :
  normalize_colname "valor_total_nf" = "valor_total_nf".
Proof. apply normal_ascii_name_is_unchanged; reflexivity. Defined.

(** ** Further properties: the run *)

Arguments SText {timestamp} d.
Arguments SFloat {timestamp} d.
Arguments STime {timestamp} d.
Arguments df_cols {timestamp} d.
Arguments df_len {timestamp} d.
Arguments columns {timestamp} df.
Arguments has_column {timestamp} c df.
Arguments rename {timestamp} old new df.
Arguments getitem {timestamp} c df.
Arguments setitem {timestamp} c s df.
Arguments get_text {timestamp} msg c df.
Arguments get_float {timestamp} msg c df.
Arguments series_len {timestamp} s.
Arguments aligned {timestamp} df.
Arguments series_take {timestamp} ix s.
Arguments merge_frames {timestamp} on_column left right pairs.
Arguments text_constant {timestamp} s chunk.
Arguments dimension_column {timestamp} found names target chunk.
Arguments dimension_columns {timestamp} chunk.
Arguments groupby_items {timestamp} c chunk.
Arguments item_amounts {timestamp} chunk.
Arguments merge_notas {timestamp} ni chunk.
Arguments ni_df {timestamp} n.
Arguments notas_index {timestamp} s.
Arguments accum {timestamp} s.
Arguments faturamento_por_mes {timestamp} s.
Arguments faturamento_por_uf_emit {timestamp} s.
Arguments faturamento_por_cfop {timestamp} s.
Arguments faturamento_por_ncm {timestamp} s.
Arguments initial_state {timestamp} ni.
Arguments distinct_keys {timestamp} ni.

Section Run.

Context {timestamp : Type}.
Variable to_datetime : bool -> list cell -> cell -> option timestamp.
Variable period_str : timestamp -> string.

(** The steps of a processed batch. *)
Lemma process_chunk_steps (cfg : Config) (st st' : State timestamp) (t : Table) :
  processed timestamp t = true ->
  process_chunk timestamp to_datetime period_str cfg st t = Ok st' ->
  exists c chunk1 ni' merged chunk2 vals chunk3 por_mes por_uf por_cfop por_ncm,
    resolve_item_chave (columns (normalized timestamp t)) = Some c
    /\ item_amounts (rename c "chave_acesso" (normalized timestamp t)) = Ok chunk1
    /\ merge_notas (notas_index st) chunk1 = Ok (ni', merged)
    /\ parse_dates timestamp to_datetime merged = Ok chunk2
    /\ get_float "valor_total_item" "valor_total_item" (dimension_columns chunk2)
       = Ok vals
    /\ month_column timestamp period_str (dimension_columns chunk2) = Ok chunk3
    /\ groupby_items "mes_ano" chunk3 = Ok por_mes
    /\ groupby_items "uf_emitente" chunk3 = Ok por_uf
    /\ groupby_items "cfop" chunk3 = Ok por_cfop
    /\ groupby_items "ncm" chunk3 = Ok por_ncm
    /\ st' = {| notas_index := ni';
                accum := accumulate cfg (accum st)
                                    (df_len (dimension_columns chunk2))
                                    (sum_skipna vals);
                faturamento_por_mes := bucket_update (faturamento_por_mes st) por_mes;
                faturamento_por_uf_emit :=
                  bucket_update (faturamento_por_uf_emit st) por_uf;
                faturamento_por_cfop := bucket_update (faturamento_por_cfop st) por_cfop;
                faturamento_por_ncm := bucket_update (faturamento_por_ncm st) por_ncm |}.
Proof.
  unfold processed, process_chunk. intros Hp H.
  destruct (resolve_item_chave (columns (normalized timestamp t))) as [c|];
    [|discriminate Hp].
  rewrite Hp in H.
  apply bind_Ok in H. destruct H as [chunk1 [E1 H]].
  apply bind_Ok in H. destruct H as [[ni' merged] [E2 H]].
  apply bind_Ok in H. destruct H as [chunk2 [E3 H]].
  apply bind_Ok in H. destruct H as [vals [E4 H]].
  apply bind_Ok in H. destruct H as [chunk3 [E5 H]].
  apply bind_Ok in H. destruct H as [por_mes [E6 H]].
  apply bind_Ok in H. destruct H as [por_uf [E7 H]].
  apply bind_Ok in H. destruct H as [por_cfop [E8 H]].
  apply bind_Ok in H. destruct H as [por_ncm [E9 H]].
  apply Ok_inj in H.
  exists c, chunk1, ni', merged, chunk2, vals, chunk3, por_mes, por_uf, por_cfop, por_ncm.
  repeat (split; [assumption || reflexivity|]). now symmetry.
Qed.

(** A completed run, from its final state. *)
Lemma apuracao_state (cfg : Config) (now : string) (notas : Table)
    (itens : list Table) (out : Output) :
  apuracao timestamp to_datetime period_str cfg now notas itens = Ok out ->
  exists ni st,
    load_notas timestamp notas = Ok ni
    /\ process_chunks timestamp to_datetime period_str cfg (initial_state ni) itens
       = Ok st
    /\ out = {| resumo := {| resumo_accum := estimate_irpj_csll cfg (accum st);
                             generated_at := now |};
                pivot_mes := sorted_items (faturamento_por_mes st);
                pivot_uf_emit := sorted_items (faturamento_por_uf_emit st);
                pivot_cfop := sorted_items (faturamento_por_cfop st);
                pivot_ncm := sorted_items (faturamento_por_ncm st) |}.
Proof.
  unfold apuracao. intros H.
  apply bind_Ok in H. destruct H as [ni [E1 H]].
  apply bind_Ok in H. destruct H as [st [E2 H]].
  apply Ok_inj in H. exists ni, st. now repeat split.
Qed.

Lemma estimate_keeps (cfg : Config) (a : Accum) :
  total_rows_itens (estimate_irpj_csll cfg a) = total_rows_itens a
  /\ faturamento_bruto (estimate_irpj_csll cfg a) = faturamento_bruto a
  /\ icms_estimado (estimate_irpj_csll cfg a) = icms_estimado a
  /\ iss_estimado (estimate_irpj_csll cfg a) = iss_estimado a
  /\ pis_estimado (estimate_irpj_csll cfg a) = pis_estimado a
  /\ cofins_estimado (estimate_irpj_csll cfg a) = cofins_estimado a.
Proof.
  unfold estimate_irpj_csll. destruct ESTIMAR_IRPJ_CSLL; [|now repeat split].
  destruct (String.eqb _ "lucro_presumido"); [now repeat split|].
  destruct (String.eqb _ "lucro_real"); now repeat split.
Qed.

(** A batch leaves the accumulator as it is or adds its rows and its sum. *)
Lemma process_chunk_accum (cfg : Config) (st st' : State timestamp) (t : Table) :
  process_chunk timestamp to_datetime period_str cfg st t = Ok st' ->
  accum st' = accum st
  \/ exists rows chunk_sum, accum st' = accumulate cfg (accum st) rows chunk_sum.
Proof.
  intros H. destruct (processed timestamp t) eqn:Hp.
  - destruct (process_chunk_steps cfg st st' t Hp H)
      as [c [chunk1 [ni' [merged [chunk2 [vals [chunk3 [g1 [g2 [g3 [g4 Hs]]]]]]]]]]].
    right. exists (df_len (dimension_columns chunk2)), (sum_skipna vals).
    destruct Hs as [_ [_ [_ [_ [_ [_ [_ [_ [_ [_ ->]]]]]]]]]]. reflexivity.
  - rewrite (process_chunk_skipped timestamp to_datetime period_str) in H by exact Hp.
    apply Ok_inj in H. subst st'. now left.
Qed.

Lemma process_chunks_taxes (cfg : Config) (itens : list Table)
    (st st' : State timestamp) :
  process_chunks timestamp to_datetime period_str cfg st itens = Ok st' ->
  icms_estimado (accum st) == faturamento_bruto (accum st) * ALIQ_ICMS_DEFAULT cfg ->
  iss_estimado (accum st) == faturamento_bruto (accum st) * ALIQ_ISS_DEFAULT cfg ->
  pis_estimado (accum st) == faturamento_bruto (accum st) * ALIQ_PIS_CUM cfg ->
  cofins_estimado (accum st) == faturamento_bruto (accum st) * ALIQ_COFINS_CUM cfg ->
  icms_estimado (accum st') == faturamento_bruto (accum st') * ALIQ_ICMS_DEFAULT cfg
  /\ iss_estimado (accum st') == faturamento_bruto (accum st') * ALIQ_ISS_DEFAULT cfg
  /\ pis_estimado (accum st') == faturamento_bruto (accum st') * ALIQ_PIS_CUM cfg
  /\ cofins_estimado (accum st')
     == faturamento_bruto (accum st') * ALIQ_COFINS_CUM cfg.
Proof.
  revert st. induction itens as [|t rest IH]; intros st H H1 H2 H3 H4.
  - apply Ok_inj in H. subst st'. now repeat split.
  - cbn [process_chunks] in H. apply bind_Ok in H. destruct H as [st1 [E H]].
    apply process_chunk_accum in E.
    apply (IH st1 H); destruct E as [E|[rows [cs E]]]; rewrite E;
      try assumption; cbn [accumulate icms_estimado iss_estimado pis_estimado
                           cofins_estimado faturamento_bruto];
      [rewrite H1|rewrite H2|rewrite H3|rewrite H4]; ring.
Qed.


(** ** Further properties: rows and alignment *)

Lemma series_take_len (ix : list (option nat)) (s : series timestamp) :
  series_len (series_take ix s) = length ix.
Proof. destruct s; simpl; apply length_map. Qed.

(** The frame of a join has one entry per row of the join in every
    column. *)
Lemma aligned_merge_frames (on_column : bool) (left right : DataFrame timestamp)
    (pairs : list (nat * option nat)) :
  aligned (merge_frames on_column left right pairs).
Proof.
  unfold aligned, merge_frames. cbn [df_cols df_len].
  apply Forall_forall. intros p Hp. apply in_app_or in Hp.
  destruct Hp as [Hp|Hp]; apply in_map_iff in Hp; destruct Hp as [q [<- _]];
    cbn [snd]; rewrite series_take_len; apply length_map.
Qed.

Lemma merge_notas_aligned (ni ni' : NotasIndex timestamp)
    (chunk merged : DataFrame timestamp) :
  merge_notas ni chunk = Ok (ni', merged) -> aligned merged.
Proof.
  intros H. apply merge_notas_pairs in H.
  destruct H as [_ [_ [lkey [chunk' [pairs [_ [-> _]]]]]]].
  apply aligned_merge_frames.
Qed.

Lemma aligned_rename (old new : string) (df : DataFrame timestamp) :
  aligned df -> aligned (rename old new df).
Proof. rewrite rename_is_rename_with. apply aligned_rename_with. Qed.




(** The rows that a processed batch adds to the count: its own, when the
    keys of the invoices are distinct. *)
Lemma process_chunk_rows (cfg : Config) (st st' : State timestamp) (t : Table) :
  distinct_keys (notas_index st) ->
  process_chunk timestamp to_datetime period_str cfg st t = Ok st' ->
  total_rows_itens (accum st')
  = (total_rows_itens (accum st)
     + (if processed timestamp t then length (t_rows t) else 0))%nat.
Proof.
  intros Hu H. destruct (processed timestamp t) eqn:Hp.
  2:{ rewrite (process_chunk_skipped timestamp to_datetime period_str) in H by exact Hp.
      apply Ok_inj in H. subst st'. lia. }
  destruct (process_chunk_steps cfg st st' t Hp H)
    as [c [chunk1 [ni' [merged [chunk2 [vals [chunk3 [g1 [g2 [g3 [g4 Hs]]]]]]]]]]].
  destruct Hs as [_ [E1 [E2 [E3 [_ [_ [_ [_ [_ [_ ->]]]]]]]]]].
  cbn [accum accumulate total_rows_itens]. f_equal.
  apply item_amounts_column in E1;
    [|apply aligned_rename, aligned_normalized].
  destruct E1 as [Hw1 [_ [d [Hd [_ Hlen]]]]].
  pose proof (merge_notas_aligned _ _ _ _ E2) as Hwm.
  apply (merge_notas_amount timestamp _ _ _ _ d Hw1 Hd Hu) in E2.
  destruct E2 as [Hm _].
  pose proof (aligned_getitem _ _ _ _ Hwm Hm) as Hdm. cbn [series_len] in Hdm.
  apply parse_dates_amount in E3. destruct E3 as [_ E3].
  destruct (dimension_columns_amount timestamp chunk2) as [_ E4].
  rewrite E4, E3, <- Hdm, Hlen. reflexivity.
Qed.

Lemma process_chunks_rows (cfg : Config) (itens : list Table)
    (st st' : State timestamp) :
  distinct_keys (notas_index st) ->
  process_chunks timestamp to_datetime period_str cfg st itens = Ok st' ->
  total_rows_itens (accum st')
  = (total_rows_itens (accum st) + processed_rows timestamp itens)%nat.
Proof.
  revert st. induction itens as [|t rest IH]; intros st Hu H.
  - apply Ok_inj in H. subst st'. unfold processed_rows. simpl. lia.
  - cbn [process_chunks] in H. apply bind_Ok in H. destruct H as [st1 [E H]].
    pose proof (process_chunk_rows _ _ _ _ Hu E) as Hr.
    destruct (process_chunk_gross timestamp to_datetime period_str _ _ _ _ Hu E)
      as [_ Hni].
    assert (Hu1 : distinct_keys (notas_index st1)).
    { unfold distinct_keys in *. now rewrite Hni. }
    rewrite (IH st1 Hu1 H), Hr. unfold processed_rows, list_sum.
    cbn [map fold_right]. lia.
Qed.

Lemma initial_distinct_keys (notas : Table) (ni : NotasIndex timestamp) :
  load_notas timestamp notas = Ok ni ->
  NoDup (parent_keys timestamp notas) ->
  distinct_keys (notas_index (initial_state ni)).
Proof.
  intros El Hnd rkey Hr. unfold parent_keys in Hnd. rewrite El in Hnd.
  apply load_notas_index in El. destruct El as [El _].
  cbn [initial_state notas_index] in Hr. rewrite El in Hr.
  injection Hr as <-. exact Hnd.
Qed.


(** ** Further properties: sums over the batches *)

Lemma sum_skipna_cons (o : option Q) (d : list (option Q)) :
  sum_skipna (o :: d)
  == match o with Some v => v | None => 0 end + sum_skipna d.
Proof.
  unfold sum_skipna at 1. cbn [fold_left]. rewrite sum_skipna_acc.
  destruct o; ring.
Qed.

Lemma sum_skipna_perm (d e : list (option Q)) :
  Permutation d e -> sum_skipna d == sum_skipna e.
Proof.
  induction 1 as [|x l l' _ IH|x y l|l l' l'' _ IH1 _ IH2].
  - reflexivity.
  - now rewrite !sum_skipna_cons, IH.
  - rewrite !sum_skipna_cons. ring.
  - now rewrite IH1.
Qed.

Lemma list_sum_perm (l l' : list nat) :
  Permutation l l' -> list_sum l = list_sum l'.
Proof.
  induction 1 as [|x l l' _ IH|x y l|l l' l'' _ IH1 _ IH2]; simpl; lia.
Qed.

Lemma apuracao_gross (cfg : Config) (now : string) (notas : Table)
    (itens : list Table) (out : Output) :
  NoDup (parent_keys timestamp notas) ->
  apuracao timestamp to_datetime period_str cfg now notas itens = Ok out ->
  faturamento_bruto (summary out)
  == sum_skipna (flat_map (parsed_item_amounts timestamp) itens).
Proof.
  intros Hnd H. apply apuracao_state in H. destruct H as [ni [st [El [Hp ->]]]].
  unfold summary. cbn [resumo resumo_accum].
  destruct (estimate_keeps cfg (accum st)) as [_ [-> _]].
  rewrite (process_chunks_gross timestamp to_datetime period_str cfg itens _ _
             (initial_distinct_keys _ _ El Hnd) Hp).
  cbn [initial_state accum faturamento_bruto]. ring.
Qed.

Lemma apuracao_rows (cfg : Config) (now : string) (notas : Table)
    (itens : list Table) (out : Output) :
  NoDup (parent_keys timestamp notas) ->
  apuracao timestamp to_datetime period_str cfg now notas itens = Ok out ->
  total_rows_itens (summary out) = processed_rows timestamp itens.
Proof.
  intros Hnd H. apply apuracao_state in H. destruct H as [ni [st [El [Hp ->]]]].
  unfold summary. cbn [resumo resumo_accum].
  destruct (estimate_keeps cfg (accum st)) as [-> _].
  now rewrite (process_chunks_rows cfg itens _ _ (initial_distinct_keys _ _ El Hnd) Hp).
Qed.

Lemma apuracao_taxes (cfg : Config) (now : string) (notas : Table)
    (itens : list Table) (out : Output) :
  apuracao timestamp to_datetime period_str cfg now notas itens = Ok out ->
  icms_estimado (summary out)
  == faturamento_bruto (summary out) * ALIQ_ICMS_DEFAULT cfg
  /\ iss_estimado (summary out)
     == faturamento_bruto (summary out) * ALIQ_ISS_DEFAULT cfg
  /\ pis_estimado (summary out)
     == faturamento_bruto (summary out) * ALIQ_PIS_CUM cfg
  /\ cofins_estimado (summary out)
     == faturamento_bruto (summary out) * ALIQ_COFINS_CUM cfg.
Proof.
  intros H. apply apuracao_state in H. destruct H as [ni [st [_ [Hp ->]]]].
  unfold summary. cbn [resumo resumo_accum].
  destruct (estimate_keeps cfg (accum st)) as [_ [-> [-> [-> [-> ->]]]]].
  apply (process_chunks_taxes cfg itens _ _ Hp);
    cbn [initial_state accum icms_estimado iss_estimado pis_estimado
         cofins_estimado faturamento_bruto]; ring.
Qed.

(** In every completed run each of ICMS, ISS, PIS and COFINS is the gross
    revenue times the rate of the tax (in exact arithmetic). *)
Theorem proportional_taxes_follow_gross_revenue
    (cfg : Config) (now : string) (notas : Table) (itens : list Table)
    (out : Output) :
  apuracao timestamp to_datetime period_str cfg now notas itens = Ok out ->
  icms_estimado (summary out)
  == faturamento_bruto (summary out) * ALIQ_ICMS_DEFAULT cfg
  /\ iss_estimado (summary out)
     == faturamento_bruto (summary out) * ALIQ_ISS_DEFAULT cfg
  /\ pis_estimado (summary out)
     == faturamento_bruto (summary out) * ALIQ_PIS_CUM cfg
  /\ cofins_estimado (summary out)
     == faturamento_bruto (summary out) * ALIQ_COFINS_CUM cfg.
Proof. apply apuracao_taxes. Qed.

(** In every completed run on invoices with distinct keys the number of
    rows in the summary is the number of item rows of the processed
    batches: the join neither drops nor repeats an item. *)
Theorem row_count_is_rows_of_processed_batches
    (cfg : Config) (now : string) (notas : Table) (itens : list Table)
    (out : Output) :
  NoDup (parent_keys timestamp notas) ->
  apuracao timestamp to_datetime period_str cfg now notas itens = Ok out ->
  total_rows_itens (summary out) = processed_rows timestamp itens.
Proof. apply apuracao_rows. Qed.

(** The profit taxes are a function of the gross revenue. *)
Lemma apuracao_profit_taxes (cfg : Config) (now : string) (notas : Table)
    (itens : list Table) (out : Output) :
  apuracao timestamp to_datetime period_str cfg now notas itens = Ok out ->
  irpj_estimado (summary out)
  = (if String.eqb (ENQUADRAMENTO cfg) "lucro_presumido"
     then faturamento_bruto (summary out) * PRESUNCAO cfg * ALIQUOTA_IRPJ cfg
     else if String.eqb (ENQUADRAMENTO cfg) "lucro_real"
          then faturamento_bruto (summary out) * ESTIMATED_MARGIN cfg
               * ALIQUOTA_IRPJ cfg
          else 0)
  /\ csll_estimado (summary out)
     = (if String.eqb (ENQUADRAMENTO cfg) "lucro_presumido"
        then faturamento_bruto (summary out) * PRESUNCAO cfg * ALIQUOTA_CSLL cfg
        else if String.eqb (ENQUADRAMENTO cfg) "lucro_real"
             then faturamento_bruto (summary out) * ESTIMATED_MARGIN cfg
                  * ALIQUOTA_CSLL cfg
             else 0).
Proof.
  intros H. apply apuracao_state in H. destruct H as [ni [st [_ [_ ->]]]].
  unfold summary. cbn [resumo resumo_accum].
  unfold estimate_irpj_csll, ESTIMAR_IRPJ_CSLL.
  destruct (String.eqb (ENQUADRAMENTO cfg) "lucro_presumido"); [now split|].
  destruct (String.eqb (ENQUADRAMENTO cfg) "lucro_real"); now split.
Qed.

(** On invoices with distinct keys the accumulator does not depend on the
    order of the batches: two completed runs on the same batches in any two
    orders have the same number of rows and, in exact arithmetic, the same
    gross revenue and the same six taxes. *)
Theorem accumulator_is_order_independent
    (cfg : Config) (now : string) (notas : Table) (itens itens' : list Table)
    (o1 o2 : Output) :
  NoDup (parent_keys timestamp notas) ->
  Permutation itens itens' ->
  apuracao timestamp to_datetime period_str cfg now notas itens = Ok o1 ->
  apuracao timestamp to_datetime period_str cfg now notas itens' = Ok o2 ->
  total_rows_itens (summary o1) = total_rows_itens (summary o2)
  /\ faturamento_bruto (summary o1) == faturamento_bruto (summary o2)
  /\ icms_estimado (summary o1) == icms_estimado (summary o2)
  /\ iss_estimado (summary o1) == iss_estimado (summary o2)
  /\ pis_estimado (summary o1) == pis_estimado (summary o2)
  /\ cofins_estimado (summary o1) == cofins_estimado (summary o2)
  /\ irpj_estimado (summary o1) == irpj_estimado (summary o2)
  /\ csll_estimado (summary o1) == csll_estimado (summary o2).
Proof.
  intros Hnd Hperm H1 H2.
  assert (Hg : faturamento_bruto (summary o1) == faturamento_bruto (summary o2)).
  { rewrite (apuracao_gross _ _ _ _ _ Hnd H1), (apuracao_gross _ _ _ _ _ Hnd H2).
    apply sum_skipna_perm. now apply Permutation_flat_map. }
  split.
  { rewrite (apuracao_rows _ _ _ _ _ Hnd H1), (apuracao_rows _ _ _ _ _ Hnd H2).
    unfold processed_rows. apply list_sum_perm. now apply Permutation_map. }
  split; [exact Hg|].
  destruct (apuracao_taxes _ _ _ _ _ H1) as [A1 [A2 [A3 A4]]].
  destruct (apuracao_taxes _ _ _ _ _ H2) as [B1 [B2 [B3 B4]]].
  destruct (apuracao_profit_taxes _ _ _ _ _ H1) as [C1 C2].
  destruct (apuracao_profit_taxes _ _ _ _ _ H2) as [D1 D2].
  rewrite A1, A2, A3, A4, B1, B2, B3, B4, C1, C2, D1, D2.
  repeat split; try (now rewrite Hg);
    destruct (String.eqb (ENQUADRAMENTO cfg) "lucro_presumido");
    try (now rewrite Hg);
    destruct (String.eqb (ENQUADRAMENTO cfg) "lucro_real");
    try (now rewrite Hg); reflexivity.
Qed.

(** No batch is set against another: on invoices with distinct keys a batch
    that is fed a second time adds its rows and its amounts a second
    time. *)
Theorem refeeding_a_batch_counts_it_twice
    (cfg : Config) (now : string) (notas : Table) (l1 l2 : list Table)
    (t : Table) (o1 o2 : Output) :
  NoDup (parent_keys timestamp notas) ->
  apuracao timestamp to_datetime period_str cfg now notas (l1 ++ t :: l2) = Ok o1 ->
  apuracao timestamp to_datetime period_str cfg now notas (l1 ++ t :: t :: l2) = Ok o2 ->
  total_rows_itens (summary o2)
  = (total_rows_itens (summary o1)
     + (if processed timestamp t then length (t_rows t) else 0))%nat
  /\ faturamento_bruto (summary o2)
     == faturamento_bruto (summary o1)
        + sum_skipna (parsed_item_amounts timestamp t).
Proof.
  intros Hnd H1 H2. split.
  - rewrite (apuracao_rows _ _ _ _ _ Hnd H1), (apuracao_rows _ _ _ _ _ Hnd H2).
    unfold processed_rows. rewrite !map_app, !list_sum_app. cbn [map list_sum].
    unfold list_sum. cbn [fold_right]. lia.
  - rewrite (apuracao_gross _ _ _ _ _ Hnd H1), (apuracao_gross _ _ _ _ _ Hnd H2).
    rewrite !flat_map_app. cbn [flat_map].
    rewrite !sum_skipna_app. ring.
Qed.

(** ** Further properties: the pivot tables *)













Lemma HdRel_insert_sorted (q p : string * Q) (l : list (string * Q)) :
  label_le q p -> HdRel label_le q l -> HdRel label_le q (insert_sorted p l).
Proof.
  intros Hqp Hl. destruct l as [|x r]; cbn [insert_sorted]; [now constructor|].
  destruct (String.leb (fst p) (fst x)); constructor; [exact Hqp|].
  now inversion Hl.
Qed.

Lemma insert_sorted_sorted (p : string * Q) (l : list (string * Q)) :
  Sorted label_le l -> Sorted label_le (insert_sorted p l).
Proof.
  induction 1 as [|q r Hs IH Hd]; cbn [insert_sorted]; [repeat constructor|].
  destruct (String.leb (fst p) (fst q)) eqn:E.
  - repeat constructor; assumption.
  - constructor; [exact IH|]. apply HdRel_insert_sorted; [|exact Hd].
    unfold label_le. destruct (String.leb_total (fst p) (fst q)); congruence.
Qed.

Lemma sorted_items_sorted (d : bucket) : Sorted label_le (sorted_items d).
Proof.
  induction d as [|p r IH]; [constructor|].
  cbn [sorted_items fold_right]. now apply insert_sorted_sorted.
Qed.

Lemma insert_sorted_perm (p : string * Q) (l : list (string * Q)) :
  Permutation (insert_sorted p l) (p :: l).
Proof.
  induction l as [|q r IH]; cbn [insert_sorted]; [reflexivity|].
  destruct (String.leb (fst p) (fst q)); [reflexivity|].
  rewrite IH. apply perm_swap.
Qed.

Lemma sorted_items_perm (d : bucket) : Permutation (sorted_items d) d.
Proof.
  induction d as [|p r IH]; [reflexivity|].
  cbn [sorted_items fold_right]. fold (sorted_items r).
  rewrite insert_sorted_perm. now constructor.
Qed.

Lemma bucket_add_labels (k x : string) (v : Q) (d : bucket) :
  In x (map fst (bucket_add k v d)) <-> x = k \/ In x (map fst d).
Proof.
  induction d as [|[k' s] r IH]; cbn [bucket_add map fst In].
  - intuition congruence.
  - destruct (String.eqb k k') eqn:E; cbn [map fst In].
    + apply String.eqb_eq in E. subst k'. intuition congruence.
    + rewrite IH. intuition congruence.
Qed.

(** A dictionary has each key once. *)
Lemma bucket_add_NoDup (k : string) (v : Q) (d : bucket) :
  NoDup (map fst d) -> NoDup (map fst (bucket_add k v d)).
Proof.
  induction d as [|[k' s] r IH]; cbn [bucket_add map fst]; intros H.
  - repeat constructor. intros [].
  - inversion H as [|? ? Hk Hr]; subst.
    destruct (String.eqb k k') eqn:E; cbn [map fst]; [now constructor|].
    constructor; [|now apply IH].
    rewrite bucket_add_labels. intros [->|Hin]; [|contradiction].
    now rewrite String.eqb_refl in E.
Qed.

Lemma bucket_update_NoDup (groups : list (string * Q)) (d : bucket) :
  NoDup (map fst d) -> NoDup (map fst (bucket_update d groups)).
Proof.
  unfold bucket_update. revert d.
  induction groups as [|g r IH]; intros d H; cbn [fold_left]; [exact H|].
  apply IH. now apply bucket_add_NoDup.
Qed.

Lemma sorted_distinct_is_strict (l : list (string * Q)) :
  Sorted label_le l -> NoDup (map fst l) -> Sorted label_lt l.
Proof.
  induction 1 as [|p r Hs IH Hd]; intros Hnd; [constructor|].
  cbn [map] in Hnd. inversion Hnd as [|? ? Hp Hr]; subst.
  constructor; [now apply IH|].
  destruct r as [|q r']; constructor.
  inversion Hd as [|? ? Hpq]; subst.
  unfold label_le, label_lt, String.leb, String.ltb in *.
  destruct (String.compare (fst p) (fst q)) eqn:E; try reflexivity; try discriminate.
  apply String.compare_eq_iff in E. exfalso. apply Hp. cbn [map]. now left.
Qed.

(** The pivot of a dictionary with distinct keys is in strictly ascending
    order of label. *)
Lemma sorted_items_strict (d : bucket) :
  NoDup (map fst d) -> Sorted label_lt (sorted_items d).
Proof.
  intros H. apply sorted_distinct_is_strict; [apply sorted_items_sorted|].
  apply (Permutation_NoDup (l := map fst d)); [|exact H].
  apply Permutation_map. symmetry. apply sorted_items_perm.
Qed.

Lemma process_chunks_labels (cfg : Config) (itens : list Table)
    (st st' : State timestamp) :
  process_chunks timestamp to_datetime period_str cfg st itens = Ok st' ->
  NoDup (map fst (faturamento_por_mes st)) ->
  NoDup (map fst (faturamento_por_uf_emit st)) ->
  NoDup (map fst (faturamento_por_cfop st)) ->
  NoDup (map fst (faturamento_por_ncm st)) ->
  NoDup (map fst (faturamento_por_mes st'))
  /\ NoDup (map fst (faturamento_por_uf_emit st'))
  /\ NoDup (map fst (faturamento_por_cfop st'))
  /\ NoDup (map fst (faturamento_por_ncm st')).
Proof.
  revert st. induction itens as [|t rest IH]; intros st H H1 H2 H3 H4.
  - apply Ok_inj in H. subst st'. now repeat split.
  - cbn [process_chunks] in H. apply bind_Ok in H. destruct H as [st1 [E H]].
    destruct (processed timestamp t) eqn:Hp.
    + destruct (process_chunk_steps cfg st st1 t Hp E)
        as [c [chunk1 [ni' [merged [chunk2 [vals [chunk3 [g1 [g2 [g3 [g4 Hs]]]]]]]]]]].
      destruct Hs as [_ [_ [_ [_ [_ [_ [_ [_ [_ [_ Hs]]]]]]]]]].
      apply (IH st1 H); rewrite Hs;
        cbn [faturamento_por_mes faturamento_por_uf_emit faturamento_por_cfop
             faturamento_por_ncm];
        now apply bucket_update_NoDup.
    + rewrite (process_chunk_skipped timestamp to_datetime period_str) in E by exact Hp.
      apply Ok_inj in E. subst st1. now apply (IH st H).
Qed.

(** In every completed run each of the four pivot tables is in strictly
    ascending order of label: no label comes twice, and the empty label and
    the label of a missing date stand where the order of text puts them. *)
Theorem pivot_tables_are_strictly_sorted
    (cfg : Config) (now : string) (notas : Table) (itens : list Table)
    (out : Output) :
  apuracao timestamp to_datetime period_str cfg now notas itens = Ok out ->
  Sorted label_lt (pivot_mes out)
  /\ Sorted label_lt (pivot_uf_emit out)
  /\ Sorted label_lt (pivot_cfop out)
  /\ Sorted label_lt (pivot_ncm out).
Proof.
  intros H. apply apuracao_state in H. destruct H as [ni [st [_ [Hp ->]]]].
  cbn [pivot_mes pivot_uf_emit pivot_cfop pivot_ncm].
  assert (H0 : NoDup (map fst (@nil (string * Q)))) by constructor.
  destruct (process_chunks_labels cfg itens _ _ Hp H0 H0 H0 H0) as [H1 [H2 [H3 H4]]].
  repeat split; now apply sorted_items_strict.
Qed.

(** ** Further properties: fatal errors and files *)

(** A table of invoices without rows stops the run with a fatal error, and
    no file is written. *)
Theorem empty_notas_aborts
    (cfg : Config) (now : string) (notas : Table) (itens : list Table)
    (outdir : string) (fs : files) :
  t_rows notas = [] ->
  process_from_postgres timestamp to_datetime period_str cfg now notas itens outdir fs
  = (Fatal "Tabela 'notas' esta vazia ou nao encontrada.", fs).
Proof.
  intros H. unfold process_from_postgres, apuracao, load_notas.
  unfold read_sql at 1. cbn [df_len]. rewrite H. reflexivity.
Qed.

Lemma read_write_same (path : string) (f : file) (fs : files) :
  read_file path (write path f fs) = Some f.
Proof.
  unfold read_file, write.
  induction fs as [|p r IH]; cbn [filter app find].
  - now rewrite String.eqb_refl.
  - destruct (String.eqb (fst p) path) eqn:E; cbn [negb]; [exact IH|].
    cbn [app find]. now rewrite E.
Qed.

Lemma read_write_other (path path' : string) (f : file) (fs : files) :
  path' <> path -> read_file path' (write path f fs) = read_file path' fs.
Proof.
  intros Hne. unfold read_file, write.
  assert (E0 : String.eqb path path' = false) by (apply String.eqb_neq; congruence).
  induction fs as [|p r IH]; cbn [filter app find fst].
  - now rewrite E0.
  - destruct (String.eqb (fst p) path) eqn:E; cbn [negb].
    + apply String.eqb_eq in E.
      assert (E1 : String.eqb (fst p) path' = false)
        by (apply String.eqb_neq; congruence).
      now rewrite E1.
    + cbn [app find]. destruct (String.eqb (fst p) path'); [reflexivity|exact IH].
Qed.

Lemma append_inj_l (a b c : string) : a ++ b = a ++ c -> b = c.
Proof.
  induction a as [|x a IH]; cbn [append]; intros H; [exact H|].
  injection H as H. now apply IH.
Qed.

Lemma path_join_inj (dir n1 n2 : string) :
  path_join dir n1 = path_join dir n2 -> n1 = n2.
Proof.
  unfold path_join. intros H. apply append_inj_l in H. now injection H.
Qed.

Ltac read_back :=
  repeat (rewrite read_write_other
            by (intros Hp; apply path_join_inj in Hp; discriminate Hp));
  apply read_write_same.

Lemma process_from_postgres_files
    (cfg : Config) (now : string) (notas : Table) (itens : list Table)
    (outdir : string) (fs fs' : files) (r : outcome Output) :
  process_from_postgres timestamp to_datetime period_str cfg now notas itens outdir fs
  = (r, fs') ->
  match r with
  | Fatal _ => fs' = fs
  | Ok out =>
      read_file (path_join outdir "resumo_apuracao.json") fs'
      = Some (ResumoJson (resumo out))
      /\ read_file (path_join outdir "resumo_apuracao.csv") fs'
         = Some (ResumoCsv (resumo out))
      /\ read_file (path_join outdir "faturamento_por_mes.csv") fs'
         = Some (PivotCsv ("mes_ano", "faturamento") (pivot_mes out))
      /\ read_file (path_join outdir "faturamento_por_uf_emitente.csv") fs'
         = Some (PivotCsv ("uf_emit", "faturamento") (pivot_uf_emit out))
      /\ read_file (path_join outdir "faturamento_por_cfop.csv") fs'
         = Some (PivotCsv ("cfop", "faturamento") (pivot_cfop out))
      /\ read_file (path_join outdir "faturamento_por_ncm.csv") fs'
         = Some (PivotCsv ("ncm", "faturamento") (pivot_ncm out))
      /\ forall path,
           ~ In path (map (path_join outdir) output_names) ->
           read_file path fs' = read_file path fs
  end.
Proof.
  unfold process_from_postgres.
  destruct (apuracao timestamp to_datetime period_str cfg now notas itens)
    as [msg|out]; intros H; injection H as <- <-; [reflexivity|].
  repeat split; try read_back.
  intros path Hp. cbn [output_names map In] in Hp.
  repeat (rewrite read_write_other by (intros ->; apply Hp; tauto)).
  reflexivity.
Qed.

(** A run that fails leaves every file as it was.  A run that completes
    writes its six files, the summary as JSON and as CSV and the four pivot
    tables, each with the contents of the result, and leaves every file
    under another path as it was. *)
Theorem files_of_a_run
    (cfg : Config) (now : string) (notas : Table) (itens : list Table)
    (outdir : string) (fs fs' : files) (r : outcome Output) :
  process_from_postgres timestamp to_datetime period_str cfg now notas itens outdir fs
  = (r, fs') ->
  match r with
  | Fatal _ => fs' = fs
  | Ok out =>
      read_file (path_join outdir "resumo_apuracao.json") fs'
      = Some (ResumoJson (resumo out))
      /\ read_file (path_join outdir "resumo_apuracao.csv") fs'
         = Some (ResumoCsv (resumo out))
      /\ read_file (path_join outdir "faturamento_por_mes.csv") fs'
         = Some (PivotCsv ("mes_ano", "faturamento") (pivot_mes out))
      /\ read_file (path_join outdir "faturamento_por_uf_emitente.csv") fs'
         = Some (PivotCsv ("uf_emit", "faturamento") (pivot_uf_emit out))
      /\ read_file (path_join outdir "faturamento_por_cfop.csv") fs'
         = Some (PivotCsv ("cfop", "faturamento") (pivot_cfop out))
      /\ read_file (path_join outdir "faturamento_por_ncm.csv") fs'
         = Some (PivotCsv ("ncm", "faturamento") (pivot_ncm out))
      /\ forall path,
           ~ In path (map (path_join outdir) output_names) ->
           read_file path fs' = read_file path fs
  end.
Proof. apply process_from_postgres_files. Qed.

(** ** Further properties: the regime and the settings *)

Lemma process_chunks_presuncao (p : Q) (cfg : Config) (itens : list Table)
    (st : State timestamp) :
  process_chunks timestamp to_datetime period_str (with_presuncao p cfg) st itens
  = process_chunks timestamp to_datetime period_str cfg st itens.
Proof.
  revert st. induction itens as [|t rest IH]; intros st; [reflexivity|].
  cbn [process_chunks].
  change (process_chunk timestamp to_datetime period_str (with_presuncao p cfg) st t)
    with (process_chunk timestamp to_datetime period_str cfg st t).
  destruct (process_chunk timestamp to_datetime period_str cfg st t); [reflexivity|].
  cbn [bind]. apply IH.
Qed.

Lemma apuracao_presuncao (cfg : Config) (p : Q) (now : string) (notas : Table)
    (itens : list Table) :
  ENQUADRAMENTO cfg <> "lucro_presumido" ->
  apuracao timestamp to_datetime period_str (with_presuncao p cfg) now notas itens
  = apuracao timestamp to_datetime period_str cfg now notas itens.
Proof.
  intros Hr. unfold apuracao.
  destruct (load_notas timestamp notas) as [msg|ni]; [reflexivity|]. cbn [bind].
  rewrite process_chunks_presuncao.
  destruct (process_chunks timestamp to_datetime period_str cfg (initial_state ni) itens)
    as [msg|st]; [reflexivity|].
  cbn [bind]. do 3 f_equal.
  unfold estimate_irpj_csll. cbn [with_presuncao ENQUADRAMENTO].
  apply String.eqb_neq in Hr. now rewrite Hr.
Qed.

(** The presumption rate is read under [lucro_presumido] only: under any
    other regime a run gives the same result whatever the rate is. *)
Theorem presumption_rate_is_read_under_lucro_presumido_only
    (cfg : Config) (p : Q) (now : string) (notas : Table) (itens : list Table) :
  ENQUADRAMENTO cfg <> "lucro_presumido" ->
  apuracao timestamp to_datetime period_str (with_presuncao p cfg) now notas itens
  = apuracao timestamp to_datetime period_str cfg now notas itens.
Proof. apply apuracao_presuncao. Qed.

(** What the user interface can set.  The estimated margin stays the one of
    the module; so a run that the interface starts under [lucro_real] has
    IRPJ and CSLL equal to the gross revenue times that margin times the
    rate of the tax, and the presumption rate that the interface passes
    changes nothing in the result. *)
Theorem interface_run_under_lucro_real
    (ap : Config)
    (aliq_icms aliq_iss aliq_pis aliq_cofins aliq_irpj aliq_csll presuncao : Q)
    (now : string) (notas : Table) (itens : list Table) (out : Output) :
  apuracao timestamp to_datetime period_str
           (executar_assign aliq_icms aliq_iss aliq_pis aliq_cofins aliq_irpj
                            aliq_csll presuncao "lucro_real" ap)
           now notas itens = Ok out ->
  irpj_estimado (summary out)
  = faturamento_bruto (summary out) * ESTIMATED_MARGIN ap * aliq_irpj
  /\ csll_estimado (summary out)
     = faturamento_bruto (summary out) * ESTIMATED_MARGIN ap * aliq_csll
  /\ forall presuncao',
       apuracao timestamp to_datetime period_str
                (executar_assign aliq_icms aliq_iss aliq_pis aliq_cofins aliq_irpj
                                 aliq_csll presuncao' "lucro_real" ap)
                now notas itens = Ok out.
Proof.
  intros H. destruct (apuracao_profit_taxes _ _ _ _ _ H) as [H1 H2].
  split; [exact H1|]. split; [exact H2|].
  intros presuncao'. rewrite <- H.
  change (executar_assign aliq_icms aliq_iss aliq_pis aliq_cofins aliq_irpj
            aliq_csll presuncao' "lucro_real" ap)
    with (with_presuncao presuncao'
            (executar_assign aliq_icms aliq_iss aliq_pis aliq_cofins aliq_irpj
               aliq_csll presuncao "lucro_real" ap)).
  apply apuracao_presuncao. discriminate.
Qed.

(** ** Further properties: waiting for the files *)

Lemma esperar_loop_result (fs_at : nat -> files) (path : string)
    (tentativas slept : nat) (found : bool) (n : nat) :
  esperar_loop fs_at path tentativas slept = (found, n) ->
  (forall i, (slept <= i < n)%nat -> exists_nonempty path (fs_at i) = false)
  /\ if found
     then exists_nonempty path (fs_at n) = true
          /\ (slept <= n < slept + tentativas)%nat
     else n = (slept + tentativas)%nat.
Proof.
  revert slept. induction tentativas as [|k IH]; intros slept H; cbn [esperar_loop] in H.
  - injection H as <- <-. split; [intros i Hi; lia|lia].
  - destruct (exists_nonempty path (fs_at slept)) eqn:E.
    + injection H as <- <-. split; [intros i Hi; lia|]. split; [exact E|lia].
    + destruct (IH (S slept) H) as [H1 H2]. split.
      * intros i Hi. destruct (Nat.eq_dec i slept) as [->|Hne]; [exact E|].
        apply H1. lia.
      * destruct found; [|lia]. destruct H2 as [H2 H3]. split; [exact H2|lia].
Qed.

(** [esperar_arquivo] answers [True] at the first look that finds the file
    with content, having slept once after each earlier look, none of which
    found it, and with fewer sleeps than [tentativas]; it answers [False]
    after [tentativas] looks that did not find it and as many sleeps. *)
Theorem esperar_arquivo_result (fs_at : nat -> files) (path : string)
    (tentativas : nat) (found : bool) (slept : nat) :
  esperar_arquivo fs_at path tentativas = (found, slept) ->
  (forall i, (i < slept)%nat -> exists_nonempty path (fs_at i) = false)
  /\ if found
     then exists_nonempty path (fs_at slept) = true /\ (slept < tentativas)%nat
     else slept = tentativas.
Proof.
  unfold esperar_arquivo. intros H. apply esperar_loop_result in H.
  destruct H as [H1 H2]. split; [intros i Hi; apply H1; lia|].
  destruct found; [|lia]. destruct H2 as [H2 H3]. split; [exact H2|lia].
Qed.

(** After a completed run the two files that the interface waits for are
    there: with at least one look allowed, each wait answers [True] at the
    first look, without a sleep. *)
Theorem wait_after_a_completed_run
    (cfg : Config) (now : string) (notas : Table) (itens : list Table)
    (outdir : string) (fs fs' : files) (out : Output)
    (fs_at : nat -> files) (tentativas : nat) :
  process_from_postgres timestamp to_datetime period_str cfg now notas itens outdir fs
  = (Ok out, fs') ->
  fs_at 0%nat = fs' ->
  (0 < tentativas)%nat ->
  esperar_arquivo fs_at (path_join outdir "resumo_apuracao.json") tentativas
  = (true, 0%nat)
  /\ esperar_arquivo fs_at (path_join outdir "faturamento_por_mes.csv") tentativas
     = (true, 0%nat).
Proof.
  intros H H0 Ht. apply process_from_postgres_files in H.
  destruct H as [H1 [_ [H3 _]]].
  destruct tentativas as [|k]; [lia|].
  unfold esperar_arquivo, exists_nonempty. cbn [esperar_loop].
  unfold exists_nonempty. now rewrite H0, H1, H3.
Qed.

End Run.

(** ** The further properties on sample runs *)

Lemma find_best_column_sound_and_complete_witness :
  ["valor"; "total"] <> []
  /\ (forall c, find_best_column ["Chave"; "Valor Total"] ["valor"; "total"] = Some c ->
                In c ["Chave"; "Valor Total"]
                /\ contains_any ["valor"; "total"] c = true)
  /\ (find_best_column ["Chave"; "Valor Total"] ["valor"; "total"] = None
      <-> forall c, In c ["Chave"; "Valor Total"] ->
                    contains_any ["valor"; "total"] c = false).
Proof.
  split; [discriminate|].
  apply (find_best_column_sound_and_complete ["Chave"; "Valor Total"] ["valor"; "total"]).
  discriminate.
Defined.

Lemma find_best_column_priority_witness :
  find_best_column (["Valor Item"] ++ "Valor Total" :: ["Total"]) ["valor"; "total"]
  = Some "Valor Total".
Proof.
  apply (proj1 (find_best_column_priority ["Valor Item"] ["Total"] ["valor"; "total"]
                  "Valor Total")); [reflexivity|].
  intros x [<-|[]]. reflexivity.
Defined.

Lemma proportional_taxes_follow_gross_revenue_witness :
  exists out,
    apuracao unit no_dates unit_period default_config "now" notas_one
             [batch_a; batch_b] = Ok out
    /\ icms_estimado (summary out)
       == faturamento_bruto (summary out) * ALIQ_ICMS_DEFAULT default_config
    /\ iss_estimado (summary out)
       == faturamento_bruto (summary out) * ALIQ_ISS_DEFAULT default_config
    /\ pis_estimado (summary out)
       == faturamento_bruto (summary out) * ALIQ_PIS_CUM default_config
    /\ cofins_estimado (summary out)
       == faturamento_bruto (summary out) * ALIQ_COFINS_CUM default_config.
Proof.
  eexists. split; [evaluate|].
  apply (proportional_taxes_follow_gross_revenue no_dates unit_period default_config
           "now" notas_one [batch_a; batch_b]).
  evaluate.
Defined.

Lemma row_count_is_rows_of_processed_batches_witness :
  exists out,
    NoDup (parent_keys unit notas_one)
    /\ apuracao unit no_dates unit_period default_config "now" notas_one
                [batch_a; batch_keyless; batch_b] = Ok out
    /\ total_rows_itens (summary out)
       = processed_rows unit [batch_a; batch_keyless; batch_b].
Proof.
  assert (Hnd : NoDup (parent_keys unit notas_one)).
  { vm_compute. constructor; [intros []|constructor]. }
  eexists. split; [exact Hnd|]. split; [evaluate|].
  apply (row_count_is_rows_of_processed_batches no_dates unit_period default_config
           "now" notas_one [batch_a; batch_keyless; batch_b]); [exact Hnd|evaluate].
Defined.

Lemma accumulator_is_order_independent_witness :
  exists o1 o2,
    NoDup (parent_keys unit notas_one)
    /\ Permutation [batch_a; batch_b] [batch_b; batch_a]
    /\ apuracao unit no_dates unit_period default_config "now" notas_one
                [batch_a; batch_b] = Ok o1
    /\ apuracao unit no_dates unit_period default_config "now" notas_one
                [batch_b; batch_a] = Ok o2
    /\ total_rows_itens (summary o1) = total_rows_itens (summary o2)
    /\ faturamento_bruto (summary o1) == faturamento_bruto (summary o2)
    /\ icms_estimado (summary o1) == icms_estimado (summary o2)
    /\ iss_estimado (summary o1) == iss_estimado (summary o2)
    /\ pis_estimado (summary o1) == pis_estimado (summary o2)
    /\ cofins_estimado (summary o1) == cofins_estimado (summary o2)
    /\ irpj_estimado (summary o1) == irpj_estimado (summary o2)
    /\ csll_estimado (summary o1) == csll_estimado (summary o2).
Proof.
  assert (Hnd : NoDup (parent_keys unit notas_one)).
  { vm_compute. constructor; [intros []|constructor]. }
  eexists. eexists. split; [exact Hnd|]. split; [apply perm_swap|].
  split; [evaluate|]. split; [evaluate|].
  apply (accumulator_is_order_independent no_dates unit_period default_config
           "now" notas_one [batch_a; batch_b] [batch_b; batch_a]);
    [exact Hnd|apply perm_swap|evaluate|evaluate].
Defined.

Lemma refeeding_a_batch_counts_it_twice_witness :
  exists o1 o2,
    NoDup (parent_keys unit notas_one)
    /\ apuracao unit no_dates unit_period default_config "now" notas_one
                ([batch_a] ++ batch_b :: []) = Ok o1
    /\ apuracao unit no_dates unit_period default_config "now" notas_one
                ([batch_a] ++ batch_b :: batch_b :: []) = Ok o2
    /\ total_rows_itens (summary o2)
       = (total_rows_itens (summary o1)
          + (if processed unit batch_b then length (t_rows batch_b) else 0))%nat
    /\ faturamento_bruto (summary o2)
       == faturamento_bruto (summary o1)
          + sum_skipna (parsed_item_amounts unit batch_b).
Proof.
  assert (Hnd : NoDup (parent_keys unit notas_one)).
  { vm_compute. constructor; [intros []|constructor]. }
  eexists. eexists. split; [exact Hnd|].
  split; [evaluate|]. split; [evaluate|].
  apply (refeeding_a_batch_counts_it_twice no_dates unit_period default_config
           "now" notas_one [batch_a] [] batch_b);
    [exact Hnd|evaluate|evaluate].
Defined.


Lemma pivot_tables_are_strictly_sorted_witness :
  exists out,
    apuracao unit no_dates unit_period default_config "now" notas_one
             [batch_two_cfop; batch_two_cfop] = Ok out
    /\ map fst (pivot_cfop out) = ["5102"; "6102"]
    /\ Sorted label_lt (pivot_mes out)
    /\ Sorted label_lt (pivot_uf_emit out)
    /\ Sorted label_lt (pivot_cfop out)
    /\ Sorted label_lt (pivot_ncm out).
Proof.
  eexists.
  match goal with |- ?A /\ _ => assert (E : A) by evaluate end.
  split; [exact E|]. split; [evaluate|].
  exact (pivot_tables_are_strictly_sorted no_dates unit_period default_config
           "now" notas_one [batch_two_cfop; batch_two_cfop] _ E).
Defined.

Lemma empty_notas_aborts_witness :
  t_rows (mkTable ["chave_acesso"; "valor_total"] []) = []
  /\ process_from_postgres unit no_dates unit_period default_config "now"
       (mkTable ["chave_acesso"; "valor_total"] []) [batch_a] "output" []
     = (Fatal "Tabela 'notas' esta vazia ou nao encontrada.", []).
Proof.
  split; [reflexivity|].
  apply (empty_notas_aborts no_dates unit_period). reflexivity.
Defined.

Lemma files_of_a_run_witness :
  exists out fs',
    process_from_postgres unit no_dates unit_period default_config "now" notas_one
                          [batch_a; batch_b] "output" [] = (Ok out, fs')
    /\ read_file (path_join "output" "resumo_apuracao.json") fs'
       = Some (ResumoJson (resumo out))
    /\ read_file (path_join "output" "resumo_apuracao.csv") fs'
       = Some (ResumoCsv (resumo out))
    /\ read_file (path_join "output" "faturamento_por_mes.csv") fs'
       = Some (PivotCsv ("mes_ano", "faturamento") (pivot_mes out))
    /\ read_file (path_join "output" "faturamento_por_uf_emitente.csv") fs'
       = Some (PivotCsv ("uf_emit", "faturamento") (pivot_uf_emit out))
    /\ read_file (path_join "output" "faturamento_por_cfop.csv") fs'
       = Some (PivotCsv ("cfop", "faturamento") (pivot_cfop out))
    /\ read_file (path_join "output" "faturamento_por_ncm.csv") fs'
       = Some (PivotCsv ("ncm", "faturamento") (pivot_ncm out))
    /\ forall path,
         ~ In path (map (path_join "output") output_names) ->
         read_file path fs' = read_file path [].
Proof.
  eexists. eexists.
  match goal with |- ?P /\ _ => assert (E : P) by evaluate end.
  split; [exact E|].
  match type of E with
  | _ = (Ok ?out, ?fs') =>
      exact (files_of_a_run no_dates unit_period default_config "now" notas_one
               [batch_a; batch_b] "output" [] fs' (Ok out) E)
  end.
Defined.

Lemma presumption_rate_is_read_under_lucro_presumido_only_witness :
  ENQUADRAMENTO (with_regime "simples_nacional" default_config) <> "lucro_presumido"
  /\ apuracao unit no_dates unit_period
              (with_presuncao 0.32 (with_regime "simples_nacional" default_config))
              "now" notas_one [batch_a; batch_b]
     = apuracao unit no_dates unit_period
                (with_regime "simples_nacional" default_config)
                "now" notas_one [batch_a; batch_b].
Proof.
  split; [discriminate|].
  apply (presumption_rate_is_read_under_lucro_presumido_only no_dates unit_period).
  discriminate.
Defined.

Lemma interface_run_under_lucro_real_witness :
  exists out,
    apuracao unit no_dates unit_period
             (executar_assign 0.18 0.05 0.0065 0.03 0.15 0.09 0.08 "lucro_real"
                              default_config)
             "now" notas_one [batch_a; batch_b] = Ok out
    /\ irpj_estimado (summary out)
       = faturamento_bruto (summary out) * ESTIMATED_MARGIN default_config * 0.15
    /\ csll_estimado (summary out)
       = faturamento_bruto (summary out) * ESTIMATED_MARGIN default_config * 0.09
    /\ forall presuncao',
         apuracao unit no_dates unit_period
                  (executar_assign 0.18 0.05 0.0065 0.03 0.15 0.09 presuncao'
                                   "lucro_real" default_config)
                  "now" notas_one [batch_a; batch_b] = Ok out.
Proof.
  eexists. split; [evaluate|].
  apply (interface_run_under_lucro_real no_dates unit_period default_config
           0.18 0.05 0.0065 0.03 0.15 0.09 0.08 "now" notas_one [batch_a; batch_b]).
  evaluate.
Defined.

Lemma esperar_arquivo_result_witness :
  esperar_arquivo
    (fun i => if (i <? 2)%nat then [] else [("out/f.csv", PivotCsv ("a", "b") [])])
    "out/f.csv" 5 = (true, 2%nat)
  /\ (forall i, (i < 2)%nat ->
        exists_nonempty "out/f.csv"
          ((fun i => if (i <? 2)%nat then []
                     else [("out/f.csv", PivotCsv ("a", "b") [])]) i) = false)
  /\ exists_nonempty "out/f.csv"
       ((fun i => if (i <? 2)%nat then []
                  else [("out/f.csv", PivotCsv ("a", "b") [])]) 2%nat) = true
  /\ (2 < 5)%nat.
Proof.
  split; [reflexivity|].
  apply (esperar_arquivo_result
           (fun i => if (i <? 2)%nat then []
                     else [("out/f.csv", PivotCsv ("a", "b") [])])
           "out/f.csv" 5 true 2).
  reflexivity.
Defined.

Lemma wait_after_a_completed_run_witness :
  exists out fs',
    process_from_postgres unit no_dates unit_period default_config "now" notas_one
                          [batch_a; batch_b] "output" [] = (Ok out, fs')
    /\ (0 < 3)%nat
    /\ esperar_arquivo (fun _ => fs') (path_join "output" "resumo_apuracao.json") 3
       = (true, 0%nat)
    /\ esperar_arquivo (fun _ => fs') (path_join "output" "faturamento_por_mes.csv") 3
       = (true, 0%nat).
Proof.
  eexists. eexists.
  match goal with |- ?P /\ _ => assert (E : P) by evaluate end.
  split; [exact E|]. split; [lia|].
  match type of E with
  | _ = (Ok ?out, ?fs') =>
      apply (wait_after_a_completed_run no_dates unit_period default_config "now"
               notas_one [batch_a; batch_b] "output" [] fs' out (fun _ => fs') 3 E);
      [reflexivity|lia]
  end.
Defined.
